(** * Player_European_Stats: the query and aggregation pipeline

    A shallow embedding of [src/Player_European_Stats.py].  A dataframe is a
    list of rows, a cell that pandas shows as NULL/NA is [None], and a Python
    exception is the [Raise] branch of [result].  Numeric cells are integers
    ([Z]); the counters of the dataset stay far below the 64-bit range, so no
    wrap-around is modelled. *)

From Stdlib Require Import ZArith List String Ascii Bool Lia Permutation Sorting.Sorted.
From Stdlib Require Import DecimalString.
Import ListNotations.
Open Scope string_scope.
Open Scope Z_scope.
Open Scope list_scope.

Set Implicit Arguments.

(** ** Exceptions and results *)

Inductive exn : Type :=
| IndexError      (* [.iat[0]] on an empty series *)
| ValueError      (* [astype(int)] / [int()] on a string that is no number *)
| TypeError       (* [int(None)] *)
| AttributeError. (* a method called on [None] *)

Inductive result (A : Type) : Type :=
| Ok (a : A)
| Raise (e : exn).

Arguments Ok {A} a.
Arguments Raise {A} e.

Definition rbind {A B} (m : result A) (k : A -> result B) : result B :=
  match m with
  | Ok a => k a
  | Raise e => Raise e
  end.

Notation "'let?' x ':=' m 'in' k" := (rbind m (fun x => k))
  (at level 10, x name, m at level 100, k at level 200).

Fixpoint rmap {A B} (f : A -> result B) (l : list A) : result (list B) :=
  match l with
  | [] => Ok []
  | x :: l' =>
      let? y := f x in
      let? ys := rmap f l' in
      Ok (y :: ys)
  end.

(** ** The appearance table

    One row of [streamlit.Fbref_Appearances].  The key columns are strings;
    every other column may hold NULL. *)

Record Row : Type := mkRow {
  player_name       : string;
  competition_name  : string;
  season_name       : string;
  team_name         : string;
  game_date         : option Z;
  nationality       : option string;
  player_position   : option string;
  shirt_number      : option Z;
  minutes_played    : option Z;
  goals             : option Z;
  assists           : option Z;
  yellow_cards      : option Z;
  red_cards         : option Z;
  number_of_seasons : option Z
}.

Definition DataFrame := list Row.

(** ** Generic column operations *)

Section Columns.
Variable A : Type.
Variable eqb : A -> A -> bool.
Variable leb : A -> A -> bool.

(** [Series.dropna]. *)
Fixpoint dropna (col : list (option A)) : list A :=
  match col with
  | [] => []
  | Some v :: col' => v :: dropna col'
  | None :: col' => dropna col'
  end.

(** Number of cells equal to [x]. *)
Definition count (x : A) (l : list A) : nat := List.length (filter (eqb x) l).

(** [Series.unique]: the distinct values, in order of first appearance. *)
Fixpoint unique (l : list A) : list A :=
  match l with
  | [] => []
  | x :: l' => x :: filter (fun y => negb (eqb x y)) (unique l')
  end.

(** Python's [sorted] and the sort behind [groupby] keys and [mode]: a
    stable sort.  On a total order every sort returns this list. *)
Fixpoint insert_sorted (x : A) (l : list A) : list A :=
  match l with
  | [] => [x]
  | y :: l' => if leb x y then x :: l else y :: insert_sorted x l'
  end.

Fixpoint sorted (l : list A) : list A :=
  match l with
  | [] => []
  | x :: l' => insert_sorted x (sorted l')
  end.

Definition max_count (l : list A) : nat :=
  fold_right Nat.max 0%nat (map (fun x => count x l) l).

(** [Series.mode()] with its default [dropna=True]: the values of highest
    frequency, sorted ascending. *)
Definition mode (col : list (option A)) : list A :=
  let vals := dropna col in
  sorted (filter (fun x => Nat.eqb (count x vals) (max_count vals)) (unique vals)).

(** [.iat[0]]. *)
Definition iat0 (s : list A) : result A :=
  match s with
  | x :: _ => Ok x
  | [] => Raise IndexError
  end.

(** [Series.min()] of a non-empty series. *)
Definition min_of (x : A) (l : list A) : A :=
  fold_left (fun m y => if leb y m then y else m) l x.
End Columns.

(** [Series.sum(skipna=True)]. *)
Definition sum_skipna (col : list (option Z)) : Z :=
  fold_right Z.add 0 (dropna col).

(** ** Sentinel replacement: [final_df.replace(-1, pd.NA)] *)

Definition replace_cell (c : option Z) : option Z :=
  match c with
  | Some v => if v =? -1 then None else Some v
  | None => None
  end.

Definition replace_row (r : Row) : Row :=
  {| player_name := player_name r;
     competition_name := competition_name r;
     season_name := season_name r;
     team_name := team_name r;
     game_date := game_date r;
     nationality := nationality r;
     player_position := player_position r;
     shirt_number := replace_cell (shirt_number r);
     minutes_played := replace_cell (minutes_played r);
     goals := replace_cell (goals r);
     assists := replace_cell (assists r);
     yellow_cards := replace_cell (yellow_cards r);
     red_cards := replace_cell (red_cards r);
     number_of_seasons := replace_cell (number_of_seasons r) |}.

Definition replace_sentinel (df : DataFrame) : DataFrame := map replace_row df.

(** ** Season names *)

Definition is_digit (c : ascii) : bool :=
  ((48 <=? N_of_ascii c) && (N_of_ascii c <=? 57))%N.

Definition digit_value (c : ascii) : Z := Z.of_N (N_of_ascii c) - 48.

Fixpoint parse_digits (acc : Z) (s : string) : option Z :=
  match s with
  | EmptyString => Some acc
  | String c s' =>
      if is_digit c then parse_digits (10 * acc + digit_value c) s' else None
  end.

(** [int(s)] on the strings the season columns hold: a non-empty run of
    ASCII digits is its number.  Every other string is reported as
    [ValueError]; Python also reads a sign, surrounding blanks and
    underscores between digits, which no season name of the table has. *)
Definition int_of_str (s : string) : result Z :=
  match s with
  | EmptyString => Raise ValueError
  | _ => match parse_digits 0 s with
         | Some n => Ok n
         | None => Raise ValueError
         end
  end.

(** [season_name.str[:4].astype(int)] for one cell. *)
Definition season_start (s : string) : result Z :=
  int_of_str (substring 0 4 s).

(** [str(n)]. *)
Definition str_of_int (n : Z) : string := NilZero.string_of_int (Z.to_int n).

(** [season_start.astype(str) + "/" + (season_start + 1).astype(str)]. *)
Definition season_label (y : Z) : string :=
  (str_of_int y ++ "/" ++ str_of_int (y + 1))%string.

(** ** Aggregation stage (the body of [create_streamlit_app] after the filters) *)

(** A displayed metric that is either a number or a text. *)
Inductive metric : Type :=
| Num (n : Z)
| Text (s : string).

Definition total_appearances (final_df : DataFrame) : Z :=
  Z.of_nat (List.length final_df).

Definition total_goals (final_df : DataFrame) : Z := sum_skipna (map goals final_df).
Definition total_assists (final_df : DataFrame) : Z := sum_skipna (map assists final_df).
Definition total_yellows (final_df : DataFrame) : Z := sum_skipna (map yellow_cards final_df).
Definition total_reds (final_df : DataFrame) : Z := sum_skipna (map red_cards final_df).
Definition total_minutes (final_df : DataFrame) : Z := sum_skipna (map minutes_played final_df).

(** [final_df["nationality"].mode().iat[0]]. *)
Definition nationality_stat (final_df : DataFrame) : result string :=
  iat0 (mode String.eqb String.leb (map nationality final_df)).

(** [final_df["number_of_seasons"].mode().iat[0]]. *)
Definition number_of_seasons_stat (final_df : DataFrame) : result Z :=
  iat0 (mode Z.eqb Z.leb (map number_of_seasons final_df)).

(** [final_df["player_position"] != "N/A"]: a NULL cell differs from "N/A". *)
Definition position_known (r : Row) : bool :=
  match player_position r with
  | Some p => negb (p =? "N/A")%string
  | None => true
  end.

Definition main_position (final_df : DataFrame) : string :=
  match mode String.eqb String.leb (map player_position (filter position_known final_df)) with
  | p :: _ => p
  | [] => "Unknown"
  end.

(** [final_df["shirt_number"].notna()]. *)
Definition shirt_known (r : Row) : bool :=
  match shirt_number r with
  | Some _ => true
  | None => false
  end.

Definition shirt_number_stat (final_df : DataFrame) : metric :=
  match mode Z.eqb Z.leb (map shirt_number (filter shirt_known final_df)) with
  | n :: _ => Num n
  | [] => Text "Unknown"
  end.

(** The sorted group keys of a [groupby]. *)
Definition groupby_keys (keys : list string) : list string :=
  sorted String.leb (unique String.eqb keys).

(** [min()] of a group of strings; a group is never empty. *)
Definition min_str (l : list string) : string :=
  match l with
  | [] => ""
  | s :: l' => min_of String.leb s l'
  end.

(** [final_df.groupby("team_name")["season_name"].min().reset_index()]. *)
Definition first_season (final_df : DataFrame) (team : string) : string :=
  min_str (map season_name (filter (fun r => (team_name r =? team)%string) final_df)).

Definition team_first_seasons (final_df : DataFrame) : list (string * string) :=
  map (fun t => (t, first_season final_df t)) (groupby_keys (map team_name final_df)).

(** The [season_start] column, then [sort_values("season_start")].  pandas
    does not fix the order of teams with equal start years; here they keep
    their order, as under a stable sort. *)
Definition team_order (final_df : DataFrame) : result (list (string * Z)) :=
  let? starts := rmap (fun ts => let? y := season_start (snd ts) in Ok (fst ts, y))
                      (team_first_seasons final_df) in
  Ok (sorted (fun a b => snd a <=? snd b) starts).

Definition teams (final_df : DataFrame) : result string :=
  let? order := team_order final_df in
  Ok (String.concat " – " (map fst order)).

(** One row of the season table handed to the chart. *)
Record SeasonStat : Type := mkSeasonStat {
  Season      : string;
  Appearances : Z;
  Goals       : Z
}.

Definition in_season (s : string) (r : Row) : bool := (season_name r =? s)%string.

(** [groupby("season_name").agg(Appearances=("player_name","count"),
    Goals=("goals","sum")).reset_index().sort_values("season_name")].  The
    player name is never NULL, so its count is the size of the group. *)
Definition grouped_seasons (final_df : DataFrame) : list (string * (Z * Z)) :=
  sorted (fun a b => String.leb (fst a) (fst b))
    (map (fun s => let g := filter (in_season s) final_df in
                   (s, (Z.of_nat (List.length g), sum_skipna (map goals g))))
         (groupby_keys (map season_name final_df))).

(** [range(lo, hi + 1)]. *)
Definition range_incl (lo hi : Z) : list Z :=
  map (fun i => lo + Z.of_nat i) (seq 0 (Z.to_nat (hi + 1 - lo))).

(** [all_seasons.merge(season_stats, on="season_start", how="left")]: the
    rows of the left table in order, each with every match of the right
    table, or with NULLs when there is none. *)
Definition merge_left (years : list Z) (right : list (Z * (Z * Z)))
  : list (Z * option (Z * Z)) :=
  flat_map (fun y =>
              match filter (fun row => fst row =? y) right with
              | [] => [(y, None)]
              | ms => map (fun row => (y, Some (snd row))) ms
              end) years.

(** [Season] label, [fillna(0).astype(int)] and the three kept columns. *)
Definition finish_row (row : Z * option (Z * Z)) : SeasonStat :=
  {| Season := season_label (fst row);
     Appearances := match snd row with Some ag => fst ag | None => 0 end;
     Goals := match snd row with Some ag => snd ag | None => 0 end |}.

Definition season_stats (final_df : DataFrame) : result (list SeasonStat) :=
  let? starts := rmap (fun g => let? y := season_start (fst g) in Ok (y, snd g))
                      (grouped_seasons final_df) in
  match map fst starts with
  | [] => Raise TypeError  (* [range(nan, nan + 1)] *)
  | y :: ys =>
      let lo := fold_left Z.min ys y in
      let hi := fold_left Z.max ys y in
      Ok (map finish_row (merge_left (range_incl lo hi) starts))
  end.

(** Everything the presentation stage receives. *)
Record Summary : Type := mkSummary {
  s_number_of_seasons : Z;
  s_appearances       : Z;
  s_goals             : Z;
  s_assists           : Z;
  s_nationality       : string;
  s_position          : string;
  s_shirt_number      : metric;
  s_yellows           : Z;
  s_reds              : Z;
  s_minutes           : Z;
  s_teams             : string;
  s_season_stats      : list SeasonStat
}.

(** Lines 265-360, in the order the statements run. *)
Definition aggregate (filtered : DataFrame) : result Summary :=
  let final_df := replace_sentinel filtered in
  let? nat := nationality_stat final_df in
  let? nos := number_of_seasons_stat final_df in
  let? tms := teams final_df in
  let? tbl := season_stats final_df in
  Ok {| s_number_of_seasons := nos;
        s_appearances := total_appearances final_df;
        s_goals := total_goals final_df;
        s_assists := total_assists final_df;
        s_nationality := nat;
        s_position := main_position final_df;
        s_shirt_number := shirt_number_stat final_df;
        s_yellows := total_yellows final_df;
        s_reds := total_reds final_df;
        s_minutes := total_minutes final_df;
        s_teams := tms;
        s_season_stats := tbl |}.

(** A row with only the columns a scenario fixes; the others are NULL. *)
Definition appearance (team season : string) (g : option Z) : Row :=
  mkRow "John Doe" "Champions League" season team None (Some "England")
        (Some "FW") (Some 9) None g None None None (Some 3).

Definition scenario_rows : DataFrame :=
  [appearance "A" "2015/2016" (Some 2); appearance "A" "2017/2018" (Some (-1))].

(** ** Query layer

    The database is the appearance table.  A world holds the table, the
    clock, the statements sent to the server so far and the store behind
    [@st.cache_data(ttl=600)].  The clock stands still during a run and
    moves between runs ([advance]). *)

Inductive query : Type :=
| SelectLatestGameDate
| SelectCompetitions
| SelectMaxSeasons (comps : list string)
| SelectPlayers (minimum_seasons : Z) (comps : list string)
| SelectPlayerData (minimum_seasons : Z) (player : string) (comps : list string).

Inductive event : Type :=
| Connect                (* [connect_to_sql_alchemy_server()] *)
| ReadSql (q : query).   (* [pd.read_sql(query, sql_engine, params=...)] *)

(** What [load_number_of_seasons] returns: the empty list or an integer. *)
Inductive seasons_result : Type :=
| EmptyList
| MaxSeasons (n : Z).

(** A cached call: the function and its arguments. *)
Inductive call : Type :=
| CallLatestGameDate
| CallCompetitions
| CallNumberOfSeasons (comps : list string)
| CallPlayers (minimum_seasons : Z) (comps : list string)
| CallPlayerData (minimum_seasons : Z) (player : option string) (comps : list string).

(** A cached return value. *)
Inductive value : Type :=
| VDate (d : option Z)
| VNames (l : list string)
| VSeasons (r : seasons_result)
| VFrame (df : DataFrame).

Record World : Type := mkWorld {
  table  : DataFrame;
  now    : Z;
  issued : list event;
  store  : list (call * (value * Z))
}.

Definition M (A : Type) : Type := World -> result A * World.

Definition ret {A} (a : A) : M A := fun w => (Ok a, w).

Definition raise {A} (e : exn) : M A := fun w => (Raise e, w).

Definition bind {A B} (m : M A) (k : A -> M B) : M B :=
  fun w => match m w with
           | (Ok a, w') => k a w'
           | (Raise e, w') => (Raise e, w')
           end.

Notation "x <- m ;; k" := (bind m (fun x => k))
  (at level 61, m at next level, right associativity).

Definition emit (e : event) : M unit :=
  fun w => (Ok tt, mkWorld (table w) (now w) (issued w ++ [e]) (store w)).

(** Reading the four secrets and creating the engine.  The model follows
    the runs in which the connection and the driver work; a failure there is
    caught nowhere in the source, ends the request with its exception and is
    outside the model. *)
Definition connect_to_sql_alchemy_server : M unit := emit Connect.

(** Membership in the [IN (?, ..., ?)] list; strings are compared exactly. *)
Definition isin (s : string) (l : list string) : bool := existsb (String.eqb s) l.

(** [number_of_seasons >= ?]: false on NULL. *)
Definition at_least (c : option Z) (n : Z) : bool :=
  match c with
  | Some v => n <=? v
  | None => false
  end.

(** SQL [MAX]: NULLs are skipped, NULL when nothing is left. *)
Definition sql_max (col : list (option Z)) : option Z :=
  match dropna col with
  | [] => None
  | v :: vs => Some (fold_left Z.max vs v)
  end.

Definition select_latest_game_date (t : DataFrame) : option Z :=
  sql_max (map game_date t).

Definition select_competitions (t : DataFrame) : list string :=
  unique String.eqb (map competition_name t).

Definition select_max_seasons (comps : list string) (t : DataFrame) : option Z :=
  sql_max (map number_of_seasons
             (filter (fun r => isin (competition_name r) comps) t)).

Definition select_players (minimum_seasons : Z) (comps : list string)
    (t : DataFrame) : list string :=
  unique String.eqb
    (map player_name
       (filter (fun r => at_least (number_of_seasons r) minimum_seasons
                         && isin (competition_name r) comps) t)).

Definition select_player_data (minimum_seasons : Z) (player : string)
    (comps : list string) (t : DataFrame) : DataFrame :=
  filter (fun r => at_least (number_of_seasons r) minimum_seasons
                   && (player_name r =? player)%string
                   && isin (competition_name r) comps) t.

(** [pd.read_sql]: the statement reaches the server and is answered from the
    table (a driver failure is outside the model, see above). *)
Definition read_sql {A} (q : query) (answer : DataFrame -> A) : M A :=
  fun w => (Ok (answer (table w)),
            mkWorld (table w) (now w) (issued w ++ [ReadSql q]) (store w)).

(** *** The cache decorator *)

Definition ttl : Z := 600.

Definition list_eqb (l1 l2 : list string) : bool :=
  if list_eq_dec string_dec l1 l2 then true else false.

Definition player_eqb (p1 p2 : option string) : bool :=
  match p1, p2 with
  | Some a, Some b => (a =? b)%string
  | None, None => true
  | _, _ => false
  end.

Definition call_eqb (c1 c2 : call) : bool :=
  match c1, c2 with
  | CallLatestGameDate, CallLatestGameDate => true
  | CallCompetitions, CallCompetitions => true
  | CallNumberOfSeasons a, CallNumberOfSeasons b => list_eqb a b
  | CallPlayers m a, CallPlayers n b => (m =? n) && list_eqb a b
  | CallPlayerData m p a, CallPlayerData n q b =>
      (m =? n) && player_eqb p q && list_eqb a b
  | _, _ => false
  end.

(** The stored value of a call, while it is younger than [ttl]. *)
Definition lookup (c : call) (w : World) : option value :=
  match find (fun e => call_eqb c (fst e) && (now w <? snd (snd e) + ttl)) (store w) with
  | Some e => Some (fst (snd e))
  | None => None
  end.

Definition remember (c : call) (v : value) (w : World) : World :=
  mkWorld (table w) (now w) (issued w) ((c, (v, now w)) :: store w).

(** [@st.cache_data(ttl=600)]: a stored value is returned without running
    the body; otherwise the body runs and its return value is stored.  A
    raised exception stores nothing. *)
Definition cache_data {A} (c : call) (enc : A -> value) (dec : value -> option A)
    (body : M A) : M A :=
  fun w =>
    match match lookup c w with Some v => dec v | None => None end with
    | Some a => (Ok a, w)
    | None =>
        match body w with
        | (Ok a, w') => (Ok a, remember c (enc a) w')
        | (Raise e, w') => (Raise e, w')
        end
    end.

Definition dec_date (v : value) := match v with VDate d => Some d | _ => None end.
Definition dec_names (v : value) := match v with VNames l => Some l | _ => None end.
Definition dec_seasons (v : value) := match v with VSeasons r => Some r | _ => None end.
Definition dec_frame (v : value) := match v with VFrame df => Some df | _ => None end.

(** *** The five cached loaders *)

Definition load_latest_game_date : M (option Z) :=
  cache_data CallLatestGameDate VDate dec_date
    (_ <- connect_to_sql_alchemy_server ;;
     read_sql SelectLatestGameDate select_latest_game_date).

Definition load_competitions : M (list string) :=
  cache_data CallCompetitions VNames dec_names
    (_ <- connect_to_sql_alchemy_server ;;
     read_sql SelectCompetitions select_competitions).

(** [int(df.iloc[0]["max_seasons"])]. *)
Definition int_of_cell (c : option Z) : result Z :=
  match c with
  | Some n => Ok n
  | None => Raise TypeError
  end.

Definition load_number_of_seasons (selected_comps : list string) : M seasons_result :=
  cache_data (CallNumberOfSeasons selected_comps) VSeasons dec_seasons
    (match selected_comps with
     | [] => ret EmptyList
     | _ =>
         _ <- connect_to_sql_alchemy_server ;;
         cell <- read_sql (SelectMaxSeasons selected_comps)
                          (select_max_seasons selected_comps) ;;
         match int_of_cell cell with
         | Ok n => ret (MaxSeasons n)
         | Raise e => raise e
         end
     end).

Definition load_players (minimum_seasons : Z) (selected_comps : list string)
  : M (list string) :=
  cache_data (CallPlayers minimum_seasons selected_comps) VNames dec_names
    (match selected_comps with
     | [] => ret []
     | _ =>
         _ <- connect_to_sql_alchemy_server ;;
         names <- read_sql (SelectPlayers minimum_seasons selected_comps)
                           (select_players minimum_seasons selected_comps) ;;
         ret (sorted String.leb names)
     end).

(** Python's truth value of the [player] argument. *)
Definition truthy (player : option string) : option string :=
  match player with
  | Some "" => None
  | p => p
  end.

Definition load_player_data (minimum_seasons : Z) (player : option string)
    (selected_comps : list string) : M DataFrame :=
  cache_data (CallPlayerData minimum_seasons player selected_comps) VFrame dec_frame
    (match truthy player, selected_comps with
     | None, _ => ret []
     | _, [] => ret []
     | Some p, _ =>
         _ <- connect_to_sql_alchemy_server ;;
         read_sql (SelectPlayerData minimum_seasons p selected_comps)
                  (select_player_data minimum_seasons p selected_comps)
     end).

(** ** The page: filters, then aggregation *)

(** What the widgets hand back in one run; the widgets themselves belong to
    the UI framework and their return values are inputs here. *)
Record Selection : Type := mkSelection {
  competitions    : list string;
  minimum_seasons : Z;
  player          : option string;
  seasons         : list string
}.

Inductive Outcome : Type :=
| NoCompetition          (* "Please select at least one competition." *)
| NoPlayer               (* "Please select a player." *)
| NoData                 (* "No data available for this player ..." *)
| Rendered (s : Summary).

Definition lift {A} (r : result A) : M A := fun w => (r, w).

(** [player_df[player_df["season_name"].isin(seasons)]] when seasons are chosen. *)
Definition season_filter (seasons : list string) (player_df : DataFrame) : DataFrame :=
  match seasons with
  | [] => player_df
  | _ => filter (fun r => isin (season_name r) seasons) player_df
  end.

Definition create_streamlit_app (sel : Selection) : M Outcome :=
  latest <- load_latest_game_date ;;
  match latest with
  | None => raise AttributeError   (* [.strftime] on a missing date *)
  | Some _ =>
      _ <- load_competitions ;;
      match competitions sel with
      | [] => ret NoCompetition
      | _ =>
          _ <- load_number_of_seasons (competitions sel) ;;
          _ <- load_players (minimum_seasons sel) (competitions sel) ;;
          match truthy (player sel) with
          | None => ret NoPlayer
          | Some _ =>
              player_df <- load_player_data (minimum_seasons sel) (player sel)
                                            (competitions sel) ;;
              match player_df with
              | [] => ret NoData
              | _ =>
                  s <- lift (aggregate (season_filter (seasons sel) player_df)) ;;
                  ret (Rendered s)
              end
          end
      end
  end.

(** Time passing between two runs. *)
Definition advance (dt : Z) (w : World) : World :=
  mkWorld (table w) (now w + dt) (issued w) (store w).

Definition fresh (t : DataFrame) : World := mkWorld t 0 [] [].

(** ** Vocabulary of the properties

    Definitions the statements below are phrased in: raw columns without
    their sentinel cells, start years of season names, what each cached call
    returns on a table, and the invariant of the cache store. *)

(** The cells of a raw column that carry a value: neither NULL nor -1. *)
Definition live (col : list (option Z)) : list Z :=
  filter (fun v => negb (v =? -1)) (dropna col).

(** The known positions of the raw rows: not NULL and not "N/A". *)
Definition known_positions (filtered : DataFrame) : list string :=
  filter (fun p => negb (p =? "N/A")%string) (dropna (map player_position filtered)).

(** A row with one cell overwritten. *)
Definition with_goals (g : option Z) (r : Row) : Row :=
  mkRow (player_name r) (competition_name r) (season_name r) (team_name r)
        (game_date r) (nationality r) (player_position r) (shirt_number r)
        (minutes_played r) g (assists r) (yellow_cards r) (red_cards r)
        (number_of_seasons r).

Definition with_shirt_number (n : option Z) (r : Row) : Row :=
  mkRow (player_name r) (competition_name r) (season_name r) (team_name r)
        (game_date r) (nationality r) (player_position r) n
        (minutes_played r) (goals r) (assists r) (yellow_cards r) (red_cards r)
        (number_of_seasons r).

(** What a call returns on a table when its body runs. *)
Definition number_of_seasons_on (comps : list string) (t : DataFrame)
  : result seasons_result :=
  match comps with
  | [] => Ok EmptyList
  | _ => let? n := int_of_cell (select_max_seasons comps t) in Ok (MaxSeasons n)
  end.

Definition players_on (minimum_seasons : Z) (comps : list string) (t : DataFrame)
  : list string :=
  match comps with
  | [] => []
  | _ => sorted String.leb (select_players minimum_seasons comps t)
  end.

Definition player_data_on (minimum_seasons : Z) (player : option string)
    (comps : list string) (t : DataFrame) : DataFrame :=
  match truthy player, comps with
  | None, _ => []
  | _, [] => []
  | Some p, _ => select_player_data minimum_seasons p comps t
  end.

Definition answer_of (c : call) (t : DataFrame) : result value :=
  match c with
  | CallLatestGameDate => Ok (VDate (select_latest_game_date t))
  | CallCompetitions => Ok (VNames (select_competitions t))
  | CallNumberOfSeasons comps =>
      let? r := number_of_seasons_on comps t in Ok (VSeasons r)
  | CallPlayers m comps => Ok (VNames (players_on m comps t))
  | CallPlayerData m p comps => Ok (VFrame (player_data_on m p comps t))
  end.

(** Every stored value is what its call returns on the table: the store was
    filled from this database state. *)
Definition coherent (w : World) : Prop :=
  forall c v stored, In (c, (v, stored)) (store w) -> answer_of c (table w) = Ok v.

(** What a run shows, as a function of the selection and the table. *)
Definition page (sel : Selection) (t : DataFrame) : result Outcome :=
  match select_latest_game_date t with
  | None => Raise AttributeError
  | Some _ =>
      match competitions sel with
      | [] => Ok NoCompetition
      | _ =>
          let? _ := number_of_seasons_on (competitions sel) t in
          match truthy (player sel) with
          | None => Ok NoPlayer
          | Some _ =>
              match player_data_on (minimum_seasons sel) (player sel)
                                   (competitions sel) t with
              | [] => Ok NoData
              | player_df =>
                  let? s := aggregate (season_filter (seasons sel) player_df) in
                  Ok (Rendered s)
              end
          end
      end
  end.

Definition scenario_selection : Selection :=
  mkSelection ["Champions League"] 3 (Some "John Doe") [].

Definition scenario_table : DataFrame :=
  [mkRow "John Doe" "Champions League" "2015/2016" "A" (Some 16700) (Some "England")
         (Some "FW") (Some 9) (Some 90) (Some 2) (Some (-1)) (Some 0) (Some 0) (Some 3);
   mkRow "John Doe" "Champions League" "2017/2018" "A" (Some 17500) (Some "England")
         (Some "FW") (Some 9) (Some 75) (Some (-1)) (Some 1) (Some 1) (Some 0) (Some 3);
   mkRow "Jane Roe" "Europa League" "2017/2018" "B" (Some 17501) (Some "Wales")
         (Some "N/A") (Some (-1)) (Some 90) (Some 0) (Some 0) (Some 0) (Some 0) (Some 1)].

(** The name starts with four digits, as in "2015/2016". *)
Definition four_digits (s : string) : bool :=
  match s with
  | String a (String b (String c (String d _))) =>
      is_digit a && is_digit b && is_digit c && is_digit d
  | _ => false
  end.

(** The start year of a season name that has one. *)
Definition start_year (s : string) : Z :=
  match season_start s with
  | Ok y => y
  | Raise _ => 0
  end.

(** The start year of the earliest season in which the team appears. *)
Definition first_year (final_df : DataFrame) (team : string) : Z :=
  match map (fun r => start_year (season_name r))
            (filter (fun r => (team_name r =? team)%string) final_df) with
  | [] => 0
  | y :: ys => fold_left Z.min ys y
  end.

(** The name is the label of its own start year: "Y/(Y+1)". *)
Definition season_well_formed (s : string) : bool :=
  match season_start s with
  | Ok y => (s =? season_label y)%string
  | Raise _ => false
  end.

Definition starts_in (y : Z) (r : Row) : bool := start_year (season_name r) =? y.

(** The row of the season table for start year [y]: its label, the number
    of rows of that season and the sum of their goals. *)
Definition season_row (final_df : DataFrame) (y : Z) : SeasonStat :=
  let g := filter (starts_in y) final_df in
  mkSeasonStat (season_label y) (Z.of_nat (List.length g)) (sum_skipna (map goals g)).

Definition densification_rows : DataFrame :=
  [appearance "A" "2018/2019" (Some 1); appearance "A" "2015/2016" (Some 2);
   appearance "A" "2015/2016" (Some (-1))].

(** ** Statements and their parameters

    The text each loader hands to [pd.read_sql] and the tuple it passes as
    [params]. *)

Definition nl : string := String (ascii_of_nat 10) EmptyString.

(** [",".join(["?"] * len(selected_comps))]. *)
Definition placeholders (selected_comps : list string) : string :=
  String.concat "," (repeat "?" (List.length selected_comps)).

Inductive param : Type :=
| PInt (n : Z)
| PStr (s : string).

Definition latest_game_date_text : string :=
  String.concat nl
    [""; "                SELECT";
     "                    MAX(game_date) AS latest_game_date";
     "                FROM streamlit.Fbref_Appearances"; "    "].

Definition competitions_text : string :=
  String.concat nl
    [""; "                SELECT DISTINCT";
     "                    competition_name";
     "                FROM streamlit.Fbref_Appearances"; "    "].

Definition max_seasons_text (selected_comps : list string) : string :=
  String.concat nl
    [""; "        SELECT";
     "            MAX(number_of_seasons) AS max_seasons";
     "        FROM streamlit.Fbref_Appearances";
     ("        WHERE competition_name IN (" ++ placeholders selected_comps ++ ")")%string;
     "    "].

Definition players_text (selected_comps : list string) : string :=
  String.concat nl
    [""; "        SELECT DISTINCT";
     "            player_name";
     "        FROM streamlit.Fbref_Appearances";
     "        WHERE number_of_seasons >= ?";
     ("           AND competition_name IN (" ++ placeholders selected_comps ++ ")")%string;
     "    "].

Definition player_data_text (selected_comps : list string) : string :=
  String.concat nl
    [""; "        SELECT *";
     "        FROM streamlit.Fbref_Appearances";
     "        WHERE number_of_seasons >= ?";
     "          AND player_name = ?";
     ("          AND competition_name IN (" ++ placeholders selected_comps ++ ")")%string;
     "    "].

(** The text and the [params] of a statement. *)
Definition statement_of (q : query) : string * list param :=
  match q with
  | SelectLatestGameDate => (latest_game_date_text, [])
  | SelectCompetitions => (competitions_text, [])
  | SelectMaxSeasons comps => (max_seasons_text comps, map PStr comps)
  | SelectPlayers m comps => (players_text comps, PInt m :: map PStr comps)
  | SelectPlayerData m p comps =>
      (player_data_text comps, PInt m :: PStr p :: map PStr comps)
  end.

(** Occurrences of a character in a text. *)
Fixpoint count_char (c : ascii) (s : string) : nat :=
  match s with
  | EmptyString => 0%nat
  | String d s' => ((if Ascii.eqb c d then 1 else 0) + count_char c s')%nat
  end.

(** A statement with a competition list names at least one competition. *)
Definition in_list_filled (e : event) : bool :=
  match e with
  | Connect => true
  | ReadSql SelectLatestGameDate => true
  | ReadSql SelectCompetitions => true
  | ReadSql (SelectMaxSeasons comps) => negb (Nat.eqb (List.length comps) 0)
  | ReadSql (SelectPlayers _ comps) => negb (Nat.eqb (List.length comps) 0)
  | ReadSql (SelectPlayerData _ p comps) =>
      negb (Nat.eqb (List.length comps) 0) && negb (p =? "")%string
  end.

(** ** Widget options and headings *)

(** [sorted(load_competitions())]. *)
Definition competition_options (loaded : list string) : list string :=
  sorted String.leb loaded.

(** [sorted(player_df["season_name"].unique(), reverse=True)]. *)
Definition season_options (player_df : DataFrame) : list string :=
  sorted (fun a b => String.leb b a) (unique String.eqb (map season_name player_df)).

(** [s.split(sep)[0]]: the text before the first [sep], all of [s] when
    [sep] does not occur. *)
Fixpoint before_sep (sep s : string) : string :=
  match s with
  | EmptyString => EmptyString
  | String c s' => if prefix sep s then EmptyString else String c (before_sep sep s')
  end.

(** [player.split(' (')[0]], the name shown in the two headings. *)
Definition display_name (player : string) : string := before_sep " (" player.

(** ** More vocabulary *)

(** The goals a row adds to a sum that skips NULL. *)
Definition goal_value (r : Row) : Z :=
  match goals r with
  | Some g => g
  | None => 0
  end.

(** Sum of a column of integers. *)
Definition sum_Z (l : list Z) : Z := fold_right Z.add 0 l.

(** The store holds nothing for the call. *)
Definition cold (c : call) (w : World) : Prop :=
  forall e, In e (store w) -> call_eqb c (fst e) = false.


(** Every statement of the log follows the opening of a connection. *)
Fixpoint paired (evs : list event) : bool :=
  match evs with
  | [] => true
  | Connect :: ReadSql _ :: rest => paired rest
  | _ => false
  end.

(** The year reads back from its label, and the label starts with four digits. *)
Definition label_round_trip (y : Z) : bool :=
  match season_start (season_label y) with
  | Ok y' => (y' =? y) && four_digits (season_label y)
  | Raise _ => false
  end.

(** Nothing, or one statement on a connection of its own. *)
Definition one_statement (evs : list event) : Prop :=
  evs = [] \/ exists q, evs = [Connect; ReadSql q] /\ in_list_filled (ReadSql q) = true.

(** The store holds a value for the call. *)
Definition has_entry (c : call) (w : World) : Prop :=
  exists v stored, In (c, (v, stored)) (store w).

(** Every stored value is still usable at time [horizon]. *)
Definition lasting (horizon : Z) (w : World) : Prop :=
  forall e, In e (store w) -> horizon < snd (snd e) + ttl.

(** The cached calls a run makes on a table, in their order. *)
Definition calls_of (sel : Selection) (t : DataFrame) : list call :=
  CallLatestGameDate ::
  match select_latest_game_date t with
  | None => []
  | Some _ =>
      CallCompetitions ::
      match competitions sel with
      | [] => []
      | _ =>
          CallNumberOfSeasons (competitions sel) ::
          match number_of_seasons_on (competitions sel) t with
          | Raise _ => []
          | Ok _ =>
              CallPlayers (minimum_seasons sel) (competitions sel) ::
              match truthy (player sel) with
              | None => []
              | Some _ =>
                  [CallPlayerData (minimum_seasons sel) (player sel) (competitions sel)]
              end
          end
      end
  end.

(** From [w] to [w']: same clock and table, a coherent store that kept
    every value and is usable at time [horizon]. *)
Definition step (horizon : Z) (w w' : World) : Prop :=
  now w' = now w /\ table w' = table w /\ coherent w' /\ lasting horizon w' /\
  (forall e, In e (store w) -> In e (store w')).

(** What the body of a cached call sends to the server. *)
Definition sent_by (c : call) : list event :=
  match c with
  | CallLatestGameDate => [Connect; ReadSql SelectLatestGameDate]
  | CallCompetitions => [Connect; ReadSql SelectCompetitions]
  | CallNumberOfSeasons comps =>
      match comps with
      | [] => []
      | _ => [Connect; ReadSql (SelectMaxSeasons comps)]
      end
  | CallPlayers m comps =>
      match comps with
      | [] => []
      | _ => [Connect; ReadSql (SelectPlayers m comps)]
      end
  | CallPlayerData m p comps =>
      match truthy p, comps with
      | None, _ => []
      | _, [] => []
      | Some q, _ => [Connect; ReadSql (SelectPlayerData m q comps)]
      end
  end.

(** A text of exactly four digits. *)
Definition four_digit_text (s : string) : bool :=
  match s with
  | String a (String b (String c (String d EmptyString))) =>
      is_digit a && is_digit b && is_digit c && is_digit d
  | _ => false
  end.

(** [str(y)] is a text of four digits that [int] reads back as [y]. *)
Definition year_text_round_trip (y : Z) : bool :=
  four_digit_text (str_of_int y) &&
  match int_of_str (str_of_int y) with
  | Ok y' => y' =? y
  | Raise _ => false
  end.

(** Two rows whose order by start year is the reverse of their order by
    team name. *)
Definition year_before_name_rows : DataFrame :=
  [appearance "A" "2010/2011" None; appearance "B" "2009/2010" None].

(** * Properties *)

(** ** The model on concrete rows *)

Example season_start_2015 : season_start "2015/2016" = Ok 2015.
Proof. reflexivity. Qed.

Example season_label_2015 : season_label 2015 = "2015/2016".
Proof. reflexivity. Qed.

Example scenario_aggregate :
  aggregate scenario_rows =
  Ok (mkSummary 3 2 2 0 "England" "FW" (Num 9) 0 0 0 "A"
        [mkSeasonStat "2015/2016" 1 2; mkSeasonStat "2016/2017" 0 0;
         mkSeasonStat "2017/2018" 1 0]).
Proof. vm_compute. reflexivity. Qed.

Example teams_example :
  teams [appearance "B" "2011/2012" None; appearance "A" "2012/2013" None;
         appearance "A" "2010/2011" None] = Ok "A – B".
Proof. vm_compute. reflexivity. Qed.

(** ** Sorting, distinct values and modes *)

Section SortFacts.
Variable A : Type.
Variable leb : A -> A -> bool.
Hypothesis leb_total : forall x y, leb x y = true \/ leb y x = true.
Hypothesis leb_trans : forall x y z, leb x y = true -> leb y z = true -> leb x z = true.

Let le (x y : A) : Prop := leb x y = true.

Lemma insert_sorted_perm (x : A) (l : list A) :
  Permutation (insert_sorted leb x l) (x :: l).
Proof.
  induction l as [|y l IH]; simpl.
  - apply Permutation_refl.
  - destruct (leb x y).
    + apply Permutation_refl.
    + eapply perm_trans; [apply perm_skip, IH | apply perm_swap].
Qed.

Lemma sorted_perm (l : list A) : Permutation (sorted leb l) l.
Proof.
  induction l as [|x l IH]; simpl.
  - constructor.
  - eapply perm_trans; [apply insert_sorted_perm | apply perm_skip, IH].
Qed.

Lemma sorted_In (x : A) (l : list A) : In x (sorted leb l) <-> In x l.
Proof.
  split; apply Permutation_in;
    [apply sorted_perm | apply Permutation_sym, sorted_perm].
Qed.

Lemma insert_sorted_strongly (x : A) (l : list A) :
  StronglySorted le l -> StronglySorted le (insert_sorted leb x l).
Proof.
  induction 1 as [|y l Hs IH Hy]; simpl.
  - repeat constructor.
  - destruct (leb x y) eqn:E.
    + constructor; [constructor; assumption|].
      constructor; [exact E|].
      rewrite Forall_forall in *. intros z Hz. eapply leb_trans; [exact E|].
      apply Hy, Hz.
    + constructor; [exact IH|].
      rewrite Forall_forall in *. intros z Hz.
      apply (Permutation_in _ (insert_sorted_perm x l)) in Hz.
      destruct Hz as [<-|Hz]; [|apply Hy, Hz].
      destruct (leb_total x y) as [H|H]; [congruence | exact H].
Qed.

Lemma sorted_strongly (l : list A) : StronglySorted le (sorted leb l).
Proof.
  induction l as [|x l IH]; simpl.
  - constructor.
  - apply insert_sorted_strongly, IH.
Qed.

(** A sorted list is left as it is. *)
Lemma sorted_id (l : list A) : StronglySorted le l -> sorted leb l = l.
Proof.
  induction 1 as [|x l Hs IH Hx]; simpl; [reflexivity|].
  rewrite IH. destruct l as [|y l]; simpl; [reflexivity|].
  inversion Hx as [|? ? Hxy _]; subst. unfold le in Hxy. now rewrite Hxy.
Qed.

Hypothesis leb_antisym : forall x y, leb x y = true -> leb y x = true -> x = y.

Lemma strongly_sorted_unique (l1 l2 : list A) :
  StronglySorted le l1 -> StronglySorted le l2 -> Permutation l1 l2 -> l1 = l2.
Proof.
  intros H1; revert l2.
  induction H1 as [|x l1 Hs1 IH Hx]; intros l2 H2 HP.
  - apply Permutation_nil in HP. now subst.
  - destruct H2 as [|y l2 Hs2 Hy].
    + apply Permutation_sym, Permutation_nil in HP. discriminate.
    + assert (x = y) as ->.
      { rewrite Forall_forall in Hx, Hy.
        assert (Hin1 : In x (y :: l2)) by (eapply Permutation_in; [exact HP | now left]).
        assert (Hin2 : In y (x :: l1))
          by (eapply Permutation_in; [apply Permutation_sym, HP | now left]).
        destruct Hin1 as [->|Hin1]; [reflexivity|].
        destruct Hin2 as [->|Hin2]; [reflexivity|].
        apply leb_antisym; [apply Hx, Hin2 | apply Hy, Hin1]. }
      f_equal. apply IH; [exact Hs2|]. eapply Permutation_cons_inv, HP.
Qed.

(** The sorted list depends on the elements only, not on their order. *)
Lemma sorted_of_perm (l1 l2 : list A) :
  Permutation l1 l2 -> sorted leb l1 = sorted leb l2.
Proof.
  intros HP. apply strongly_sorted_unique; try apply sorted_strongly.
  eapply perm_trans; [apply sorted_perm|].
  eapply perm_trans; [exact HP | apply Permutation_sym, sorted_perm].
Qed.
End SortFacts.

Section UniqueFacts.
Variable A : Type.
Variable eqb : A -> A -> bool.
Hypothesis eqb_eq : forall x y, eqb x y = true <-> x = y.

Lemma unique_In (x : A) (l : list A) : In x (unique eqb l) <-> In x l.
Proof.
  induction l as [|y l IH]; simpl; [tauto|].
  rewrite filter_In, IH. split.
  - intros [H|[H _]]; auto.
  - intros [H|H]; auto.
    destruct (eqb y x) eqn:E; [left; now apply eqb_eq | right; split; [exact H | reflexivity]].
Qed.

Lemma unique_NoDup (l : list A) : NoDup (unique eqb l).
Proof.
  induction l as [|y l IH]; simpl; constructor.
  - rewrite filter_In. intros [_ H].
    assert (eqb y y = true) as E by now apply eqb_eq.
    now rewrite E in H.
  - now apply NoDup_filter.
Qed.

Lemma unique_perm (l1 l2 : list A) :
  Permutation l1 l2 -> Permutation (unique eqb l1) (unique eqb l2).
Proof.
  intros HP. apply NoDup_Permutation; try apply unique_NoDup.
  intros x. rewrite !unique_In. split; apply Permutation_in;
    [exact HP | apply Permutation_sym, HP].
Qed.

Lemma count_pos_In (x : A) (l : list A) : In x l <-> (0 < count eqb x l)%nat.
Proof.
  unfold count. induction l as [|y l IH]; simpl.
  - split; [tauto | lia].
  - destruct (eqb x y) eqn:E; simpl.
    + split; [lia | intros _; left; symmetry; now apply eqb_eq].
    + rewrite <- IH. split; [intros [H|H]; [|exact H] | tauto].
      subst. assert (eqb x x = true) by now apply eqb_eq. congruence.
Qed.

Lemma count_le_max (l l' : list A) (x : A) :
  In x l' -> (count eqb x l <= fold_right Nat.max 0 (map (fun y => count eqb y l) l'))%nat.
Proof.
  induction l' as [|y l' IH]; simpl; [tauto|].
  intros [->|H]; [lia|]. specialize (IH H). lia.
Qed.

Lemma max_attained (l l' : list A) :
  l' <> [] ->
  exists x, In x l' /\
    count eqb x l = fold_right Nat.max 0%nat (map (fun y => count eqb y l) l').
Proof.
  induction l' as [|y l' IH]; [congruence|]. intros _. simpl.
  destruct l' as [|z l'].
  - exists y. split; [now left | simpl; lia].
  - destruct IH as [x [Hin Hx]]; [discriminate|].
    destruct (Nat.max_spec (count eqb y l)
                (fold_right Nat.max 0%nat (map (fun y => count eqb y l) (z :: l'))))
      as [[_ E]|[_ E]].
    + exists x. split; [now right|]. rewrite E. exact Hx.
    + exists y. split; [now left|]. now rewrite E.
Qed.
End UniqueFacts.

Section ModeFacts.
Variable A : Type.
Variable eqb leb : A -> A -> bool.
Hypothesis eqb_eq : forall x y, eqb x y = true <-> x = y.
Hypothesis leb_total : forall x y, leb x y = true \/ leb y x = true.
Hypothesis leb_trans : forall x y z, leb x y = true -> leb y z = true -> leb x z = true.

Lemma mode_In (x : A) (col : list (option A)) :
  In x (mode eqb leb col) <->
  In x (dropna col) /\ count eqb x (dropna col) = max_count eqb (dropna col).
Proof.
  unfold mode. rewrite sorted_In, filter_In, unique_In by assumption.
  now rewrite Nat.eqb_eq.
Qed.

Lemma count_le_max_count (x : A) (l : list A) :
  (count eqb x l <= max_count eqb l)%nat.
Proof.
  destruct (count eqb x l) eqn:E; [lia|]. rewrite <- E.
  apply count_le_max. apply (count_pos_In eqb eqb_eq). lia.
Qed.

(** An empty mode means an empty column. *)
Lemma mode_nil (col : list (option A)) :
  mode eqb leb col = [] <-> dropna col = [].
Proof.
  split; intros H.
  - destruct (dropna col) as [|v vs] eqn:E; [reflexivity|].
    destruct (@max_attained A eqb (v :: vs) (v :: vs)) as [x [Hin Hx]]; [discriminate|].
    assert (Hm : In x (mode eqb leb col)).
    { apply mode_In. rewrite E. split; [exact Hin | exact Hx]. }
    rewrite H in Hm. destruct Hm.
  - unfold mode. now rewrite H.
Qed.

(** The first mode: a value of highest frequency, the least of them. *)
Lemma mode_head (x : A) (rest : list A) (col : list (option A)) :
  mode eqb leb col = x :: rest ->
  In x (dropna col) /\
  (forall y, (count eqb y (dropna col) <= count eqb x (dropna col))%nat) /\
  (forall y, count eqb y (dropna col) = count eqb x (dropna col) -> leb x y = true).
Proof.
  intros H.
  assert (Hx : In x (mode eqb leb col)) by (rewrite H; now left).
  apply mode_In in Hx. destruct Hx as [Hin Hc].
  split; [exact Hin|]. split.
  - intros y. rewrite Hc. apply count_le_max_count.
  - intros y Hy.
    assert (Hpos : In y (dropna col)).
    { apply (count_pos_In eqb eqb_eq). rewrite Hy. now apply (count_pos_In eqb eqb_eq). }
    assert (Hym : In y (mode eqb leb col)).
    { apply mode_In. split; [exact Hpos | congruence]. }
    pose proof (sorted_strongly leb leb_total leb_trans
      (filter (fun v => Nat.eqb (count eqb v (dropna col)) (max_count eqb (dropna col)))
              (unique eqb (dropna col)))) as Hs.
    fold (mode eqb leb col) in Hs. rewrite H in Hs, Hym.
    inversion Hs as [|? ? _ Hall]; subst. rewrite Forall_forall in Hall.
    destruct Hym as [<-|Hym]; [|apply Hall, Hym].
    destruct (leb_total x x); assumption.
Qed.
End ModeFacts.

(** ** The orders on strings and integers *)

Lemma string_leb_trans (x y z : string) :
  String.leb x y = true -> String.leb y z = true -> String.leb x z = true.
Proof.
  unfold String.leb. revert y z.
  induction x as [|a x IH]; intros [|b y] [|c z]; simpl; try easy.
  unfold Ascii.compare.
  destruct (N.compare_spec (N_of_ascii a) (N_of_ascii b)) as [E1|L1|G1];
    destruct (N.compare_spec (N_of_ascii b) (N_of_ascii c)) as [E2|L2|G2];
    destruct (N.compare_spec (N_of_ascii a) (N_of_ascii c)) as [E3|L3|G3];
    try lia; try easy.
  apply IH.
Qed.

Lemma Z_leb_total (x y : Z) : (x <=? y) = true \/ (y <=? x) = true.
Proof. rewrite !Z.leb_le. lia. Qed.

Lemma Z_leb_trans (x y z : Z) :
  (x <=? y) = true -> (y <=? z) = true -> (x <=? z) = true.
Proof. rewrite !Z.leb_le. lia. Qed.

(** ** Sentinel replacement on a column *)

Lemma dropna_replace (col : list (option Z)) :
  dropna (map replace_cell col) = live col.
Proof.
  unfold live. induction col as [|[v|] col IH]; simpl; [reflexivity| |exact IH].
  destruct (v =? -1); simpl; [exact IH | now rewrite IH].
Qed.

Lemma map_replace_sentinel (f : Row -> option Z) (df : DataFrame) :
  (forall r, f (replace_row r) = replace_cell (f r)) ->
  map f (replace_sentinel df) = map replace_cell (map f df).
Proof.
  intros H. unfold replace_sentinel. rewrite !map_map. apply map_ext, H.
Qed.

Lemma filter_replace_sentinel (p : Row -> bool) (df : DataFrame) :
  (forall r, p (replace_row r) = p r) ->
  filter p (replace_sentinel df) = replace_sentinel (filter p df).
Proof.
  intros H. unfold replace_sentinel. induction df as [|r df IH]; simpl; [reflexivity|].
  rewrite H. destruct (p r); simpl; now rewrite IH.
Qed.

Lemma dropna_map_Some (A : Type) (l : list A) : dropna (map Some l) = l.
Proof. induction l; simpl; congruence. Qed.

Lemma mode_dropna (A : Type) (eqb leb : A -> A -> bool) (c1 c2 : list (option A)) :
  dropna c1 = dropna c2 -> mode eqb leb c1 = mode eqb leb c2.
Proof. unfold mode. now intros ->. Qed.

Lemma dropna_notna (A : Type) (f : Row -> option A) (known : Row -> bool) (df : DataFrame) :
  (forall r, known r = match f r with Some _ => true | None => false end) ->
  dropna (map f (filter known df)) = dropna (map f df).
Proof.
  intros H. induction df as [|r df IH]; simpl; [reflexivity|].
  rewrite H. destruct (f r) eqn:E; simpl; rewrite ?E; now rewrite IH.
Qed.

Lemma shirt_column (filtered : DataFrame) :
  dropna (map shirt_number (filter shirt_known (replace_sentinel filtered)))
  = live (map shirt_number filtered).
Proof.
  rewrite (dropna_notna shirt_number shirt_known) by reflexivity.
  rewrite map_replace_sentinel by reflexivity. apply dropna_replace.
Qed.

Lemma seasons_column (filtered : DataFrame) :
  dropna (map number_of_seasons (replace_sentinel filtered))
  = live (map number_of_seasons filtered).
Proof. rewrite map_replace_sentinel by reflexivity. apply dropna_replace. Qed.

Lemma sum_column (f : Row -> option Z) (filtered : DataFrame) :
  (forall r, f (replace_row r) = replace_cell (f r)) ->
  sum_skipna (map f (replace_sentinel filtered)) = fold_right Z.add 0 (live (map f filtered)).
Proof.
  intros H. unfold sum_skipna. rewrite map_replace_sentinel by exact H.
  now rewrite dropna_replace.
Qed.

Lemma position_column (filtered : DataFrame) :
  dropna (map player_position (filter position_known (replace_sentinel filtered)))
  = known_positions filtered.
Proof.
  unfold known_positions.
  induction filtered as [|r df IH]; simpl; [reflexivity|].
  unfold position_known at 1. simpl.
  destruct (player_position r) as [p|] eqn:E; simpl.
  - destruct (p =? "N/A")%string; simpl; rewrite ?E; now rewrite IH.
  - rewrite E. exact IH.
Qed.

Lemma live_no_sentinel (col : list (option Z)) : ~ In (-1) (live col).
Proof. unfold live. rewrite filter_In. intros [_ H]. discriminate. Qed.

Lemma live_app (c1 c2 : list (option Z)) : live (c1 ++ c2) = live c1 ++ live c2.
Proof.
  unfold live. induction c1 as [|[v|] c1 IH]; simpl; [reflexivity| |exact IH].
  destruct (v =? -1); simpl; now rewrite IH.
Qed.

(** C2. Sentinel handling: after [replace(-1, pd.NA)] every sum runs over
    the cells that are neither NULL nor -1, per season as well as in total,
    and so does every mode of a numeric column; -1 is never a mode.  A row
    whose goals are -1 leaves the goal sum as it is without that row, and a
    row whose shirt number is -1 leaves the shirt-number mode as it is
    without that row. *)
Theorem sentinel_is_null (filtered : DataFrame) :
  let final_df := replace_sentinel filtered in
  let total col := fold_right Z.add 0 (live col) in
  (total_goals final_df = total (map goals filtered) /\
   total_assists final_df = total (map assists filtered) /\
   total_yellows final_df = total (map yellow_cards filtered) /\
   total_reds final_df = total (map red_cards filtered) /\
   total_minutes final_df = total (map minutes_played filtered)) /\
  (forall s, sum_skipna (map goals (filter (in_season s) final_df))
             = total (map goals (filter (in_season s) filtered))) /\
  (mode Z.eqb Z.leb (map shirt_number (filter shirt_known final_df))
     = mode Z.eqb Z.leb (map Some (live (map shirt_number filtered))) /\
   mode Z.eqb Z.leb (map number_of_seasons final_df)
     = mode Z.eqb Z.leb (map Some (live (map number_of_seasons filtered))) /\
   ~ In (-1) (mode Z.eqb Z.leb (map shirt_number (filter shirt_known final_df))) /\
   ~ In (-1) (mode Z.eqb Z.leb (map number_of_seasons final_df))) /\
  (forall before after r,
     total_goals (replace_sentinel (before ++ with_goals (Some (-1)) r :: after))
     = total_goals (replace_sentinel (before ++ after))) /\
  (forall before after r,
     shirt_number_stat (replace_sentinel (before ++ with_shirt_number (Some (-1)) r :: after))
     = shirt_number_stat (replace_sentinel (before ++ after))).
Proof.
  cbv zeta.
  assert (Hs : mode Z.eqb Z.leb (map shirt_number (filter shirt_known (replace_sentinel filtered)))
               = mode Z.eqb Z.leb (map Some (live (map shirt_number filtered)))).
  { apply mode_dropna. now rewrite shirt_column, dropna_map_Some. }
  assert (Hn : mode Z.eqb Z.leb (map number_of_seasons (replace_sentinel filtered))
               = mode Z.eqb Z.leb (map Some (live (map number_of_seasons filtered)))).
  { apply mode_dropna. now rewrite seasons_column, dropna_map_Some. }
  repeat split.
  - apply sum_column; reflexivity.
  - apply sum_column; reflexivity.
  - apply sum_column; reflexivity.
  - apply sum_column; reflexivity.
  - apply sum_column; reflexivity.
  - intros s. rewrite filter_replace_sentinel by reflexivity.
    apply sum_column; reflexivity.
  - exact Hs.
  - exact Hn.
  - rewrite Hs. intros H. apply (mode_In Z.eqb Z.leb Z.eqb_eq) in H.
    rewrite dropna_map_Some in H. exact (live_no_sentinel _ (proj1 H)).
  - rewrite Hn. intros H. apply (mode_In Z.eqb Z.leb Z.eqb_eq) in H.
    rewrite dropna_map_Some in H. exact (live_no_sentinel _ (proj1 H)).
  - intros before after r. unfold total_goals.
    rewrite !sum_column by reflexivity.
    rewrite !map_app, !live_app. reflexivity.
  - intros before after r. unfold shirt_number_stat.
    rewrite (mode_dropna Z.eqb Z.leb
               (map shirt_number (filter shirt_known (replace_sentinel (before ++ after))))
               (map shirt_number (filter shirt_known
                  (replace_sentinel (before ++ with_shirt_number (Some (-1)) r :: after)))));
      [reflexivity|].
    rewrite !shirt_column, !map_app, !live_app. reflexivity.
Qed.

(** C7. Unknown fallbacks: the main position is a most frequent value among
    the positions that are neither NULL nor "N/A" (the least one when several
    are equally frequent), and "Unknown" when there is none; the shirt number
    is a most frequent value among the shirt numbers that are neither NULL
    nor -1 (again the least one), and "Unknown" when there is none. *)
Theorem unknown_fallbacks (filtered : DataFrame) :
  let final_df := replace_sentinel filtered in
  let positions := known_positions filtered in
  let shirts := live (map shirt_number filtered) in
  match positions with
  | [] => main_position final_df = "Unknown"
  | _ :: _ =>
      In (main_position final_df) positions /\
      (forall q, (count String.eqb q positions
                  <= count String.eqb (main_position final_df) positions)%nat) /\
      (forall q, count String.eqb q positions
                 = count String.eqb (main_position final_df) positions ->
                 String.leb (main_position final_df) q = true)
  end /\
  match shirts with
  | [] => shirt_number_stat final_df = Text "Unknown"
  | _ :: _ =>
      exists n, shirt_number_stat final_df = Num n /\ In n shirts /\
        (forall m, (count Z.eqb m shirts <= count Z.eqb n shirts)%nat) /\
        (forall m, count Z.eqb m shirts = count Z.eqb n shirts -> n <= m)
  end.
Proof.
  cbv zeta. split.
  - unfold main_position.
    destruct (mode String.eqb String.leb
                (map player_position (filter position_known (replace_sentinel filtered))))
      as [|p rest] eqn:E.
    + apply (mode_nil String.eqb String.leb String.eqb_eq) in E.
      rewrite position_column in E. now rewrite E.
    + apply (@mode_head _ String.eqb String.leb String.eqb_eq String.leb_total string_leb_trans) in E.
      rewrite position_column in E.
      destruct (known_positions filtered) as [|q qs]; [destruct (proj1 E)|exact E].
  - unfold shirt_number_stat.
    destruct (mode Z.eqb Z.leb
                (map shirt_number (filter shirt_known (replace_sentinel filtered))))
      as [|n rest] eqn:E.
    + apply (mode_nil Z.eqb Z.leb Z.eqb_eq) in E.
      rewrite shirt_column in E. now rewrite E.
    + apply (@mode_head _ Z.eqb Z.leb Z.eqb_eq Z_leb_total Z_leb_trans) in E.
      rewrite shirt_column in E.
      destruct (live (map shirt_number filtered)) as [|q qs]; [destruct (proj1 E)|].
      exists n. destruct E as [E1 [E2 E3]]. repeat split; try assumption.
      intros m Hm. apply Z.leb_le, E3, Hm.
Qed.

(** C10. No fallback for nationality and number of seasons: each is the
    first mode of its column, read without a guard.  When the nationality
    column holds no value, or the number-of-seasons column holds nothing but
    NULL and -1, the read raises [IndexError] and so does the whole
    aggregation; otherwise the read returns a value. *)
Theorem mode_without_fallback (filtered : DataFrame) :
  let final_df := replace_sentinel filtered in
  match dropna (map nationality filtered) with
  | [] => nationality_stat final_df = Raise IndexError /\
          aggregate filtered = Raise IndexError
  | _ :: _ => exists n, nationality_stat final_df = Ok n
  end /\
  match live (map number_of_seasons filtered) with
  | [] => number_of_seasons_stat final_df = Raise IndexError /\
          aggregate filtered = Raise IndexError
  | _ :: _ => exists n, number_of_seasons_stat final_df = Ok n
  end.
Proof.
  cbv zeta.
  assert (Hnat : map nationality (replace_sentinel filtered) = map nationality filtered).
  { unfold replace_sentinel. rewrite map_map. reflexivity. }
  split.
  - unfold aggregate, nationality_stat. rewrite Hnat.
    destruct (mode String.eqb String.leb (map nationality filtered)) as [|n rest] eqn:E.
    + apply (mode_nil String.eqb String.leb String.eqb_eq) in E. rewrite E. now split.
    + destruct (dropna (map nationality filtered)) eqn:D.
      * apply (mode_nil String.eqb String.leb String.eqb_eq) in D. congruence.
      * now exists n.
  - unfold aggregate, number_of_seasons_stat.
    destruct (mode Z.eqb Z.leb (map number_of_seasons (replace_sentinel filtered)))
      as [|n rest] eqn:E.
    + apply (mode_nil Z.eqb Z.leb Z.eqb_eq) in E. rewrite seasons_column in E.
      rewrite E. split; [reflexivity|].
      unfold nationality_stat.
      destruct (mode String.eqb String.leb (map nationality (replace_sentinel filtered)));
        reflexivity.
    + destruct (live (map number_of_seasons filtered)) eqn:D.
      * rewrite <- seasons_column in D.
        apply (mode_nil Z.eqb Z.leb Z.eqb_eq) in D. congruence.
      * now exists n.
Qed.

(** ** The cache and the loaders *)

Lemma coherent_fresh (t : DataFrame) : coherent (fresh t).
Proof. intros c v stored []. Qed.

Lemma coherent_advance (dt : Z) (w : World) : coherent w -> coherent (advance dt w).
Proof. intros H c v stored Hin. exact (H c v stored Hin). Qed.

Lemma list_eqb_eq (l1 l2 : list string) : list_eqb l1 l2 = true -> l1 = l2.
Proof. unfold list_eqb. now destruct (list_eq_dec string_dec l1 l2). Qed.

Lemma player_eqb_eq (p q : option string) : player_eqb p q = true -> p = q.
Proof.
  destruct p, q; simpl; try easy. intros H. apply String.eqb_eq in H. now subst.
Qed.

Lemma call_eqb_eq (c1 c2 : call) : call_eqb c1 c2 = true -> c1 = c2.
Proof.
  destruct c1, c2; simpl; try easy; rewrite ?andb_true_iff, ?Z.eqb_eq.
  - intros H. apply list_eqb_eq in H. now subst.
  - intros [-> H]. apply list_eqb_eq in H. now subst.
  - intros [[-> Hp] H]. apply list_eqb_eq in H. apply player_eqb_eq in Hp. now subst.
Qed.

Lemma lookup_stored (c : call) (w : World) (v : value) :
  lookup c w = Some v -> exists stored, In (c, (v, stored)) (store w).
Proof.
  unfold lookup.
  destruct (find _ (store w)) as [[c' [v' stored]]|] eqn:E; [|discriminate].
  intros [= <-]. apply find_some in E. destruct E as [Hin Hc]. simpl in Hc.
  apply andb_true_iff in Hc. destruct Hc as [Hc _].
  apply call_eqb_eq in Hc. subst c'. now exists stored.
Qed.

Section CacheData.
Variable A : Type.
Variable c : call.
Variable enc : A -> value.
Variable dec : value -> option A.
Variable body : M A.
Variable on_table : DataFrame -> result A.

Hypothesis dec_enc : forall v a, dec v = Some a <-> v = enc a.
Hypothesis answer_c : forall t, answer_of c t = let? a := on_table t in Ok (enc a).
Hypothesis body_answers : forall w,
  fst (body w) = on_table (table w) /\
  table (snd (body w)) = table w /\ store (snd (body w)) = store w.

(** With a coherent store a cached call returns what its body returns on
    the table, whether the value comes from the store or from a run. *)
Lemma cache_data_sound (w : World) :
  coherent w ->
  fst (cache_data c enc dec body w) = on_table (table w) /\
  table (snd (cache_data c enc dec body w)) = table w /\
  coherent (snd (cache_data c enc dec body w)).
Proof.
  intros Hw. unfold cache_data.
  destruct (lookup c w) as [v|] eqn:L; [destruct (dec v) as [a|] eqn:D|].
  - simpl. split; [|split; [reflexivity | exact Hw]].
    apply lookup_stored in L. destruct L as [stored Hin].
    apply Hw in Hin. rewrite answer_c in Hin.
    apply dec_enc in D. subst v.
    destruct (on_table (table w)) as [a'|e]; simpl in Hin; [|discriminate].
    injection Hin as Hin. f_equal.
    assert (H : dec (enc a') = Some a) by (now apply dec_enc).
    assert (H' : dec (enc a') = Some a') by (now apply dec_enc).
    congruence.
  - destruct (body_answers w) as [Hr [Ht Hs]].
    destruct (body w) as [[a|e] w']; simpl in *.
    + split; [exact Hr|]. split; [exact Ht|].
      intros c' v' stored [Hin|Hin].
      * injection Hin as <- <- <-. simpl. rewrite Ht, answer_c, <- Hr. reflexivity.
      * simpl. rewrite Ht. apply (Hw c' v' stored). now rewrite <- Hs.
    + split; [exact Hr|]. split; [exact Ht|].
      intros c' v' stored Hin. rewrite Ht. apply (Hw c' v' stored). now rewrite <- Hs.
  - destruct (body_answers w) as [Hr [Ht Hs]].
    destruct (body w) as [[a|e] w']; simpl in *.
    + split; [exact Hr|]. split; [exact Ht|].
      intros c' v' stored [Hin|Hin].
      * injection Hin as <- <- <-. simpl. rewrite Ht, answer_c, <- Hr. reflexivity.
      * simpl. rewrite Ht. apply (Hw c' v' stored). now rewrite <- Hs.
    + split; [exact Hr|]. split; [exact Ht|].
      intros c' v' stored Hin. rewrite Ht. apply (Hw c' v' stored). now rewrite <- Hs.
Qed.

(** A body that sends nothing to the server makes a call that sends nothing. *)
Lemma cache_data_quiet (w : World) :
  issued (snd (body w)) = issued w ->
  issued (snd (cache_data c enc dec body w)) = issued w.
Proof.
  intros H. unfold cache_data.
  destruct (match lookup c w with Some v => dec v | None => None end); [reflexivity|].
  destruct (body w) as [[a|e] w']; simpl in *; exact H.
Qed.
End CacheData.

Lemma dec_date_enc (v : value) (d : option Z) : dec_date v = Some d <-> v = VDate d.
Proof. destruct v; simpl; split; congruence. Qed.

Lemma dec_names_enc (v : value) (l : list string) : dec_names v = Some l <-> v = VNames l.
Proof. destruct v; simpl; split; congruence. Qed.

Lemma dec_seasons_enc (v : value) (r : seasons_result) :
  dec_seasons v = Some r <-> v = VSeasons r.
Proof. destruct v; simpl; split; congruence. Qed.

Lemma dec_frame_enc (v : value) (df : DataFrame) : dec_frame v = Some df <-> v = VFrame df.
Proof. destruct v; simpl; split; congruence. Qed.

Lemma load_latest_game_date_sound (w : World) :
  coherent w ->
  fst (load_latest_game_date w) = Ok (select_latest_game_date (table w)) /\
  table (snd (load_latest_game_date w)) = table w /\
  coherent (snd (load_latest_game_date w)).
Proof.
  apply cache_data_sound with (on_table := fun t => Ok (select_latest_game_date t)).
  - exact dec_date_enc.
  - reflexivity.
  - intros w0. repeat split.
Qed.

Lemma load_competitions_sound (w : World) :
  coherent w ->
  fst (load_competitions w) = Ok (select_competitions (table w)) /\
  table (snd (load_competitions w)) = table w /\
  coherent (snd (load_competitions w)).
Proof.
  apply cache_data_sound with (on_table := fun t => Ok (select_competitions t)).
  - exact dec_names_enc.
  - reflexivity.
  - intros w0. repeat split.
Qed.

Lemma load_number_of_seasons_sound (comps : list string) (w : World) :
  coherent w ->
  fst (load_number_of_seasons comps w) = number_of_seasons_on comps (table w) /\
  table (snd (load_number_of_seasons comps w)) = table w /\
  coherent (snd (load_number_of_seasons comps w)).
Proof.
  apply cache_data_sound with (on_table := number_of_seasons_on comps).
  - exact dec_seasons_enc.
  - reflexivity.
  - intros w0. destruct comps as [|c0 comps]; [repeat split|].
    unfold number_of_seasons_on, bind, connect_to_sql_alchemy_server, emit, read_sql.
    simpl. destruct (select_max_seasons (c0 :: comps) (table w0)); repeat split.
Qed.

Lemma load_players_sound (m : Z) (comps : list string) (w : World) :
  coherent w ->
  fst (load_players m comps w) = Ok (players_on m comps (table w)) /\
  table (snd (load_players m comps w)) = table w /\
  coherent (snd (load_players m comps w)).
Proof.
  apply cache_data_sound with (on_table := fun t => Ok (players_on m comps t)).
  - exact dec_names_enc.
  - reflexivity.
  - intros w0. destruct comps as [|c0 comps]; repeat split.
Qed.

Lemma load_player_data_sound (m : Z) (p : option string) (comps : list string) (w : World) :
  coherent w ->
  fst (load_player_data m p comps w) = Ok (player_data_on m p comps (table w)) /\
  table (snd (load_player_data m p comps w)) = table w /\
  coherent (snd (load_player_data m p comps w)).
Proof.
  apply cache_data_sound with (on_table := fun t => Ok (player_data_on m p comps t)).
  - exact dec_frame_enc.
  - reflexivity.
  - intros w0. unfold player_data_on.
    destruct (truthy p) as [q|]; [|repeat split].
    destruct comps as [|c0 comps]; repeat split.
Qed.

(** C4. Empty-selection short-circuit: with no competition selected each of
    the three loaders returns its empty result and sends nothing to the
    server; [load_player_data] does the same when the player is missing or
    the empty string. *)
Theorem empty_selection_short_circuit
    (w : World) (m : Z) (p : option string) (comps : list string) :
  coherent w ->
  (fst (load_number_of_seasons [] w) = Ok EmptyList /\
   issued (snd (load_number_of_seasons [] w)) = issued w) /\
  (fst (load_players m [] w) = Ok [] /\
   issued (snd (load_players m [] w)) = issued w) /\
  (fst (load_player_data m p [] w) = Ok [] /\
   issued (snd (load_player_data m p [] w)) = issued w) /\
  (fst (load_player_data m None comps w) = Ok [] /\
   issued (snd (load_player_data m None comps w)) = issued w) /\
  (fst (load_player_data m (Some "") comps w) = Ok [] /\
   issued (snd (load_player_data m (Some "") comps w)) = issued w).
Proof.
  intros Hw. repeat split.
  - apply (load_number_of_seasons_sound [] Hw).
  - now apply cache_data_quiet.
  - apply (load_players_sound m [] Hw).
  - now apply cache_data_quiet.
  - rewrite (proj1 (load_player_data_sound m p [] Hw)).
    unfold player_data_on. now destruct (truthy p).
  - apply cache_data_quiet. now destruct (truthy p).
  - apply (load_player_data_sound m None comps Hw).
  - now apply cache_data_quiet.
  - apply (load_player_data_sound m (Some "") comps Hw).
  - now apply cache_data_quiet.
Qed.

Lemma empty_selection_short_circuit_witness :
  coherent (fresh scenario_rows) /\
  fst (load_players 3 [] (fresh scenario_rows)) = Ok [] /\
  issued (snd (load_players 3 [] (fresh scenario_rows))) = [].
Proof.
  split; [apply coherent_fresh|].
  exact (proj1 (proj2 (empty_selection_short_circuit 3 (Some "John Doe")
                         ["Champions League"] (@coherent_fresh scenario_rows)))).
Defined.

(** C9. [load_number_of_seasons] with a non-empty selection converts the
    [MAX] cell without a guard: it returns the maximum when the query finds
    one, and raises when the cell is NULL.  No row of the selected
    competitions means a NULL cell, so the call raises rather than
    returning the empty result; a returned integer means some row matched. *)
Theorem load_number_of_seasons_unguarded (comps : list string) (w : World) :
  coherent w ->
  comps <> [] ->
  let matching := filter (fun r => isin (competition_name r) comps) (table w) in
  fst (load_number_of_seasons comps w)
  = match select_max_seasons comps (table w) with
    | Some n => Ok (MaxSeasons n)
    | None => Raise TypeError
    end /\
  (matching = [] -> fst (load_number_of_seasons comps w) = Raise TypeError) /\
  (forall r, fst (load_number_of_seasons comps w) = Ok r ->
             matching <> [] /\ r <> EmptyList).
Proof.
  intros Hw Hne. cbv zeta.
  assert (H : fst (load_number_of_seasons comps w)
              = match select_max_seasons comps (table w) with
                | Some n => Ok (MaxSeasons n)
                | None => Raise TypeError
                end).
  { rewrite (proj1 (load_number_of_seasons_sound comps Hw)).
    unfold number_of_seasons_on. destruct comps; [congruence|].
    now destruct (select_max_seasons _ _). }
  split; [exact H|]. split.
  - intros Hm. rewrite H. unfold select_max_seasons. rewrite Hm. reflexivity.
  - intros r Hr. rewrite H in Hr. unfold select_max_seasons in Hr.
    split.
    + intros Hm. rewrite Hm in Hr. discriminate.
    + destruct (sql_max _); [|discriminate]. injection Hr as <-. discriminate.
Qed.

Lemma load_number_of_seasons_unguarded_witness :
  coherent (fresh scenario_rows) /\ ["Europa League"] <> [] /\
  fst (load_number_of_seasons ["Europa League"] (fresh scenario_rows)) = Raise TypeError.
Proof.
  split; [apply coherent_fresh|]. split; [discriminate|].
  refine (proj1 (proj2 (@load_number_of_seasons_unguarded ["Europa League"]
                          (fresh scenario_rows) (@coherent_fresh _) _)) eq_refl).
  discriminate.
Defined.

(** C5. [load_players] returns the names of the players with a row of the
    selected competitions at or above the threshold, sorted ascending and
    without duplicates. *)
Theorem load_players_sorted_distinct (m : Z) (comps : list string) (w : World) :
  coherent w ->
  comps <> [] ->
  exists players,
    fst (load_players m comps w) = Ok players /\
    StronglySorted (fun a b => String.leb a b = true) players /\
    NoDup players /\
    StronglySorted (fun a b => String.ltb a b = true) players /\
    (forall p, In p players <->
               exists r, In r (table w) /\ player_name r = p /\
                         at_least (number_of_seasons r) m = true /\
                         isin (competition_name r) comps = true).
Proof.
  intros Hw Hne. exists (players_on m comps (table w)).
  split; [apply (load_players_sound m comps Hw)|].
  unfold players_on. destruct comps as [|c0 comps]; [congruence|].
  set (names := select_players m (c0 :: comps) (table w)).
  assert (Hs : StronglySorted (fun a b => String.leb a b = true) (sorted String.leb names))
    by (apply sorted_strongly; [exact String.leb_total | exact string_leb_trans]).
  assert (Hd : NoDup (sorted String.leb names)).
  { eapply Permutation_NoDup; [apply Permutation_sym, sorted_perm|].
    apply unique_NoDup. exact String.eqb_eq. }
  split; [exact Hs|]. split; [exact Hd|]. split.
  - clear -Hs Hd. induction Hs as [|x l Hs IH Hx]; constructor.
    + apply IH. now inversion Hd.
    + inversion Hd as [|? ? Hnin _]; subst. rewrite Forall_forall in *.
      intros y Hy. specialize (Hx y Hy). unfold String.leb in Hx. unfold String.ltb.
      destruct (String.compare x y) eqn:E; try easy.
      apply String.compare_eq_iff in E. subst. contradiction.
  - intros p. rewrite sorted_In. unfold names, select_players.
    rewrite (unique_In String.eqb String.eqb_eq), in_map_iff. split.
    + intros [r [Hp Hr]]. apply filter_In in Hr. destruct Hr as [Hin Hc].
      apply andb_true_iff in Hc. exists r. tauto.
    + intros [r [Hin [Hp [H1 H2]]]]. exists r. split; [exact Hp|].
      apply filter_In. split; [exact Hin|]. now rewrite H1, H2.
Qed.

Lemma load_players_sorted_distinct_witness :
  coherent (fresh scenario_rows) /\ ["Champions League"] <> [] /\
  exists players,
    fst (load_players 3 ["Champions League"] (fresh scenario_rows)) = Ok players /\
    NoDup players.
Proof.
  split; [apply coherent_fresh|]. split; [discriminate|].
  destruct (@load_players_sorted_distinct 3 ["Champions League"] (fresh scenario_rows)
              (@coherent_fresh _)) as [players [H1 [_ [H2 _]]]]; [discriminate|].
  exists players. split; assumption.
Defined.

(** ** One run of the page *)

Lemma create_streamlit_app_sound (sel : Selection) (w : World) :
  coherent w ->
  fst (create_streamlit_app sel w) = page sel (table w) /\
  table (snd (create_streamlit_app sel w)) = table w /\
  coherent (snd (create_streamlit_app sel w)).
Proof.
  intros Hw. unfold create_streamlit_app, page, bind.
  destruct (load_latest_game_date_sound Hw) as [R1 [T1 C1]].
  destruct (load_latest_game_date w) as [r1 w1]. cbn [fst snd] in R1, T1, C1. subst r1.
  destruct (select_latest_game_date (table w)) as [d|]; [|now repeat split].
  destruct (load_competitions_sound C1) as [R2 [T2 C2]].
  destruct (load_competitions w1) as [r2 w2]. cbn [fst snd] in R2, T2, C2. subst r2.
  rewrite T1 in T2.
  destruct (competitions sel) as [|c0 cs] eqn:Ecomps; [now repeat split|].
  destruct (load_number_of_seasons_sound (c0 :: cs) C2) as [R3 [T3 C3]].
  destruct (load_number_of_seasons (c0 :: cs) w2) as [r3 w3]. cbn [fst snd] in R3, T3, C3.
  rewrite T2 in R3, T3. rewrite <- R3.
  destruct r3 as [n|e]; [|now repeat split]. cbn [rbind].
  destruct (load_players_sound (minimum_seasons sel) (c0 :: cs) C3) as [R4 [T4 C4]].
  destruct (load_players (minimum_seasons sel) (c0 :: cs) w3) as [r4 w4].
  cbn [fst snd] in R4, T4, C4. subst r4. rewrite T3 in T4.
  destruct (truthy (player sel)) as [p|] eqn:Ep; [|now repeat split].
  destruct (load_player_data_sound (minimum_seasons sel) (player sel) (c0 :: cs) C4)
    as [R5 [T5 C5]].
  destruct (load_player_data (minimum_seasons sel) (player sel) (c0 :: cs) w4) as [r5 w5].
  cbn [fst snd] in R5, T5, C5. subst r5. rewrite T4 in T5 |- *.
  destruct (player_data_on (minimum_seasons sel) (player sel) (c0 :: cs) (table w))
    as [|r0 rows]; [now repeat split|].
  unfold lift, ret.
  destruct (aggregate (season_filter (seasons sel) (r0 :: rows))) as [s|e];
    now repeat split.
Qed.

(** C8. Determinism: from a store filled from the same table, a second run
    with the same selection shows what the first run showed, however much
    time passed in between and whatever the first run stored; and any two
    runs on the same table with the same selection show the same, whatever
    their stores, clocks and logs. *)
Theorem rerun_identical (sel : Selection) (w : World) :
  coherent w ->
  (forall dt, fst (create_streamlit_app sel (advance dt (snd (create_streamlit_app sel w))))
              = fst (create_streamlit_app sel w)) /\
  (forall w', coherent w' -> table w' = table w ->
              fst (create_streamlit_app sel w') = fst (create_streamlit_app sel w)).
Proof.
  intros Hw.
  destruct (create_streamlit_app_sound sel Hw) as [R [T C]].
  split.
  - intros dt.
    rewrite (proj1 (create_streamlit_app_sound sel (coherent_advance dt C))).
    rewrite R. simpl. now rewrite T.
  - intros w' Hw' Ht.
    rewrite (proj1 (create_streamlit_app_sound sel Hw')), R. now rewrite Ht.
Qed.

Example scenario_run :
  fst (create_streamlit_app scenario_selection (fresh scenario_table))
  = Ok (Rendered (mkSummary 3 2 2 1 "England" "FW" (Num 9) 1 0 165 "A"
          [mkSeasonStat "2015/2016" 1 2; mkSeasonStat "2016/2017" 0 0;
           mkSeasonStat "2017/2018" 1 0])).
Proof. vm_compute. reflexivity. Qed.

Example scenario_run_log :
  issued (snd (create_streamlit_app scenario_selection (fresh scenario_table)))
  = [Connect; ReadSql SelectLatestGameDate; Connect; ReadSql SelectCompetitions;
     Connect; ReadSql (SelectMaxSeasons ["Champions League"]);
     Connect; ReadSql (SelectPlayers 3 ["Champions League"]);
     Connect; ReadSql (SelectPlayerData 3 "John Doe" ["Champions League"])]
  /\ issued (snd (create_streamlit_app scenario_selection
                    (snd (create_streamlit_app scenario_selection (fresh scenario_table)))))
     = issued (snd (create_streamlit_app scenario_selection (fresh scenario_table))).
Proof. vm_compute. split; reflexivity. Qed.

Lemma rerun_identical_witness :
  coherent (fresh scenario_table) /\
  fst (create_streamlit_app scenario_selection
         (advance 700 (snd (create_streamlit_app scenario_selection (fresh scenario_table)))))
  = fst (create_streamlit_app scenario_selection (fresh scenario_table)).
Proof.
  split; [apply coherent_fresh|].
  exact (proj1 (rerun_identical scenario_selection (@coherent_fresh scenario_table)) 700).
Defined.

(** ** Season names and their start years *)

Lemma is_digit_value (c : ascii) : is_digit c = true -> 0 <= digit_value c <= 9.
Proof.
  unfold is_digit, digit_value. rewrite andb_true_iff, !N.leb_le. lia.
Qed.

Lemma season_start_digits (a b c d : ascii) (s : string) :
  is_digit a = true -> is_digit b = true -> is_digit c = true -> is_digit d = true ->
  season_start (String a (String b (String c (String d s))))
  = Ok (1000 * digit_value a + 100 * digit_value b + 10 * digit_value c + digit_value d).
Proof.
  intros Ha Hb Hc Hd. unfold season_start.
  replace (substring 0 4 (String a (String b (String c (String d s)))))
    with (String a (String b (String c (String d EmptyString))))
    by (destruct s; reflexivity).
  unfold int_of_str. cbn [parse_digits]. rewrite Ha, Hb, Hc, Hd.
  f_equal. lia.
Qed.

Lemma four_digits_start (s : string) :
  four_digits s = true -> season_start s = Ok (start_year s).
Proof.
  destruct s as [|a [|b [|c [|d s]]]]; try discriminate.
  cbn [four_digits]. rewrite !andb_true_iff. intros [[[Ha Hb] Hc] Hd].
  unfold start_year. now rewrite (@season_start_digits _ _ _ _ s Ha Hb Hc Hd).
Qed.

(** On names that start with four digits the order of the strings is the
    order of the years. *)
Lemma start_year_monotone (s1 s2 : string) :
  four_digits s1 = true -> four_digits s2 = true ->
  String.leb s1 s2 = true -> start_year s1 <= start_year s2.
Proof.
  destruct s1 as [|a1 [|b1 [|c1 [|d1 s1]]]]; try discriminate.
  destruct s2 as [|a2 [|b2 [|c2 [|d2 s2]]]]; try discriminate.
  cbn [four_digits]. rewrite !andb_true_iff.
  intros [[[Ha1 Hb1] Hc1] Hd1] [[[Ha2 Hb2] Hc2] Hd2].
  unfold start_year.
  rewrite (@season_start_digits _ _ _ _ s1 Ha1 Hb1 Hc1 Hd1),
    (@season_start_digits _ _ _ _ s2 Ha2 Hb2 Hc2 Hd2).
  apply is_digit_value in Ha1, Hb1, Hc1, Hd1, Ha2, Hb2, Hc2, Hd2.
  unfold String.leb. cbn [String.compare]. unfold Ascii.compare, digit_value in *.
  destruct (N.compare_spec (N_of_ascii a1) (N_of_ascii a2)); try discriminate; try lia.
  destruct (N.compare_spec (N_of_ascii b1) (N_of_ascii b2)); try discriminate; try lia.
  destruct (N.compare_spec (N_of_ascii c1) (N_of_ascii c2)); try discriminate; try lia.
  destruct (N.compare_spec (N_of_ascii d1) (N_of_ascii d2)); try discriminate; try lia.
Qed.

Lemma string_leb_false (x y : string) : String.leb x y = false -> String.leb y x = true.
Proof. destruct (String.leb_total x y); congruence. Qed.

(** ** Minima *)

Lemma min_of_In (x : string) (l : list string) : In (min_of String.leb x l) (x :: l).
Proof.
  unfold min_of. revert x. induction l as [|y l IH]; intros x; simpl; [now left|].
  destruct (IH (if String.leb y x then y else x)) as [H|H]; [|now right; right].
  rewrite <- H. destruct (String.leb y x); auto.
Qed.

Lemma min_of_le_start (x : string) (l : list string) :
  String.leb (min_of String.leb x l) x = true.
Proof.
  unfold min_of. revert x. induction l as [|y l IH]; intros x; simpl.
  - destruct (String.leb_total x x); assumption.
  - destruct (String.leb y x) eqn:E; [|apply IH].
    eapply string_leb_trans; [apply IH | exact E].
Qed.

Lemma min_of_least (x : string) (l : list string) (z : string) :
  In z (x :: l) -> String.leb (min_of String.leb x l) z = true.
Proof.
  unfold min_of. revert x. induction l as [|y l IH]; intros x.
  - intros [<-|[]]. simpl. destruct (String.leb_total x x); assumption.
  - intros Hz. simpl.
    assert (Hm := min_of_le_start (if String.leb y x then y else x) l).
    unfold min_of in Hm.
    destruct Hz as [<-|[<-|Hz]].
    + eapply string_leb_trans; [exact Hm|].
      destruct (String.leb y x) eqn:E; [exact E|].
      destruct (String.leb_total x x); assumption.
    + eapply string_leb_trans; [exact Hm|].
      destruct (String.leb y x) eqn:E; [|now apply string_leb_false].
      destruct (String.leb_total y y); assumption.
    + apply IH. now right.
Qed.

Lemma min_str_In (l : list string) : l <> [] -> In (min_str l) l.
Proof. destruct l as [|x l]; [congruence|]. intros _. apply min_of_In. Qed.

Lemma min_str_least (l : list string) (z : string) :
  In z l -> String.leb (min_str l) z = true.
Proof. destruct l as [|x l]; [intros []|]. apply min_of_least. Qed.

(** The minimum depends on the elements only. *)
Lemma min_str_perm (l1 l2 : list string) :
  Permutation l1 l2 -> min_str l1 = min_str l2.
Proof.
  intros HP. destruct l1 as [|x l1].
  - apply Permutation_nil in HP. now subst.
  - assert (H2 : l2 <> []).
    { intros ->. apply Permutation_sym, Permutation_nil in HP. discriminate. }
    apply String.leb_antisym.
    + apply min_str_least. eapply Permutation_in; [apply Permutation_sym, HP|].
      now apply min_str_In.
    + apply min_str_least. eapply Permutation_in; [exact HP|].
      apply min_str_In. discriminate.
Qed.

(** The least and the greatest of a non-empty list of years. *)
Lemma fold_min_spec (l : list Z) (x : Z) :
  In (fold_left Z.min l x) (x :: l) /\ forall y, In y (x :: l) -> fold_left Z.min l x <= y.
Proof.
  revert x. induction l as [|z l IH]; intros x; simpl.
  - split; [now left | intros y [<-|[]]; lia].
  - destruct (IH (Z.min x z)) as [Hin Hle]. split.
    + destruct Hin as [Hin|Hin]; [|now right; right].
      rewrite <- Hin. destruct (Z.min_spec x z) as [[_ ->]|[_ ->]]; auto.
    + intros y Hy.
      assert (Hm : fold_left Z.min l (Z.min x z) <= Z.min x z) by (apply Hle; now left).
      destruct Hy as [<-|[<-|Hy]]; [lia | lia |]. apply Hle. now right.
Qed.

Lemma fold_max_spec (l : list Z) (x : Z) :
  In (fold_left Z.max l x) (x :: l) /\ forall y, In y (x :: l) -> y <= fold_left Z.max l x.
Proof.
  revert x. induction l as [|z l IH]; intros x; simpl.
  - split; [now left | intros y [<-|[]]; lia].
  - destruct (IH (Z.max x z)) as [Hin Hle]. split.
    + destruct Hin as [Hin|Hin]; [|now right; right].
      rewrite <- Hin. destruct (Z.max_spec x z) as [[_ ->]|[_ ->]]; auto.
    + intros y Hy.
      assert (Hm : Z.max x z <= fold_left Z.max l (Z.max x z)) by (apply Hle; now left).
      destruct Hy as [<-|[<-|Hy]]; [lia | lia |]. apply Hle. now right.
Qed.

(** ** Team order *)

Lemma rmap_ok (A B : Type) (f : A -> result B) (g : A -> B) (l : list A) :
  (forall x, In x l -> f x = Ok (g x)) -> rmap f l = Ok (map g l).
Proof.
  induction l as [|x l IH]; intros H; simpl; [reflexivity|].
  rewrite (H x) by now left. simpl. rewrite IH; [reflexivity|].
  intros y Hy. apply H. now right.
Qed.

Lemma filter_perm (A : Type) (p : A -> bool) (l1 l2 : list A) :
  Permutation l1 l2 -> Permutation (filter p l1) (filter p l2).
Proof.
  induction 1; simpl.
  - constructor.
  - destruct (p x); [constructor|]; assumption.
  - destruct (p x), (p y); try apply Permutation_refl. apply perm_swap.
  - eapply perm_trans; eassumption.
Qed.

Lemma groupby_keys_In (t : string) (keys : list string) :
  In t (groupby_keys keys) <-> In t keys.
Proof.
  unfold groupby_keys. rewrite sorted_In. apply unique_In. exact String.eqb_eq.
Qed.

Lemma groupby_keys_NoDup (keys : list string) : NoDup (groupby_keys keys).
Proof.
  unfold groupby_keys.
  eapply Permutation_NoDup; [apply Permutation_sym, sorted_perm|].
  apply unique_NoDup. exact String.eqb_eq.
Qed.

Lemma groupby_keys_sorted (keys : list string) :
  StronglySorted (fun a b => String.leb a b = true) (groupby_keys keys).
Proof.
  apply sorted_strongly; [exact String.leb_total | exact string_leb_trans].
Qed.

Lemma groupby_keys_perm (k1 k2 : list string) :
  Permutation k1 k2 -> groupby_keys k1 = groupby_keys k2.
Proof.
  intros HP. unfold groupby_keys.
  apply sorted_of_perm;
    [exact String.leb_total | exact string_leb_trans | exact String.leb_antisym |].
  apply unique_perm; [exact String.eqb_eq | exact HP].
Qed.

Lemma first_season_In (final_df : DataFrame) (t : string) :
  In t (map team_name final_df) ->
  exists r, In r final_df /\ team_name r = t /\ season_name r = first_season final_df t.
Proof.
  intros Ht. apply in_map_iff in Ht. destruct Ht as [r0 [Hr0 Hin0]].
  assert (Hne : map season_name (filter (fun r => (team_name r =? t)%string) final_df) <> []).
  { intros E. apply map_eq_nil in E.
    assert (Hf : In r0 (filter (fun r => (team_name r =? t)%string) final_df)).
    { apply filter_In. split; [exact Hin0|]. now apply String.eqb_eq. }
    rewrite E in Hf. destruct Hf. }
  apply min_str_In in Hne. apply in_map_iff in Hne.
  destruct Hne as [r [Hs Hr]]. apply filter_In in Hr. destruct Hr as [Hin Ht].
  apply String.eqb_eq in Ht. exists r. repeat split; assumption.
Qed.

Lemma first_season_perm (df df' : DataFrame) (t : string) :
  Permutation df df' -> first_season df' t = first_season df t.
Proof.
  intros HP. unfold first_season. apply min_str_perm, Permutation_map, filter_perm.
  apply Permutation_sym, HP.
Qed.

Lemma teams_perm (df df' : DataFrame) : Permutation df df' -> teams df' = teams df.
Proof.
  intros HP. unfold teams, team_order, team_first_seasons.
  rewrite (groupby_keys_perm (Permutation_map team_name (Permutation_sym HP))).
  replace (map (fun t => (t, first_season df' t)) (groupby_keys (map team_name df)))
    with (map (fun t => (t, first_season df t)) (groupby_keys (map team_name df)));
    [reflexivity|].
  apply map_ext. intros t. now rewrite (first_season_perm t HP).
Qed.

(** The first season of a team starts in the least start year of its rows. *)
Lemma first_season_year (final_df : DataFrame) (t : string) :
  Forall (fun r => four_digits (season_name r) = true) final_df ->
  In t (map team_name final_df) ->
  start_year (first_season final_df t) = first_year final_df t.
Proof.
  intros Hwf Ht. rewrite Forall_forall in Hwf.
  unfold first_season, first_year.
  set (rows := filter (fun r => (team_name r =? t)%string) final_df).
  assert (Hrows : forall r, In r rows -> four_digits (season_name r) = true).
  { intros r Hr. apply Hwf. apply filter_In in Hr. tauto. }
  assert (Hne : rows <> []).
  { apply in_map_iff in Ht. destruct Ht as [r0 [Hr0 Hin0]]. intros E.
    assert (Hf : In r0 rows) by (apply filter_In; split; [exact Hin0 | now apply String.eqb_eq]).
    rewrite E in Hf. destruct Hf. }
  assert (Hmin_in : In (min_str (map season_name rows)) (map season_name rows)).
  { apply min_str_In. intros E. apply map_eq_nil in E. contradiction. }
  assert (Hmin_le : forall r, In r rows ->
            start_year (min_str (map season_name rows)) <= start_year (season_name r)).
  { intros r Hr. apply start_year_monotone.
    - apply in_map_iff in Hmin_in. destruct Hmin_in as [r' [<- Hr']]. now apply Hrows.
    - now apply Hrows.
    - apply min_str_least. now apply in_map. }
  destruct rows as [|r0 rows'] eqn:E; [congruence|].
  cbn [map].
  destruct (fold_min_spec (map (fun r => start_year (season_name r)) rows')
                          (start_year (season_name r0))) as [Hin Hle].
  change (start_year (season_name r0) :: map (fun r => start_year (season_name r)) rows')
    with (map (fun r => start_year (season_name r)) (r0 :: rows')) in Hin, Hle.
  apply in_map_iff in Hin. destruct Hin as [ra [Hra Hina]].
  apply in_map_iff in Hmin_in. destruct Hmin_in as [rb [Hrb Hinb]].
  assert (H1 := Hmin_le ra Hina).
  assert (H2 := Hle (start_year (season_name rb))
                    (in_map (fun r => start_year (season_name r)) _ _ Hinb)).
  cbn [map] in Hrb, H1 |- *. rewrite <- Hrb in H1 |- *. rewrite <- Hra in H2 |- *. lia.
Qed.

Lemma team_order_closed (final_df : DataFrame) :
  Forall (fun r => four_digits (season_name r) = true) final_df ->
  team_order final_df
  = Ok (sorted (fun a b => snd a <=? snd b)
          (map (fun t => (t, first_year final_df t))
               (groupby_keys (map team_name final_df)))).
Proof.
  intros Hwf. unfold team_order, team_first_seasons.
  rewrite (@rmap_ok _ _ _ (fun ts => (fst ts, start_year (snd ts)))).
  - simpl. rewrite map_map. simpl. do 2 f_equal.
    apply map_ext_in. intros t Ht. apply (proj1 (groupby_keys_In _ _)) in Ht.
    now rewrite first_season_year.
  - intros [t s] Hin. apply in_map_iff in Hin. destruct Hin as [t' [[= <- <-] Ht]].
    apply (proj1 (groupby_keys_In _ _)) in Ht. simpl.
    destruct (first_season_In _ _ Ht) as [r [Hr [_ Hs]]].
    rewrite Forall_forall in Hwf. rewrite four_digits_start; [reflexivity|].
    rewrite <- Hs. now apply Hwf.
Qed.

Lemma StronglySorted_impl (A : Type) (R S : A -> A -> Prop) (l : list A) :
  (forall a b, R a b -> S a b) -> StronglySorted R l -> StronglySorted S l.
Proof.
  intros H. induction 1 as [|x l Hs IH Hx]; constructor; [exact IH|].
  rewrite Forall_forall in *. intros y Hy. apply H, Hx, Hy.
Qed.

Lemma by_year_total (A : Type) (a b : A * Z) :
  (snd a <=? snd b) = true \/ (snd b <=? snd a) = true.
Proof. apply Z_leb_total. Qed.

Lemma by_year_trans (A : Type) (a b c : A * Z) :
  (snd a <=? snd b) = true -> (snd b <=? snd c) = true -> (snd a <=? snd c) = true.
Proof. apply Z_leb_trans. Qed.

(** ** Season densification *)

Lemma season_well_formed_start (s : string) :
  season_well_formed s = true ->
  season_start s = Ok (start_year s) /\ s = season_label (start_year s).
Proof.
  unfold season_well_formed, start_year.
  destruct (season_start s) as [y|e]; [|discriminate].
  intros H. apply String.eqb_eq in H. now split.
Qed.

Lemma range_incl_In (lo hi y : Z) : In y (range_incl lo hi) <-> lo <= y <= hi.
Proof.
  unfold range_incl. rewrite in_map_iff. split.
  - intros [i [<- Hi]]. apply in_seq in Hi. lia.
  - intros H. exists (Z.to_nat (y - lo)). split; [lia|]. apply in_seq. lia.
Qed.

Lemma range_incl_NoDup (lo hi : Z) : NoDup (range_incl lo hi).
Proof.
  unfold range_incl. apply Finite.Injective_map_NoDup; [|apply seq_NoDup].
  intros i j H. lia.
Qed.

Lemma StronglySorted_map (A B : Type) (R : A -> A -> Prop) (S : B -> B -> Prop)
    (f : A -> B) (l : list A) :
  (forall a b, R a b -> S (f a) (f b)) ->
  StronglySorted R l -> StronglySorted S (map f l).
Proof.
  intros H. induction 1 as [|x l Hs IH Hx]; simpl; constructor; [exact IH|].
  rewrite Forall_forall in *. intros y Hy. apply in_map_iff in Hy.
  destruct Hy as [a [<- Ha]]. apply H, Hx, Ha.
Qed.

Lemma filter_map_comm (A B : Type) (p : B -> bool) (f : A -> B) (l : list A) :
  filter p (map f l) = map f (filter (fun a => p (f a)) l).
Proof.
  induction l as [|a l IH]; simpl; [reflexivity|].
  destruct (p (f a)); simpl; now rewrite IH.
Qed.

Lemma filter_nil (A : Type) (p : A -> bool) (l : list A) :
  (forall a, In a l -> p a = false) -> filter p l = [].
Proof.
  induction l as [|a l IH]; intros H; simpl; [reflexivity|].
  rewrite (H a) by now left. apply IH. intros b Hb. apply H. now right.
Qed.

(** In a list without duplicates a test that at most one element passes
    selects nothing or that element. *)
Lemma filter_at_most_one (A : Type) (p : A -> bool) (l : list A) :
  NoDup l ->
  (forall a b, In a l -> In b l -> p a = true -> p b = true -> a = b) ->
  filter p l = [] \/ exists a, In a l /\ p a = true /\ filter p l = [a].
Proof.
  induction 1 as [|x l Hx Hnd IH]; intros Huniq; simpl; [now left|].
  destruct (p x) eqn:E.
  - right. exists x. split; [now left|]. split; [exact E|]. f_equal.
    apply filter_nil. intros a Ha. destruct (p a) eqn:Ea; [|reflexivity].
    assert (x = a) by (apply Huniq; auto; [now left | now right]).
    subst. contradiction.
  - destruct IH as [IH|[a [Ha [Hp IH]]]].
    + intros a b Ha Hb. apply Huniq; now right.
    + now left.
    + right. exists a. split; [now right|]. now split.
Qed.

Lemma grouped_seasons_closed (final_df : DataFrame) :
  grouped_seasons final_df
  = map (fun s => let g := filter (in_season s) final_df in
                  (s, (Z.of_nat (List.length g), sum_skipna (map goals g))))
        (groupby_keys (map season_name final_df)).
Proof.
  unfold grouped_seasons. apply sorted_id.
  eapply StronglySorted_map; [|apply groupby_keys_sorted].
  intros a b H. exact H.
Qed.

Lemma map_flat_map_single (A B C : Type) (h : B -> C) (f : A -> list B) (g : A -> C)
    (l : list A) :
  (forall a, map h (f a) = [g a]) -> map h (flat_map f l) = map g l.
Proof.
  intros H. induction l as [|a l IH]; simpl; [reflexivity|].
  now rewrite map_app, H, IH.
Qed.

(** Left merge, labels and zero fill, for any list of years. *)
Lemma merge_left_rows (final_df : DataFrame) (years : list Z) :
  Forall (fun r => season_well_formed (season_name r) = true) final_df ->
  map finish_row
    (merge_left years
       (map (fun s => let g := filter (in_season s) final_df in
                      (start_year s, (Z.of_nat (List.length g), sum_skipna (map goals g))))
            (groupby_keys (map season_name final_df))))
  = map (season_row final_df) years.
Proof.
  intros Hwf. rewrite Forall_forall in Hwf.
  set (keys := groupby_keys (map season_name final_df)).
  assert (Hkeys : forall s, In s keys -> s = season_label (start_year s)).
  { intros s Hs. apply (proj1 (groupby_keys_In _ _)) in Hs. apply in_map_iff in Hs.
    destruct Hs as [r [<- Hr]]. now apply season_well_formed_start, Hwf. }
  unfold merge_left. apply map_flat_map_single. intros y.
  rewrite (filter_map_comm (fun row : Z * (Z * Z) => fst row =? y)). cbn [fst].
  destruct (@filter_at_most_one _ (fun s => start_year s =? y) keys) as [E|[s [Hs [Hy E]]]].
  - apply groupby_keys_NoDup.
  - intros a b Ha Hb Pa Pb. apply Z.eqb_eq in Pa, Pb.
    rewrite (Hkeys a Ha), (Hkeys b Hb). congruence.
  - rewrite E. cbn [map]. unfold finish_row, season_row. cbn [fst snd].
    rewrite (@filter_nil _ (starts_in y) final_df); [reflexivity|].
    intros r Hr. unfold starts_in. destruct (start_year (season_name r) =? y) eqn:Er;
      [|reflexivity].
    assert (Hin : In (season_name r) (filter (fun s => start_year s =? y) keys)).
    { apply filter_In. split; [|exact Er].
      apply groupby_keys_In. now apply in_map. }
    rewrite E in Hin. destruct Hin.
  - rewrite E. cbn [map]. unfold finish_row, season_row. cbn [fst snd].
    apply Z.eqb_eq in Hy.
    replace (filter (in_season s) final_df) with (filter (starts_in y) final_df);
      [reflexivity|].
    apply filter_ext_in. intros r Hr. unfold starts_in, in_season.
    destruct (String.eqb_spec (season_name r) s) as [Es|Ns].
    + rewrite Es. now apply Z.eqb_eq.
    + apply Z.eqb_neq. intros Ey. apply Ns.
      rewrite (Hkeys s Hs), Hy, <- Ey.
      now apply season_well_formed_start, Hwf.
Qed.

(** The season table is one row per year from the first to the last start
    year of the rows. *)
Lemma season_stats_closed (final_df : DataFrame) :
  final_df <> [] ->
  Forall (fun r => season_well_formed (season_name r) = true) final_df ->
  exists lo hi,
    (exists r, In r final_df /\ start_year (season_name r) = lo) /\
    (exists r, In r final_df /\ start_year (season_name r) = hi) /\
    (forall r, In r final_df -> lo <= start_year (season_name r) <= hi) /\
    season_stats final_df = Ok (map (season_row final_df) (range_incl lo hi)).
Proof.
  intros Hne Hwf.
  set (keys := groupby_keys (map season_name final_df)).
  assert (Hkey_row : forall s, In s keys <-> exists r, In r final_df /\ season_name r = s).
  { intros s. unfold keys. rewrite groupby_keys_In, in_map_iff.
    split; intros [r [H1 H2]]; exists r; tauto. }
  unfold season_stats. rewrite grouped_seasons_closed. fold keys.
  rewrite (@rmap_ok _ _ _ (fun g : string * (Z * Z) => (start_year (fst g), snd g))).
  2:{ intros [s ag] Hin. apply in_map_iff in Hin. destruct Hin as [s' [[= <- <-] Hs]].
      cbn [fst snd]. apply Hkey_row in Hs. destruct Hs as [r [Hr <-]].
      rewrite Forall_forall in Hwf.
      now rewrite (proj1 (season_well_formed_start _ (Hwf r Hr))). }
  cbn [rbind]. rewrite !map_map. cbn [fst snd].
  destruct (map (fun s => start_year s) keys) as [|y ys] eqn:E.
  { apply map_eq_nil in E. destruct final_df as [|r0 df]; [congruence|].
    assert (Hin : In (season_name r0) keys) by (apply Hkey_row; exists r0; split; [now left | reflexivity]).
    rewrite E in Hin. destruct Hin. }
  destruct (fold_min_spec ys y) as [Hlo_in Hlo_le].
  destruct (fold_max_spec ys y) as [Hhi_in Hhi_le].
  rewrite <- E in Hlo_in, Hlo_le, Hhi_in, Hhi_le.
  exists (fold_left Z.min ys y), (fold_left Z.max ys y).
  split.
  { apply in_map_iff in Hlo_in. destruct Hlo_in as [s [Hs Hin]].
    apply Hkey_row in Hin. destruct Hin as [r [Hr <-]]. now exists r. }
  split.
  { apply in_map_iff in Hhi_in. destruct Hhi_in as [s [Hs Hin]].
    apply Hkey_row in Hin. destruct Hin as [r [Hr <-]]. now exists r. }
  split.
  { intros r Hr.
    assert (Hin : In (start_year (season_name r)) (map (fun s => start_year s) keys)).
    { apply in_map_iff. exists (season_name r). split; [reflexivity|].
      apply Hkey_row. now exists r. }
    split; [apply Hlo_le | apply Hhi_le]; exact Hin. }
  f_equal. now apply merge_left_rows.
Qed.

(** C1. Season densification: for a non-empty row set whose season names
    are labels "Y/(Y+1)", the season table has exactly one row for every
    year from the least to the greatest start year of the rows, in ascending
    order; the row of year Y is labelled "Y/(Y+1)" and holds the number of
    rows of that season and the sum of their goals, both 0 when no row is of
    that season.  Rows of 2015/2016 and 2018/2019 only give the four seasons
    2015/2016 to 2018/2019 with zeros in 2016/2017 and 2017/2018. *)
Theorem season_densification (final_df : DataFrame) :
  final_df <> [] ->
  Forall (fun r => season_well_formed (season_name r) = true) final_df ->
  exists lo hi,
    (exists r, In r final_df /\ start_year (season_name r) = lo) /\
    (exists r, In r final_df /\ start_year (season_name r) = hi) /\
    (forall r, In r final_df -> lo <= start_year (season_name r) <= hi) /\
    season_stats final_df = Ok (map (season_row final_df) (range_incl lo hi)) /\
    (forall y, In y (range_incl lo hi) <-> lo <= y <= hi) /\
    NoDup (range_incl lo hi) /\
    (forall y, Season (season_row final_df y) = season_label y) /\
    (forall y, (forall r, In r final_df -> start_year (season_name r) <> y) ->
               Appearances (season_row final_df y) = 0 /\
               Goals (season_row final_df y) = 0) /\
    ((forall r, In r final_df ->
                season_name r = "2015/2016" \/ season_name r = "2018/2019") ->
     (exists r, In r final_df /\ season_name r = "2015/2016") ->
     (exists r, In r final_df /\ season_name r = "2018/2019") ->
     season_stats final_df
     = Ok [mkSeasonStat "2015/2016"
             (Z.of_nat (List.length (filter (starts_in 2015) final_df)))
             (sum_skipna (map goals (filter (starts_in 2015) final_df)));
           mkSeasonStat "2016/2017" 0 0;
           mkSeasonStat "2017/2018" 0 0;
           mkSeasonStat "2018/2019"
             (Z.of_nat (List.length (filter (starts_in 2018) final_df)))
             (sum_skipna (map goals (filter (starts_in 2018) final_df)))]).
Proof.
  intros Hne Hwf.
  destruct (season_stats_closed Hne Hwf) as [lo [hi [Hlo [Hhi [Hall Htbl]]]]].
  assert (Hzero : forall y, (forall r, In r final_df -> start_year (season_name r) <> y) ->
                            filter (starts_in y) final_df = []).
  { intros y Hy. apply filter_nil. intros r Hr. apply Z.eqb_neq. now apply Hy. }
  exists lo, hi.
  split; [exact Hlo|]. split; [exact Hhi|]. split; [exact Hall|].
  split; [exact Htbl|]. split; [intros y; apply range_incl_In|].
  split; [apply range_incl_NoDup|]. split; [reflexivity|].
  split.
  - intros y Hy. unfold season_row. cbn [Appearances Goals].
    rewrite (Hzero y Hy). now split.
  - intros Honly [ra [Hra Sa]] [rb [Hrb Sb]].
    assert (Hyears : forall r, In r final_df ->
              start_year (season_name r) = 2015 \/ start_year (season_name r) = 2018).
    { intros r Hr. destruct (Honly r Hr) as [-> | ->]; [now left | now right]. }
    assert (Ea : start_year (season_name ra) = 2015) by now rewrite Sa.
    assert (Eb : start_year (season_name rb) = 2018) by now rewrite Sb.
    assert (lo = 2015).
    { destruct Hlo as [r [Hr Hl]]. destruct (Hyears r Hr); [congruence|].
      pose proof (Hall ra Hra). lia. }
    assert (hi = 2018).
    { destruct Hhi as [r [Hr Hh]]. destruct (Hyears r Hr); [|congruence].
      pose proof (Hall rb Hrb). lia. }
    subst lo hi. rewrite Htbl. f_equal.
    change (range_incl 2015 2018) with [2015; 2016; 2017; 2018]. cbn [map].
    unfold season_row.
    rewrite (Hzero 2016), (Hzero 2017).
    + reflexivity.
    + intros r Hr. destruct (Hyears r Hr); lia.
    + intros r Hr. destruct (Hyears r Hr); lia.
Qed.

Lemma season_densification_witness :
  densification_rows <> [] /\
  Forall (fun r => season_well_formed (season_name r) = true) densification_rows /\
  season_stats densification_rows
  = Ok [mkSeasonStat "2015/2016"
          (Z.of_nat (List.length (filter (starts_in 2015) densification_rows)))
          (sum_skipna (map goals (filter (starts_in 2015) densification_rows)));
        mkSeasonStat "2016/2017" 0 0;
        mkSeasonStat "2017/2018" 0 0;
        mkSeasonStat "2018/2019"
          (Z.of_nat (List.length (filter (starts_in 2018) densification_rows)))
          (sum_skipna (map goals (filter (starts_in 2018) densification_rows)))].
Proof.
  assert (Hne : densification_rows <> []) by discriminate.
  assert (Hwf : Forall (fun r => season_well_formed (season_name r) = true)
                       densification_rows) by (repeat constructor).
  split; [exact Hne|]. split; [exact Hwf|].
  destruct (season_densification Hne Hwf) as [lo [hi [_ [_ [_ [_ [_ [_ [_ [_ H]]]]]]]]]].
  apply H.
  - intros r [<-|[<-|[<-|[]]]]; auto.
  - exists (appearance "A" "2015/2016" (Some 2)). split; [right; now left | reflexivity].
  - exists (appearance "A" "2018/2019" (Some 1)). split; [now left | reflexivity].
Defined.

Example densification_example :
  season_stats (replace_sentinel densification_rows)
  = Ok [mkSeasonStat "2015/2016" 2 2; mkSeasonStat "2016/2017" 0 0;
        mkSeasonStat "2017/2018" 0 0; mkSeasonStat "2018/2019" 1 1].
Proof. vm_compute. reflexivity. Qed.

(** * Further properties of the aggregation stage *)

(** ** The summary does not depend on the order of the rows *)

Lemma Z_leb_antisym (x y : Z) : (x <=? y) = true -> (y <=? x) = true -> x = y.
Proof. rewrite !Z.leb_le. lia. Qed.

Lemma dropna_perm (A : Type) (c1 c2 : list (option A)) :
  Permutation c1 c2 -> Permutation (dropna c1) (dropna c2).
Proof.
  induction 1 as [|x l1 l2 HP IH|x y l|l1 l2 l3 H1 IH1 H2 IH2]; simpl.
  - constructor.
  - destruct x; [constructor|]; exact IH.
  - destruct x, y; try apply Permutation_refl. apply perm_swap.
  - eapply perm_trans; eassumption.
Qed.

Lemma sum_Z_perm (l1 l2 : list Z) : Permutation l1 l2 -> sum_Z l1 = sum_Z l2.
Proof.
  unfold sum_Z. induction 1; simpl; lia.
Qed.

Lemma sum_skipna_perm (c1 c2 : list (option Z)) :
  Permutation c1 c2 -> sum_skipna c1 = sum_skipna c2.
Proof. intros HP. apply sum_Z_perm, dropna_perm, HP. Qed.

Lemma count_of_perm (A : Type) (eqb : A -> A -> bool) (x : A) (l1 l2 : list A) :
  Permutation l1 l2 -> count eqb x l1 = count eqb x l2.
Proof. intros HP. unfold count. apply Permutation_length, filter_perm, HP. Qed.

Lemma fold_max_perm (l1 l2 : list nat) :
  Permutation l1 l2 -> fold_right Nat.max 0%nat l1 = fold_right Nat.max 0%nat l2.
Proof. induction 1; simpl; lia. Qed.

Lemma max_count_perm (A : Type) (eqb : A -> A -> bool) (l1 l2 : list A) :
  Permutation l1 l2 -> max_count eqb l1 = max_count eqb l2.
Proof.
  intros HP. unfold max_count.
  rewrite (map_ext (fun x => count eqb x l1) (fun x => count eqb x l2))
    by (intros x; now apply count_of_perm).
  apply fold_max_perm, Permutation_map, HP.
Qed.

Section ModePerm.
Variable A : Type.
Variable eqb leb : A -> A -> bool.
Hypothesis eqb_eq : forall x y, eqb x y = true <-> x = y.
Hypothesis leb_total : forall x y, leb x y = true \/ leb y x = true.
Hypothesis leb_trans : forall x y z, leb x y = true -> leb y z = true -> leb x z = true.
Hypothesis leb_antisym : forall x y, leb x y = true -> leb y x = true -> x = y.

Lemma mode_perm (c1 c2 : list (option A)) :
  Permutation c1 c2 -> mode eqb leb c1 = mode eqb leb c2.
Proof.
  intros HP. apply dropna_perm in HP. unfold mode.
  apply sorted_of_perm; try assumption.
  rewrite (max_count_perm eqb HP).
  rewrite (filter_ext (fun x => Nat.eqb (count eqb x (dropna c1)) (max_count eqb (dropna c2)))
                      (fun x => Nat.eqb (count eqb x (dropna c2)) (max_count eqb (dropna c2))))
    by (intros x; now rewrite (count_of_perm eqb x HP)).
  apply filter_perm, unique_perm; assumption.
Qed.
End ModePerm.

Lemma grouped_seasons_perm (df df' : DataFrame) :
  Permutation df df' -> grouped_seasons df' = grouped_seasons df.
Proof.
  intros HP. unfold grouped_seasons.
  rewrite (groupby_keys_perm (Permutation_map season_name (Permutation_sym HP))).
  f_equal. apply map_ext. intros s. cbv zeta.
  assert (Hf : Permutation (filter (in_season s) df') (filter (in_season s) df))
    by (apply filter_perm, Permutation_sym, HP).
  rewrite (Permutation_length Hf).
  now rewrite (sum_skipna_perm (Permutation_map goals Hf)).
Qed.

Lemma season_stats_perm (df df' : DataFrame) :
  Permutation df df' -> season_stats df' = season_stats df.
Proof. intros HP. unfold season_stats. now rewrite (grouped_seasons_perm HP). Qed.

Lemma aggregate_perm (filtered filtered' : DataFrame) :
  Permutation filtered filtered' -> aggregate filtered' = aggregate filtered.
Proof.
  intros HP0.
  assert (HP : Permutation (replace_sentinel filtered) (replace_sentinel filtered'))
    by (apply Permutation_map, HP0).
  unfold aggregate.
  set (df := replace_sentinel filtered) in *.
  set (df' := replace_sentinel filtered') in *.
  assert (Hmap : forall (B : Type) (f : Row -> B), Permutation (map f df') (map f df))
    by (intros B f; apply Permutation_map, Permutation_sym, HP).
  assert (Hnat : nationality_stat df' = nationality_stat df).
  { unfold nationality_stat. f_equal.
    apply (@mode_perm _ String.eqb String.leb String.eqb_eq String.leb_total
             string_leb_trans String.leb_antisym), Hmap. }
  assert (Hnos : number_of_seasons_stat df' = number_of_seasons_stat df).
  { unfold number_of_seasons_stat. f_equal.
    apply (@mode_perm _ Z.eqb Z.leb Z.eqb_eq Z_leb_total Z_leb_trans Z_leb_antisym), Hmap. }
  assert (Hpos : main_position df' = main_position df).
  { unfold main_position.
    rewrite (@mode_perm _ String.eqb String.leb String.eqb_eq String.leb_total
               string_leb_trans String.leb_antisym
               (map player_position (filter position_known df'))
               (map player_position (filter position_known df))); [reflexivity|].
    apply Permutation_map, filter_perm, Permutation_sym, HP. }
  assert (Hshirt : shirt_number_stat df' = shirt_number_stat df).
  { unfold shirt_number_stat.
    rewrite (@mode_perm _ Z.eqb Z.leb Z.eqb_eq Z_leb_total Z_leb_trans
               Z_leb_antisym
               (map shirt_number (filter shirt_known df'))
               (map shirt_number (filter shirt_known df))); [reflexivity|].
    apply Permutation_map, filter_perm, Permutation_sym, HP. }
  rewrite Hnat, Hnos, (teams_perm HP), (season_stats_perm HP), Hpos, Hshirt.
  unfold total_appearances, total_goals, total_assists, total_yellows, total_reds,
    total_minutes.
  rewrite (Permutation_length (Permutation_sym HP)).
  rewrite (sum_skipna_perm (Hmap _ goals)), (sum_skipna_perm (Hmap _ assists)),
    (sum_skipna_perm (Hmap _ yellow_cards)), (sum_skipna_perm (Hmap _ red_cards)),
    (sum_skipna_perm (Hmap _ minutes_played)).
  reflexivity.
Qed.

(** ** The season table against the metrics *)

Lemma sum_Z_app (l1 l2 : list Z) : sum_Z (l1 ++ l2) = sum_Z l1 + sum_Z l2.
Proof. unfold sum_Z. induction l1; simpl; lia. Qed.

Lemma sum_Z_map_add (A : Type) (f g : A -> Z) (l : list A) :
  sum_Z (map (fun a => f a + g a) l) = sum_Z (map f l) + sum_Z (map g l).
Proof. unfold sum_Z. induction l; simpl; lia. Qed.

Lemma sum_Z_zero (A : Type) (l : list A) : sum_Z (map (fun _ => 0) l) = 0.
Proof. unfold sum_Z. induction l; simpl; lia. Qed.

(** Among distinct years exactly one is the year of the row. *)
Lemma sum_Z_indicator (k v : Z) (ys : list Z) :
  NoDup ys -> In k ys -> sum_Z (map (fun y => if k =? y then v else 0) ys) = v.
Proof.
  unfold sum_Z. induction 1 as [|y ys Hy Hnd IH]; intros Hin; [destruct Hin|].
  simpl. destruct Hin as [->|Hin].
  - rewrite Z.eqb_refl.
    rewrite (map_ext_in (fun y => if k =? y then v else 0) (fun _ => 0)).
    + pose proof (sum_Z_zero ys) as Hz. unfold sum_Z in Hz. rewrite Hz. lia.
    + intros z Hz. destruct (Z.eqb_spec k z); [subst; contradiction | reflexivity].
  - destruct (Z.eqb_spec k y); [subst; contradiction|]. rewrite IH by exact Hin. lia.
Qed.

(** Splitting the rows by year loses and repeats nothing. *)
Lemma sum_by_year (weight : Row -> Z) (key : Row -> Z) (ys : list Z) (l : DataFrame) :
  NoDup ys -> (forall r, In r l -> In (key r) ys) ->
  sum_Z (map (fun y => sum_Z (map weight (filter (fun r => key r =? y) l))) ys)
  = sum_Z (map weight l).
Proof.
  intros Hnd. induction l as [|r l IH]; intros Hin.
  - simpl. apply sum_Z_zero.
  - rewrite (map_ext _ (fun y => (if key r =? y then weight r else 0)
                                 + sum_Z (map weight (filter (fun r => key r =? y) l)))).
    + rewrite sum_Z_map_add, sum_Z_indicator, IH; auto.
      * intros r' Hr'. apply Hin. now right.
      * apply Hin. now left.
    + intros y. simpl. destruct (key r =? y); reflexivity.
Qed.

Lemma length_as_sum (l : DataFrame) :
  Z.of_nat (List.length l) = sum_Z (map (fun _ => 1) l).
Proof.
  unfold sum_Z. induction l as [|r l IH]; [reflexivity|].
  cbn [List.length map fold_right]. rewrite Nat2Z.inj_succ. lia.
Qed.

Lemma sum_skipna_goals (l : DataFrame) :
  sum_skipna (map goals l) = sum_Z (map goal_value l).
Proof.
  unfold sum_skipna, sum_Z, goal_value. induction l as [|r l IH]; simpl; [reflexivity|].
  destruct (goals r); simpl; lia.
Qed.

(** X1. The chart agrees with the metrics: over the season table the
    appearances add up to the appearance count and the goals to the goal
    sum. *)
Theorem season_table_totals (final_df : DataFrame) :
  final_df <> [] ->
  Forall (fun r => season_well_formed (season_name r) = true) final_df ->
  exists table,
    season_stats final_df = Ok table /\
    sum_Z (map Appearances table) = total_appearances final_df /\
    sum_Z (map Goals table) = total_goals final_df.
Proof.
  intros Hne Hwf.
  destruct (season_stats_closed Hne Hwf) as [lo [hi [_ [_ [Hall Htbl]]]]].
  exists (map (season_row final_df) (range_incl lo hi)).
  split; [exact Htbl|].
  assert (Hin : forall r, In r final_df ->
                          In (start_year (season_name r)) (range_incl lo hi)).
  { intros r Hr. apply range_incl_In, Hall, Hr. }
  rewrite !map_map. unfold season_row. cbn [Appearances Goals]. split.
  - unfold total_appearances. rewrite length_as_sum.
    rewrite <- (@sum_by_year (fun _ => 1) (fun r => start_year (season_name r))
                  _ final_df (range_incl_NoDup lo hi) Hin).
    f_equal. apply map_ext. intros y. apply length_as_sum.
  - unfold total_goals. rewrite sum_skipna_goals.
    rewrite <- (@sum_by_year goal_value (fun r => start_year (season_name r))
                  _ final_df (range_incl_NoDup lo hi) Hin).
    f_equal. apply map_ext. intros y. apply sum_skipna_goals.
Qed.

Lemma season_table_totals_witness :
  densification_rows <> [] /\
  exists table,
    season_stats densification_rows = Ok table /\
    sum_Z (map Appearances table) = total_appearances densification_rows.
Proof.
  assert (Hne : densification_rows <> []) by discriminate.
  assert (Hwf : Forall (fun r => season_well_formed (season_name r) = true)
                       densification_rows) by (repeat constructor).
  split; [exact Hne|].
  destruct (season_table_totals Hne Hwf) as [table [H1 [H2 _]]].
  exists table. split; assumption.
Defined.

(** ** The shape of the season table *)

Lemma range_incl_cons (lo hi : Z) :
  lo <= hi -> range_incl lo hi = lo :: range_incl (lo + 1) hi.
Proof.
  intros H. unfold range_incl.
  replace (Z.to_nat (hi + 1 - lo)) with (S (Z.to_nat (hi + 1 - (lo + 1)))) by lia.
  cbn [seq map]. f_equal; [lia|].
  rewrite <- seq_shift, map_map. apply map_ext. intros i. lia.
Qed.

Lemma range_incl_snoc (lo hi : Z) :
  lo <= hi -> range_incl lo hi = range_incl lo (hi - 1) ++ [hi].
Proof.
  intros H. unfold range_incl.
  replace (Z.to_nat (hi + 1 - lo)) with (S (Z.to_nat (hi - 1 + 1 - lo))) by lia.
  rewrite seq_S, map_app. cbn [map Nat.add]. do 2 f_equal. lia.
Qed.

Lemma range_incl_length (lo hi : Z) :
  List.length (range_incl lo hi) = Z.to_nat (hi + 1 - lo).
Proof. unfold range_incl. now rewrite length_map, length_seq. Qed.

Lemma season_row_played (final_df : DataFrame) (r : Row) :
  In r final_df -> 1 <= Appearances (season_row final_df (start_year (season_name r))).
Proof.
  intros Hr. unfold season_row. cbn [Appearances].
  assert (Hin : In r (filter (starts_in (start_year (season_name r))) final_df)).
  { apply filter_In. split; [exact Hr|]. unfold starts_in. apply Z.eqb_refl. }
  destruct (filter (starts_in (start_year (season_name r))) final_df); [destruct Hin|].
  cbn [List.length]. lia.
Qed.

(** X2. The season table runs from the first to the last season of the rows:
    it has [hi - lo + 1] rows labelled with the consecutive years, its first
    and its last row are seasons with appearances, and every season name of
    the rows is the label of one of its rows. *)
Theorem season_table_shape (final_df : DataFrame) :
  final_df <> [] ->
  Forall (fun r => season_well_formed (season_name r) = true) final_df ->
  exists lo hi table,
    season_stats final_df = Ok table /\
    lo <= hi /\
    Z.of_nat (List.length table) = hi - lo + 1 /\
    map Season table = map season_label (range_incl lo hi) /\
    (forall d, 1 <= Appearances (hd d table) /\ 1 <= Appearances (last table d)) /\
    (forall r, In r final_df -> In (season_name r) (map Season table)).
Proof.
  intros Hne Hwf.
  destruct (season_stats_closed Hne Hwf) as [lo [hi [Hlo [Hhi [Hall Htbl]]]]].
  assert (Hle : lo <= hi).
  { destruct Hlo as [r [Hr Hl]]. pose proof (Hall r Hr). lia. }
  exists lo, hi, (map (season_row final_df) (range_incl lo hi)).
  split; [exact Htbl|]. split; [exact Hle|]. split.
  { rewrite length_map, range_incl_length. lia. }
  split.
  { rewrite map_map. reflexivity. }
  split.
  { intros d. split.
    - rewrite (range_incl_cons Hle). cbn [map hd].
      destruct Hlo as [r [Hr <-]]. now apply season_row_played.
    - rewrite (range_incl_snoc Hle), map_app. cbn [map]. rewrite last_last.
      destruct Hhi as [r [Hr <-]]. now apply season_row_played. }
  intros r Hr. rewrite map_map. apply in_map_iff.
  exists (start_year (season_name r)). split.
  - cbn [Season season_row]. rewrite Forall_forall in Hwf.
    symmetry. now apply season_well_formed_start, Hwf.
  - apply range_incl_In, Hall, Hr.
Qed.

Lemma season_table_shape_witness :
  densification_rows <> [] /\
  exists lo hi table,
    season_stats densification_rows = Ok table /\
    Z.of_nat (List.length table) = hi - lo + 1.
Proof.
  assert (Hne : densification_rows <> []) by discriminate.
  assert (Hwf : Forall (fun r => season_well_formed (season_name r) = true)
                       densification_rows) by (repeat constructor).
  split; [exact Hne|].
  destruct (season_table_shape Hne Hwf) as [lo [hi [table [H1 [_ [H2 _]]]]]].
  exists lo, hi, table. split; assumption.
Defined.

(** ** Labels and start years *)

Lemma label_round_trip_all : forallb label_round_trip (range_incl 1000 9999) = true.
Proof. vm_compute. reflexivity. Qed.

(** X3. For every four-digit year the rebuilt label reads back as that year, so
    the labels of the season table are season names of the table's own
    format; the labels of 999 and 10000 do not read back. *)
Theorem season_label_round_trip (y : Z) :
  1000 <= y <= 9999 ->
  season_start (season_label y) = Ok y /\
  four_digits (season_label y) = true /\
  season_well_formed (season_label y) = true /\
  season_start (season_label 999) = Raise ValueError /\
  season_start (season_label 10000) = Ok 1000.
Proof.
  intros Hy.
  pose proof label_round_trip_all as Hall. rewrite forallb_forall in Hall.
  specialize (Hall y (proj2 (range_incl_In 1000 9999 y) Hy)).
  unfold label_round_trip in Hall. unfold season_well_formed.
  destruct (season_start (season_label y)) as [y'|e]; [|discriminate].
  apply andb_true_iff in Hall. destruct Hall as [He Hd]. apply Z.eqb_eq in He. subst y'.
  split; [reflexivity|]. split; [exact Hd|]. split; [apply String.eqb_refl|].
  split; reflexivity.
Qed.

Lemma season_label_round_trip_witness :
  1000 <= 1990 <= 9999 /\ season_start (season_label 1990) = Ok 1990.
Proof.
  split; [lia|]. apply (@season_label_round_trip 1990). lia.
Defined.

(** ** When the aggregation succeeds *)

Lemma season_stats_ok (final_df : DataFrame) :
  final_df <> [] ->
  Forall (fun r => four_digits (season_name r) = true) final_df ->
  exists table, season_stats final_df = Ok table.
Proof.
  intros Hne Hwf. rewrite Forall_forall in Hwf.
  unfold season_stats. rewrite grouped_seasons_closed.
  rewrite (@rmap_ok _ _ _ (fun g : string * (Z * Z) => (start_year (fst g), snd g))).
  - cbn [rbind]. rewrite !map_map. cbn [fst snd].
    destruct (map (fun s => start_year s) (groupby_keys (map season_name final_df)))
      as [|y ys] eqn:E; [|eexists; reflexivity].
    apply map_eq_nil in E. destruct final_df as [|r0 df]; [congruence|].
    assert (Hin : In (season_name r0) (groupby_keys (map season_name (r0 :: df))))
      by (apply groupby_keys_In; now left).
    rewrite E in Hin. destruct Hin.
  - intros [s ag] Hin. apply in_map_iff in Hin. destruct Hin as [s' [[= <- <-] Hs]].
    cbn [fst snd]. apply (proj1 (groupby_keys_In _ _)) in Hs. apply in_map_iff in Hs.
    destruct Hs as [r [<- Hr]]. now rewrite (four_digits_start _ (Hwf r Hr)).
Qed.

Lemma replace_sentinel_seasons (filtered : DataFrame) :
  Forall (fun r => four_digits (season_name r) = true) filtered ->
  Forall (fun r => four_digits (season_name r) = true) (replace_sentinel filtered).
Proof.
  intros H. unfold replace_sentinel. apply Forall_map. exact H.
Qed.

Lemma aggregate_ok (filtered : DataFrame) :
  Forall (fun r => four_digits (season_name r) = true) filtered ->
  dropna (map nationality filtered) <> [] ->
  live (map number_of_seasons filtered) <> [] ->
  exists s, aggregate filtered = Ok s.
Proof.
  intros Hwf Hn Hk. unfold aggregate.
  assert (Hnat : map nationality (replace_sentinel filtered) = map nationality filtered).
  { unfold replace_sentinel. rewrite map_map. reflexivity. }
  unfold nationality_stat, number_of_seasons_stat. rewrite Hnat.
  destruct (mode String.eqb String.leb (map nationality filtered)) as [|n rest] eqn:En.
  { apply (mode_nil String.eqb String.leb String.eqb_eq) in En. contradiction. }
  cbn [iat0 rbind].
  destruct (mode Z.eqb Z.leb (map number_of_seasons (replace_sentinel filtered)))
    as [|k rest'] eqn:Ek.
  { apply (mode_nil Z.eqb Z.leb Z.eqb_eq) in Ek. rewrite seasons_column in Ek.
    contradiction. }
  cbn [iat0 rbind].
  assert (Hne : replace_sentinel filtered <> []).
  { destruct filtered; [now elim Hn | discriminate]. }
  unfold teams. rewrite (team_order_closed (replace_sentinel_seasons Hwf)). cbn [rbind].
  destruct (season_stats_ok Hne (replace_sentinel_seasons Hwf)) as [table ->].
  cbn [rbind]. eexists. reflexivity.
Qed.

(** What a summary holds, read off a successful aggregation. *)
Lemma aggregate_fields (filtered : DataFrame) (s : Summary) :
  aggregate filtered = Ok s ->
  s_appearances s = Z.of_nat (List.length filtered) /\
  nationality_stat (replace_sentinel filtered) = Ok (s_nationality s) /\
  number_of_seasons_stat (replace_sentinel filtered) = Ok (s_number_of_seasons s).
Proof.
  unfold aggregate.
  destruct (nationality_stat (replace_sentinel filtered)) as [n|e]; [|discriminate].
  destruct (number_of_seasons_stat (replace_sentinel filtered)) as [k|e]; [|discriminate].
  destruct (teams (replace_sentinel filtered)) as [t|e]; [|discriminate].
  destruct (season_stats (replace_sentinel filtered)) as [tbl|e]; [|discriminate].
  cbn [rbind]. intros [= <-]. cbn [s_appearances s_nationality s_number_of_seasons].
  unfold total_appearances, replace_sentinel. rewrite length_map. now repeat split.
Qed.

(** X4. On rows whose season names start with four digits the aggregation
    succeeds exactly when some row has a nationality and some row has a
    number of seasons other than NULL and -1; every other row set, the empty
    one included, raises [IndexError].  A summary counts at least one
    appearance: one per row. *)
Theorem aggregate_succeeds (filtered : DataFrame) :
  Forall (fun r => four_digits (season_name r) = true) filtered ->
  match dropna (map nationality filtered), live (map number_of_seasons filtered) with
  | _ :: _, _ :: _ =>
      exists s, aggregate filtered = Ok s /\
                s_appearances s = Z.of_nat (List.length filtered) /\
                1 <= s_appearances s
  | _, _ => aggregate filtered = Raise IndexError
  end.
Proof.
  intros Hwf.
  assert (Hnat : map nationality (replace_sentinel filtered) = map nationality filtered).
  { unfold replace_sentinel. rewrite map_map. reflexivity. }
  destruct (dropna (map nationality filtered)) as [|n0 ns] eqn:Dn.
  { unfold aggregate, nationality_stat. rewrite Hnat.
    apply (mode_nil String.eqb String.leb String.eqb_eq) in Dn. now rewrite Dn. }
  destruct (live (map number_of_seasons filtered)) as [|k0 ks] eqn:Dk.
  { unfold aggregate, nationality_stat, number_of_seasons_stat.
    rewrite <- seasons_column in Dk.
    apply (mode_nil Z.eqb Z.leb Z.eqb_eq) in Dk. rewrite Dk.
    destruct (mode String.eqb String.leb (map nationality (replace_sentinel filtered)));
      reflexivity. }
  destruct (@aggregate_ok filtered Hwf) as [s Hs]; [now rewrite Dn | now rewrite Dk|].
  exists s. split; [exact Hs|].
  destruct (@aggregate_fields filtered s Hs) as [Ha _]. split; [exact Ha|].
  rewrite Ha. destruct filtered; [discriminate Dn|]. cbn [List.length]. lia.
Qed.

Lemma aggregate_succeeds_witness :
  Forall (fun r => four_digits (season_name r) = true) scenario_rows /\
  exists s, aggregate scenario_rows = Ok s /\ s_appearances s = 2.
Proof.
  assert (Hwf : Forall (fun r => four_digits (season_name r) = true) scenario_rows)
    by (repeat constructor).
  split; [exact Hwf|].
  destruct (aggregate_succeeds Hwf) as [s [H1 [H2 _]]].
  exists s. split; assumption.
Defined.

(** * Further properties of the query layer *)

(** ** What the loaders return *)

Lemma dropna_In (A : Type) (col : list (option A)) (v : A) :
  In v (dropna col) <-> In (Some v) col.
Proof.
  induction col as [|[a|] col IH]; simpl; [tauto| |].
  - rewrite IH. split; intros [H|H]; auto; [left; congruence | left; congruence].
  - rewrite IH. split; [auto | intros [H|H]; [discriminate | exact H]].
Qed.

Lemma sql_max_some (col : list (option Z)) (n : Z) :
  sql_max col = Some n ->
  In (Some n) col /\ forall v, In (Some v) col -> v <= n.
Proof.
  unfold sql_max. destruct (dropna col) as [|v vs] eqn:E; [discriminate|].
  intros [= <-]. destruct (fold_max_spec vs v) as [Hin Hle]. rewrite <- E in Hin, Hle.
  split; [now apply dropna_In|]. intros u Hu. apply Hle. now apply dropna_In.
Qed.

Lemma sql_max_none (col : list (option Z)) :
  sql_max col = None -> forall v, ~ In (Some v) col.
Proof.
  unfold sql_max. destruct (dropna col) as [|v vs] eqn:E; [|discriminate].
  intros _ u Hu. apply dropna_In in Hu. rewrite E in Hu. destruct Hu.
Qed.

Lemma select_player_data_In (m : Z) (p : string) (comps : list string)
    (t : DataFrame) (r : Row) :
  In r (select_player_data m p comps t) <->
  In r t /\ at_least (number_of_seasons r) m = true /\ player_name r = p /\
  isin (competition_name r) comps = true.
Proof.
  unfold select_player_data. rewrite filter_In, !andb_true_iff, String.eqb_eq. tauto.
Qed.

Lemma select_players_In (m : Z) (comps : list string) (t : DataFrame) (p : string) :
  In p (select_players m comps t) <->
  exists r, In r t /\ player_name r = p /\ at_least (number_of_seasons r) m = true /\
            isin (competition_name r) comps = true.
Proof.
  unfold select_players. rewrite (unique_In String.eqb String.eqb_eq), in_map_iff.
  split.
  - intros [r [Hp Hr]]. apply filter_In in Hr. destruct Hr as [Hin Hc].
    apply andb_true_iff in Hc. exists r. tauto.
  - intros [r [Hin [Hp [H1 H2]]]]. exists r. split; [exact Hp|].
    apply filter_In. split; [exact Hin|]. now rewrite H1, H2.
Qed.

(** X5. [load_number_of_seasons] returns a value some selected row has and no
    selected row exceeds: the slider's upper end is the largest number of
    seasons among the rows of the selected competitions. *)
Theorem load_number_of_seasons_greatest (comps : list string) (w : World) (n : Z) :
  coherent w ->
  fst (load_number_of_seasons comps w) = Ok (MaxSeasons n) ->
  (exists r, In r (table w) /\ isin (competition_name r) comps = true /\
             number_of_seasons r = Some n) /\
  (forall r v, In r (table w) -> isin (competition_name r) comps = true ->
               number_of_seasons r = Some v -> v <= n).
Proof.
  intros Hw H. rewrite (proj1 (load_number_of_seasons_sound comps Hw)) in H.
  unfold number_of_seasons_on in H. destruct comps as [|c0 comps]; [discriminate|].
  unfold select_max_seasons in H.
  destruct (sql_max _) as [k|] eqn:E; [|discriminate]. injection H as <-.
  apply sql_max_some in E. destruct E as [Hin Hle]. split.
  - apply in_map_iff in Hin. destruct Hin as [r [Hn Hr]]. apply filter_In in Hr.
    exists r. tauto.
  - intros r v Hr Hc Hv. apply Hle. rewrite <- Hv. apply in_map.
    apply filter_In. now split.
Qed.

Lemma load_number_of_seasons_greatest_witness :
  coherent (fresh scenario_table) /\
  fst (load_number_of_seasons ["Champions League"] (fresh scenario_table))
  = Ok (MaxSeasons 3) /\
  exists r, In r scenario_table /\ isin (competition_name r) ["Champions League"] = true /\
            number_of_seasons r = Some 3.
Proof.
  split; [apply coherent_fresh|]. split; [reflexivity|].
  exact (proj1 (@load_number_of_seasons_greatest ["Champions League"]
                  (fresh scenario_table) 3 (@coherent_fresh scenario_table) eq_refl)).
Defined.

(** X6. The slider and the player list fit: above the value of
    [load_number_of_seasons] no player is left, and at every threshold up to
    it at least one player is. *)
Theorem players_within_slider (comps : list string) (w w' : World) (n m : Z) :
  coherent w -> coherent w' -> table w' = table w ->
  fst (load_number_of_seasons comps w) = Ok (MaxSeasons n) ->
  (n < m -> fst (load_players m comps w') = Ok []) /\
  (m <= n -> exists p players, fst (load_players m comps w') = Ok (p :: players)).
Proof.
  intros Hw Hw' Ht H.
  rewrite (proj1 (load_number_of_seasons_sound comps Hw)) in H.
  rewrite (proj1 (load_players_sound m comps Hw')), Ht.
  unfold number_of_seasons_on in H. unfold players_on.
  destruct comps as [|c0 comps]; [discriminate|].
  unfold select_max_seasons in H.
  destruct (sql_max _) as [k|] eqn:E; [|discriminate]. injection H as <-.
  apply sql_max_some in E. destruct E as [Hin Hle]. split.
  - intros Hm.
    destruct (sorted String.leb (select_players m (c0 :: comps) (table w)))
      as [|p ps] eqn:Es; [reflexivity|]. exfalso.
    assert (Hp : In p (select_players m (c0 :: comps) (table w))).
    { apply (sorted_In String.leb). rewrite Es. now left. }
    apply select_players_In in Hp. destruct Hp as [r [Hr [_ [Hs Hc]]]].
    unfold at_least in Hs. destruct (number_of_seasons r) as [v|] eqn:Ev; [|discriminate].
    apply Z.leb_le in Hs.
    assert (v <= k); [|lia]. apply Hle. rewrite <- Ev. apply in_map.
    apply filter_In. now split.
  - intros Hm. apply in_map_iff in Hin. destruct Hin as [r [Hn Hr]].
    apply filter_In in Hr. destruct Hr as [Hr Hc].
    assert (Hp : In (player_name r) (sorted String.leb (select_players m (c0 :: comps) (table w)))).
    { apply sorted_In, select_players_In. exists r. repeat split; try assumption.
      unfold at_least. rewrite Hn. now apply Z.leb_le. }
    destruct (sorted String.leb (select_players m (c0 :: comps) (table w))) as [|p ps];
      [destruct Hp|]. now exists p, ps.
Qed.

Lemma players_within_slider_witness :
  coherent (fresh scenario_table) /\
  fst (load_number_of_seasons ["Champions League"] (fresh scenario_table))
  = Ok (MaxSeasons 3) /\
  fst (load_players 4 ["Champions League"] (fresh scenario_table)) = Ok [].
Proof.
  split; [apply coherent_fresh|]. split; [reflexivity|].
  apply (proj1 (@players_within_slider ["Champions League"] (fresh scenario_table)
                  (fresh scenario_table) 3 4 (@coherent_fresh _) (@coherent_fresh _)
                  eq_refl eq_refl)).
  lia.
Defined.

Lemma isin_In (s : string) (l : list string) : isin s l = true <-> In s l.
Proof.
  unfold isin. rewrite existsb_exists. split.
  - intros [x [Hx He]]. apply String.eqb_eq in He. now subst.
  - intros H. exists s. split; [exact H | apply String.eqb_refl].
Qed.

(** X7. A player offered by [load_players] has data: for a non-empty name,
    being in the list of [load_players] is the same as [load_player_data]
    returning at least one row, and the rows returned are exactly the rows
    of the table of that player, in a selected competition, at or above the
    threshold. *)
Theorem offered_player_has_data (m : Z) (p : string) (comps : list string)
    (w w' : World) :
  coherent w -> coherent w' -> table w' = table w ->
  comps <> [] -> p <> "" ->
  exists players player_df,
    fst (load_players m comps w) = Ok players /\
    fst (load_player_data m (Some p) comps w') = Ok player_df /\
    (In p players <-> player_df <> []) /\
    (forall r, In r player_df <->
               In r (table w) /\ at_least (number_of_seasons r) m = true /\
               player_name r = p /\ In (competition_name r) comps).
Proof.
  intros Hw Hw' Ht Hc Hp.
  exists (players_on m comps (table w)), (player_data_on m (Some p) comps (table w)).
  split; [apply (load_players_sound m comps Hw)|].
  split; [rewrite <- Ht; apply (load_player_data_sound m (Some p) comps Hw')|].
  unfold players_on, player_data_on.
  assert (Htr : truthy (Some p) = Some p) by (destruct p; [congruence | reflexivity]).
  rewrite Htr. destruct comps as [|c0 comps]; [congruence|].
  split.
  - rewrite sorted_In, select_players_In. split.
    + intros [r [Hr [Hn [Hs Hi]]]] E.
      assert (Hin : In r (select_player_data m p (c0 :: comps) (table w)))
        by (apply select_player_data_In; tauto).
      rewrite E in Hin. destruct Hin.
    + intros Hne.
      destruct (select_player_data m p (c0 :: comps) (table w)) as [|r rows] eqn:E;
        [congruence|].
      assert (Hin : In r (select_player_data m p (c0 :: comps) (table w)))
        by (rewrite E; now left).
      apply select_player_data_In in Hin. exists r. tauto.
  - intros r. rewrite select_player_data_In, isin_In. tauto.
Qed.

Lemma offered_player_has_data_witness :
  coherent (fresh scenario_table) /\ ["Champions League"] <> [] /\ "John Doe" <> "" /\
  exists players player_df,
    fst (load_players 3 ["Champions League"] (fresh scenario_table)) = Ok players /\
    fst (load_player_data 3 (Some "John Doe") ["Champions League"] (fresh scenario_table))
    = Ok player_df /\
    (In "John Doe" players <-> player_df <> []).
Proof.
  split; [apply coherent_fresh|]. split; [discriminate|]. split; [discriminate|].
  destruct (@offered_player_has_data 3 "John Doe" ["Champions League"]
              (fresh scenario_table) (fresh scenario_table)
              (@coherent_fresh _) (@coherent_fresh _) eq_refl)
    as [players [player_df [H1 [H2 [H3 _]]]]]; try discriminate.
  exists players, player_df. repeat split; try assumption; apply H3.
Defined.

(** X8. Raising the threshold or dropping competitions can only remove players
    from the list. *)
Theorem load_players_shrinks (m m' : Z) (comps comps' : list string) (w w' : World) :
  coherent w -> coherent w' -> table w' = table w ->
  m <= m' -> (forall c, In c comps' -> In c comps) ->
  exists players players',
    fst (load_players m comps w) = Ok players /\
    fst (load_players m' comps' w') = Ok players' /\
    (forall p, In p players' -> In p players).
Proof.
  intros Hw Hw' Ht Hm Hc.
  exists (players_on m comps (table w)), (players_on m' comps' (table w)).
  split; [apply (load_players_sound m comps Hw)|].
  split; [rewrite <- Ht; apply (load_players_sound m' comps' Hw')|].
  intros p. unfold players_on.
  destruct comps' as [|c0' comps']; [intros []|].
  destruct comps as [|c0 comps]; [destruct (Hc c0'); now left|].
  rewrite !sorted_In, !select_players_In.
  intros [r [Hr [Hn [Hs Hi]]]]. exists r. repeat split; try assumption.
  - unfold at_least in *. destruct (number_of_seasons r); [|discriminate].
    apply Z.leb_le in Hs. apply Z.leb_le. lia.
  - apply isin_In, Hc, isin_In, Hi.
Qed.

Lemma load_players_shrinks_witness :
  coherent (fresh scenario_table) /\ 1 <= 3 /\
  exists players players',
    fst (load_players 1 ["Champions League"; "Europa League"] (fresh scenario_table))
    = Ok players /\
    fst (load_players 3 ["Champions League"] (fresh scenario_table)) = Ok players' /\
    (forall p, In p players' -> In p players).
Proof.
  split; [apply coherent_fresh|]. split; [lia|].
  apply (@load_players_shrinks 1 3 ["Champions League"; "Europa League"]
           ["Champions League"] (fresh scenario_table) (fresh scenario_table)
           (@coherent_fresh _) (@coherent_fresh _) eq_refl); [lia|].
  intros c [<-|[]]. now left.
Defined.

(** X9. The competition choices are the competitions of the table, each once,
    in ascending order. *)
Theorem competition_choices (w : World) :
  coherent w ->
  exists loaded,
    fst (load_competitions w) = Ok loaded /\
    NoDup (competition_options loaded) /\
    StronglySorted (fun a b => String.leb a b = true) (competition_options loaded) /\
    (forall c, In c (competition_options loaded) <->
               exists r, In r (table w) /\ competition_name r = c).
Proof.
  intros Hw. exists (select_competitions (table w)).
  split; [apply (load_competitions_sound Hw)|].
  unfold competition_options, select_competitions. split.
  { eapply Permutation_NoDup; [apply Permutation_sym, sorted_perm|].
    apply unique_NoDup. exact String.eqb_eq. }
  split.
  { apply sorted_strongly; [exact String.leb_total | exact string_leb_trans]. }
  intros c. rewrite sorted_In, (unique_In String.eqb String.eqb_eq), in_map_iff.
  split; intros [r [H1 H2]]; exists r; tauto.
Qed.

Lemma competition_choices_witness :
  coherent (fresh scenario_table) /\
  exists loaded,
    fst (load_competitions (fresh scenario_table)) = Ok loaded /\
    NoDup (competition_options loaded).
Proof.
  split; [apply coherent_fresh|].
  destruct (competition_choices (@coherent_fresh scenario_table)) as [loaded [H1 [H2 _]]].
  exists loaded. split; assumption.
Defined.

(** X10. A date returned by [load_latest_game_date] is the greatest date of
    the table: some row has it and no row has a later one; and the call
    returns no date only when no row has one. *)
Theorem load_latest_game_date_greatest (w : World) :
  coherent w ->
  (forall d, fst (load_latest_game_date w) = Ok (Some d) ->
     (exists r, In r (table w) /\ game_date r = Some d) /\
     (forall r d', In r (table w) -> game_date r = Some d' -> d' <= d)) /\
  (fst (load_latest_game_date w) = Ok None ->
   forall r, In r (table w) -> game_date r = None).
Proof.
  intros Hw. rewrite (proj1 (load_latest_game_date_sound Hw)).
  unfold select_latest_game_date. split.
  - intros d [= E]. apply sql_max_some in E. destruct E as [Hin Hle]. split.
    + apply in_map_iff in Hin. destruct Hin as [r [Hd Hr]]. now exists r.
    + intros r d' Hr Hd. apply Hle. rewrite <- Hd. now apply in_map.
  - intros [= E] r Hr. destruct (game_date r) as [d|] eqn:Ed; [|reflexivity].
    exfalso. apply (sql_max_none _ E d). rewrite <- Ed. now apply in_map.
Qed.

Lemma load_latest_game_date_greatest_witness :
  coherent (fresh scenario_table) /\
  fst (load_latest_game_date (fresh scenario_table)) = Ok (Some 17501) /\
  exists r, In r (table (fresh scenario_table)) /\ game_date r = Some 17501.
Proof.
  split; [apply coherent_fresh|]. split; [reflexivity|].
  exact (proj1 (proj1 (load_latest_game_date_greatest (@coherent_fresh scenario_table))
                  17501 eq_refl)).
Defined.

(** ** Statements and parameters *)

Lemma count_char_append (c : ascii) (s1 s2 : string) :
  count_char c (s1 ++ s2)%string = (count_char c s1 + count_char c s2)%nat.
Proof. induction s1 as [|d s1 IH]; simpl; [reflexivity|]. rewrite IH. lia. Qed.

Lemma count_placeholders (comps : list string) :
  count_char "?" (placeholders comps) = List.length comps.
Proof.
  unfold placeholders. induction (List.length comps) as [|n IH]; [reflexivity|].
  destruct n as [|n]; [reflexivity|].
  change (repeat "?" (S (S n))) with ("?" :: repeat "?" (S n)).
  change (String.concat "," ("?" :: repeat "?" (S n)))
    with ("?" ++ "," ++ String.concat "," (repeat "?" (S n)))%string.
  rewrite !count_char_append, IH. reflexivity.
Qed.

(** X11. Every statement has as many [?] placeholders as parameters are passed
    with it, and its text is fixed by the number of selected competitions:
    no selected value is ever written into the text. *)
Theorem placeholders_match_params (q : query) :
  count_char "?" (fst (statement_of q)) = List.length (snd (statement_of q)) /\
  (forall m m' p p' comps comps',
     List.length comps = List.length comps' ->
     max_seasons_text comps = max_seasons_text comps' /\
     fst (statement_of (SelectPlayers m comps)) = fst (statement_of (SelectPlayers m' comps')) /\
     fst (statement_of (SelectPlayerData m p comps))
     = fst (statement_of (SelectPlayerData m' p' comps'))).
Proof.
  split.
  - destruct q as [| |comps|m comps|m p comps]; try reflexivity;
      cbn [statement_of fst snd List.length];
      unfold max_seasons_text, players_text, player_data_text;
      cbn [String.concat]; rewrite !count_char_append, count_placeholders, length_map;
      cbn [count_char]; cbn; lia.
  - intros m m' p p' comps comps' H. cbn [statement_of fst].
    unfold max_seasons_text, players_text, player_data_text, placeholders.
    rewrite H. repeat split.
Qed.

(** ** What a run sends to the server *)

Lemma cache_data_issued (A : Type) (c : call) (enc : A -> value)
    (dec : value -> option A) (body : M A) (w : World) :
  (exists evs, issued (snd (body w)) = issued w ++ evs /\ one_statement evs) ->
  exists evs, issued (snd (cache_data c enc dec body w)) = issued w ++ evs /\
              one_statement evs.
Proof.
  intros [evs [He Ho]]. unfold cache_data.
  destruct (match lookup c w with Some v => dec v | None => None end).
  - exists []. split; [now rewrite app_nil_r | now left].
  - destruct (body w) as [[a|e] w']; exists evs; split; assumption.
Qed.

Lemma ret_issued (A : Type) (a : A) (w : World) :
  exists evs, issued (snd (ret a w)) = issued w ++ evs /\ one_statement evs.
Proof. exists []. split; [simpl; now rewrite app_nil_r | now left]. Qed.

Lemma load_latest_game_date_issued (w : World) :
  exists evs, issued (snd (load_latest_game_date w)) = issued w ++ evs /\ one_statement evs.
Proof.
  apply cache_data_issued. exists [Connect; ReadSql SelectLatestGameDate].
  split; [simpl; now rewrite <- app_assoc|]. right. now eexists.
Qed.

Lemma load_competitions_issued (w : World) :
  exists evs, issued (snd (load_competitions w)) = issued w ++ evs /\ one_statement evs.
Proof.
  apply cache_data_issued. exists [Connect; ReadSql SelectCompetitions].
  split; [simpl; now rewrite <- app_assoc|]. right. now eexists.
Qed.

Lemma load_number_of_seasons_issued (comps : list string) (w : World) :
  exists evs, issued (snd (load_number_of_seasons comps w)) = issued w ++ evs /\
              one_statement evs.
Proof.
  apply cache_data_issued. destruct comps as [|c0 comps]; [apply ret_issued|].
  exists [Connect; ReadSql (SelectMaxSeasons (c0 :: comps))]. split.
  - unfold bind, connect_to_sql_alchemy_server, emit, read_sql. cbn [fst snd].
    destruct (int_of_cell _); simpl; now rewrite <- app_assoc.
  - right. now eexists.
Qed.

Lemma load_players_issued (m : Z) (comps : list string) (w : World) :
  exists evs, issued (snd (load_players m comps w)) = issued w ++ evs /\ one_statement evs.
Proof.
  apply cache_data_issued. destruct comps as [|c0 comps]; [apply ret_issued|].
  exists [Connect; ReadSql (SelectPlayers m (c0 :: comps))].
  split; [simpl; now rewrite <- app_assoc|]. right. now eexists.
Qed.

Lemma truthy_nonempty (p : option string) (q : string) : truthy p = Some q -> q <> "".
Proof. destruct p as [[|a s]|]; simpl; congruence. Qed.

Lemma load_player_data_issued (m : Z) (p : option string) (comps : list string) (w : World) :
  exists evs, issued (snd (load_player_data m p comps w)) = issued w ++ evs /\
              one_statement evs.
Proof.
  apply cache_data_issued.
  destruct (truthy p) as [q|] eqn:E; [|apply ret_issued].
  destruct comps as [|c0 comps]; [apply ret_issued|].
  exists [Connect; ReadSql (SelectPlayerData m q (c0 :: comps))].
  split; [simpl; now rewrite <- app_assoc|]. right. eexists. split; [reflexivity|].
  cbn [in_list_filled List.length Nat.eqb negb andb].
  apply truthy_nonempty in E. apply String.eqb_neq in E. now rewrite E.
Qed.

Lemma one_statement_facts (evs : list event) :
  one_statement evs ->
  paired evs = true /\ forallb in_list_filled evs = true /\ (List.length evs <= 2)%nat.
Proof.
  intros [->|[q [-> Hq]]]; [repeat split; simpl; lia|].
  cbn [paired forallb List.length]. rewrite Hq. repeat split. simpl. lia.
Qed.

Lemma paired_app (a b : list event) :
  one_statement a -> paired b = true -> paired (a ++ b) = true.
Proof. intros [->|[q [-> _]]] Hb; exact Hb. Qed.

(** X12. A run opens a connection for every statement it sends and sends at most
    five; no statement carries an empty competition list or an empty player
    name. *)
Theorem run_statements (sel : Selection) (w : World) :
  exists evs,
    issued (snd (create_streamlit_app sel w)) = issued w ++ evs /\
    paired evs = true /\
    forallb in_list_filled evs = true /\
    (List.length evs <= 10)%nat.
Proof.
  unfold create_streamlit_app, bind.
  destruct (load_latest_game_date_issued w) as [e1 [H1 O1]].
  destruct (load_latest_game_date w) as [r1 w1]. cbn [snd] in H1.
  destruct (one_statement_facts O1) as [P1 [F1 L1]].
  assert (Stop1 : exists evs, issued w1 = issued w ++ evs /\ paired evs = true /\
                    forallb in_list_filled evs = true /\ (List.length evs <= 10)%nat)
    by (exists e1; repeat split; try assumption; lia).
  destruct r1 as [[d|]|e]; [|exact Stop1|exact Stop1].
  destruct (load_competitions_issued w1) as [e2 [H2 O2]].
  destruct (load_competitions w1) as [r2 w2]. cbn [snd] in H2.
  destruct (one_statement_facts O2) as [P2 [F2 L2]].
  assert (Stop2 : exists evs, issued w2 = issued w ++ evs /\ paired evs = true /\
                    forallb in_list_filled evs = true /\ (List.length evs <= 10)%nat).
  { exists (e1 ++ e2). rewrite H2, H1, app_assoc, forallb_app, length_app, F1, F2.
    repeat split; [now apply paired_app | lia]. }
  destruct r2 as [cs|e]; [|exact Stop2].
  destruct (competitions sel) as [|c0 comps]; [exact Stop2|].
  destruct (load_number_of_seasons_issued (c0 :: comps) w2) as [e3 [H3 O3]].
  destruct (load_number_of_seasons (c0 :: comps) w2) as [r3 w3]. cbn [snd] in H3.
  destruct (one_statement_facts O3) as [P3 [F3 L3]].
  assert (Stop3 : exists evs, issued w3 = issued w ++ evs /\ paired evs = true /\
                    forallb in_list_filled evs = true /\ (List.length evs <= 10)%nat).
  { exists (e1 ++ e2 ++ e3).
    rewrite H3, H2, H1, <- !app_assoc, !forallb_app, !length_app, F1, F2, F3.
    repeat split; [now repeat apply paired_app | lia]. }
  destruct r3 as [n|e]; [|exact Stop3].
  destruct (load_players_issued (minimum_seasons sel) (c0 :: comps) w3) as [e4 [H4 O4]].
  destruct (load_players (minimum_seasons sel) (c0 :: comps) w3) as [r4 w4].
  cbn [snd] in H4.
  destruct (one_statement_facts O4) as [P4 [F4 L4]].
  assert (Stop4 : exists evs, issued w4 = issued w ++ evs /\ paired evs = true /\
                    forallb in_list_filled evs = true /\ (List.length evs <= 10)%nat).
  { exists (e1 ++ e2 ++ e3 ++ e4).
    rewrite H4, H3, H2, H1, <- !app_assoc, !forallb_app, !length_app, F1, F2, F3, F4.
    repeat split; [now repeat apply paired_app | lia]. }
  destruct r4 as [ps|e]; [|exact Stop4].
  destruct (truthy (player sel)) as [p|]; [|exact Stop4].
  destruct (load_player_data_issued (minimum_seasons sel) (player sel) (c0 :: comps) w4)
    as [e5 [H5 O5]].
  destruct (load_player_data (minimum_seasons sel) (player sel) (c0 :: comps) w4)
    as [r5 w5]. cbn [snd] in H5.
  destruct (one_statement_facts O5) as [P5 [F5 L5]].
  assert (Stop5 : exists evs, issued w5 = issued w ++ evs /\ paired evs = true /\
                    forallb in_list_filled evs = true /\ (List.length evs <= 10)%nat).
  { exists (e1 ++ e2 ++ e3 ++ e4 ++ e5).
    rewrite H5, H4, H3, H2, H1, <- !app_assoc, !forallb_app, !length_app,
      F1, F2, F3, F4, F5.
    repeat split; [now repeat apply paired_app | lia]. }
  destruct r5 as [[|r0 rows]|e]; [exact Stop5| |exact Stop5].
  unfold lift, ret.
  destruct (aggregate (season_filter (seasons sel) (r0 :: rows))); exact Stop5.
Qed.

(** ** The cache: hits, expiry and failures *)

Lemma list_eqb_refl (l : list string) : list_eqb l l = true.
Proof. unfold list_eqb. now destruct (list_eq_dec string_dec l l). Qed.

Lemma player_eqb_refl (p : option string) : player_eqb p p = true.
Proof. destruct p; simpl; [apply String.eqb_refl | reflexivity]. Qed.

Lemma call_eqb_refl (c : call) : call_eqb c c = true.
Proof.
  destruct c; simpl; rewrite ?Z.eqb_refl, ?list_eqb_refl, ?player_eqb_refl; reflexivity.
Qed.

Lemma find_none_all (A : Type) (p : A -> bool) (l : list A) :
  (forall a, In a l -> p a = false) -> find p l = None.
Proof.
  induction l as [|a l IH]; intros H; simpl; [reflexivity|].
  rewrite (H a) by now left. apply IH. intros b Hb. apply H. now right.
Qed.

Lemma lookup_cold (c : call) (w : World) : cold c w -> lookup c w = None.
Proof.
  intros H. unfold lookup. rewrite find_none_all; [reflexivity|].
  intros e He. now rewrite (H e He).
Qed.

Section CacheTtl.
Variable A : Type.
Variable c : call.
Variable enc : A -> value.
Variable dec : value -> option A.
Variable body : M A.

(** Nothing stored for the call: the body runs, and a returned value is
    stored with the time of the call. *)
Lemma cache_data_miss (w : World) :
  cold c w ->
  cache_data c enc dec body w
  = match body w with
    | (Ok a, w') => (Ok a, remember c (enc a) w')
    | (Raise e, w') => (Raise e, w')
    end.
Proof. intros H. unfold cache_data. now rewrite (lookup_cold H). Qed.

(** A value stored less than [ttl] ago is returned and nothing else happens. *)
Lemma cache_data_hit (w : World) (a : A) (stored : Z) (rest : list (call * (value * Z))) :
  dec (enc a) = Some a ->
  store w = (c, (enc a, stored)) :: rest ->
  now w < stored + ttl ->
  cache_data c enc dec body w = (Ok a, w).
Proof.
  intros Hd Hs Ht. unfold cache_data, lookup. rewrite Hs. cbn [find fst snd].
  rewrite call_eqb_refl. apply Z.ltb_lt in Ht. rewrite Ht. cbn [andb fst snd].
  now rewrite Hd.
Qed.

(** A value stored [ttl] ago or earlier is not used: the body runs again. *)
Lemma cache_data_expired (w : World) (v : value) (stored : Z)
    (rest : list (call * (value * Z))) :
  store w = (c, (v, stored)) :: rest ->
  stored + ttl <= now w ->
  (forall e, In e rest -> call_eqb c (fst e) = false) ->
  cache_data c enc dec body w
  = match body w with
    | (Ok a, w') => (Ok a, remember c (enc a) w')
    | (Raise e, w') => (Raise e, w')
    end.
Proof.
  intros Hs Ht Hrest. unfold cache_data, lookup. rewrite Hs. cbn [find fst snd].
  apply Z.ltb_ge in Ht. rewrite Ht, andb_false_r.
  rewrite find_none_all; [reflexivity|].
  intros e He. now rewrite (Hrest e He).
Qed.
End CacheTtl.

(** X13. [load_player_data] and its cache: a first call sends the statement and
    returns the rows; a call with the same arguments less than 600 time
    units later returns the same rows and changes nothing, the log included;
    a call 600 time units later or more sends the statement again. *)
Theorem load_player_data_ttl (m : Z) (p : option string) (q : string)
    (comps : list string) (w : World) (dt : Z) :
  cold (CallPlayerData m p comps) w ->
  truthy p = Some q -> comps <> [] ->
  let rows := select_player_data m q comps (table w) in
  let sent := [Connect; ReadSql (SelectPlayerData m q comps)] in
  let w1 := snd (load_player_data m p comps w) in
  fst (load_player_data m p comps w) = Ok rows /\
  issued w1 = issued w ++ sent /\
  (0 <= dt < ttl ->
   load_player_data m p comps (advance dt w1) = (Ok rows, advance dt w1)) /\
  (ttl <= dt ->
   fst (load_player_data m p comps (advance dt w1)) = Ok rows /\
   issued (snd (load_player_data m p comps (advance dt w1))) = issued w ++ sent ++ sent).
Proof.
  intros Hcold Hq Hc. cbv zeta.
  destruct comps as [|c0 comps]; [congruence|].
  assert (Hfirst : load_player_data m p (c0 :: comps) w
                   = (Ok (select_player_data m q (c0 :: comps) (table w)),
                      mkWorld (table w) (now w)
                        (issued w ++ [Connect; ReadSql (SelectPlayerData m q (c0 :: comps))])
                        ((CallPlayerData m p (c0 :: comps),
                          (VFrame (select_player_data m q (c0 :: comps) (table w)), now w))
                         :: store w))).
  { unfold load_player_data. rewrite (cache_data_miss _ _ _ Hcold), Hq.
    unfold bind, connect_to_sql_alchemy_server, emit, read_sql, remember.
    cbn [fst snd table now issued store]. now rewrite <- app_assoc. }
  rewrite Hfirst. cbn [fst snd issued]. split; [reflexivity|]. split; [reflexivity|].
  split.
  - intros Hdt. unfold load_player_data.
    eapply cache_data_hit; [reflexivity | reflexivity |].
    cbn [advance now]. lia.
  - intros Hdt. unfold load_player_data.
    erewrite cache_data_expired; [|reflexivity | cbn [advance now]; lia | exact Hcold].
    rewrite Hq. unfold bind, connect_to_sql_alchemy_server, emit, read_sql, remember.
    cbn [fst snd table now issued store advance].
    split; [reflexivity|]. now rewrite <- !app_assoc.
Qed.

Lemma load_player_data_ttl_witness :
  cold (CallPlayerData 3 (Some "John Doe") ["Champions League"]) (fresh scenario_table) /\
  issued (snd (load_player_data 3 (Some "John Doe") ["Champions League"]
                 (fresh scenario_table)))
  = [Connect; ReadSql (SelectPlayerData 3 "John Doe" ["Champions League"])].
Proof.
  assert (Hc : cold (CallPlayerData 3 (Some "John Doe") ["Champions League"])
                    (fresh scenario_table)) by (intros e []).
  split; [exact Hc|].
  refine (proj1 (proj2 (@load_player_data_ttl 3 (Some "John Doe") "John Doe"
                          ["Champions League"] (fresh scenario_table) 0 Hc eq_refl _))).
  discriminate.
Defined.

(** X14. A call that raises stores nothing: [load_number_of_seasons] on
    competitions without a row raises at every call and sends its statement
    every time. *)
Theorem failed_call_not_stored (comps : list string) (w : World) :
  cold (CallNumberOfSeasons comps) w ->
  comps <> [] ->
  select_max_seasons comps (table w) = None ->
  let sent := [Connect; ReadSql (SelectMaxSeasons comps)] in
  let w1 := snd (load_number_of_seasons comps w) in
  fst (load_number_of_seasons comps w) = Raise TypeError /\
  store w1 = store w /\
  issued w1 = issued w ++ sent /\
  fst (load_number_of_seasons comps w1) = Raise TypeError /\
  issued (snd (load_number_of_seasons comps w1)) = issued w ++ sent ++ sent.
Proof.
  intros Hcold Hc Hnone. cbv zeta.
  destruct comps as [|c0 comps]; [congruence|].
  assert (Hcall : forall w0, cold (CallNumberOfSeasons (c0 :: comps)) w0 ->
            table w0 = table w ->
            load_number_of_seasons (c0 :: comps) w0
            = (Raise TypeError,
               mkWorld (table w0) (now w0)
                 (issued w0 ++ [Connect; ReadSql (SelectMaxSeasons (c0 :: comps))])
                 (store w0))).
  { intros w0 H0 Ht. unfold load_number_of_seasons. rewrite (cache_data_miss _ _ _ H0).
    unfold bind, connect_to_sql_alchemy_server, emit, read_sql.
    cbn [fst snd table now issued store]. rewrite Ht, Hnone.
    cbn [int_of_cell raise]. now rewrite <- app_assoc. }
  rewrite (Hcall w Hcold eq_refl). cbn [fst snd store issued].
  split; [reflexivity|]. split; [reflexivity|]. split; [reflexivity|].
  rewrite Hcall; [|exact Hcold | reflexivity]. cbn [fst snd issued].
  split; [reflexivity|]. now rewrite <- app_assoc.
Qed.

Lemma failed_call_not_stored_witness :
  cold (CallNumberOfSeasons ["Europa Conference League"]) (fresh scenario_table) /\
  store (snd (load_number_of_seasons ["Europa Conference League"] (fresh scenario_table)))
  = [].
Proof.
  assert (Hc : cold (CallNumberOfSeasons ["Europa Conference League"])
                    (fresh scenario_table)) by (intros e []).
  split; [exact Hc|].
  refine (proj1 (proj2 (@failed_call_not_stored ["Europa Conference League"]
                          (fresh scenario_table) Hc _ eq_refl))).
  discriminate.
Defined.

(** * Further properties of the page *)

(** ** The season choices *)

Lemma string_geb_total (x y : string) : String.leb y x = true \/ String.leb x y = true.
Proof. apply String.leb_total. Qed.

Lemma string_geb_trans (x y z : string) :
  String.leb y x = true -> String.leb z y = true -> String.leb z x = true.
Proof. intros H1 H2. eapply string_leb_trans; eassumption. Qed.

(** X15. The season choices are the seasons of the player's rows, each once, the
    latest first.  With no season chosen every row is kept; a choice keeps
    only rows of the player, and a choice that names one of the offered
    seasons keeps at least one row. *)
Theorem season_choice_keeps_rows (player_df : DataFrame) (chosen : list string) :
  NoDup (season_options player_df) /\
  StronglySorted (fun a b => String.leb b a = true) (season_options player_df) /\
  (forall s, In s (season_options player_df) <->
             exists r, In r player_df /\ season_name r = s) /\
  season_filter [] player_df = player_df /\
  (forall r, In r (season_filter chosen player_df) -> In r player_df) /\
  (forall s, In s chosen -> In s (season_options player_df) ->
             season_filter chosen player_df <> []).
Proof.
  assert (Hopt : forall s, In s (season_options player_df) <->
                           exists r, In r player_df /\ season_name r = s).
  { intros s. unfold season_options.
    rewrite sorted_In, (unique_In String.eqb String.eqb_eq), in_map_iff.
    split; intros [r [H1 H2]]; exists r; tauto. }
  split.
  { unfold season_options.
    eapply Permutation_NoDup; [apply Permutation_sym, sorted_perm|].
    apply unique_NoDup. exact String.eqb_eq. }
  split.
  { unfold season_options.
    apply (sorted_strongly (fun a b => String.leb b a)).
    - intros x y. apply string_geb_total.
    - intros x y z. apply string_geb_trans. }
  split; [exact Hopt|]. split; [reflexivity|]. split.
  - intros r. unfold season_filter. destruct chosen; [tauto|].
    intros H. apply filter_In in H. tauto.
  - intros s Hs Ho E. apply Hopt in Ho. destruct Ho as [r [Hr Hn]].
    unfold season_filter in E. destruct chosen as [|c0 chosen]; [destruct Hs|].
    assert (Hin : In r (filter (fun r => isin (season_name r) (c0 :: chosen)) player_df)).
    { apply filter_In. split; [exact Hr|]. apply isin_In. now rewrite Hn. }
    rewrite E in Hin. destruct Hin.
Qed.

(** ** The name in the headings *)

Lemma prefix_append (sep rest : string) : prefix sep (sep ++ rest)%string = true.
Proof.
  induction sep as [|a sep IH]; simpl; [now destruct rest|].
  destruct (ascii_dec a a); [exact IH | congruence].
Qed.

Lemma prefix_split (sep s : string) :
  prefix sep s = true -> exists rest, s = (sep ++ rest)%string.
Proof.
  revert s. induction sep as [|a sep IH]; intros s H; [now exists s|].
  destruct s as [|b s]; [discriminate|]. simpl in H.
  destruct (ascii_dec a b); [|discriminate]. subst b.
  destruct (IH s H) as [rest ->]. now exists rest.
Qed.

(** X16. The name shown in the headings is the player name up to its first
    " (": it is followed in the player name by " (" or by nothing, it holds
    no " (" itself, and taking it twice changes nothing. *)
Theorem display_name_cut (player : string) :
  (player = display_name player \/
   exists rest, player = (display_name player ++ " (" ++ rest)%string) /\
  (forall a b, display_name player <> (a ++ " (" ++ b)%string) /\
  display_name (display_name player) = display_name player /\
  ((forall a b, player <> (a ++ " (" ++ b)%string) -> display_name player = player).
Proof.
  unfold display_name.
  assert (Hcut : forall s, s = before_sep " (" s \/
                           exists rest, s = (before_sep " (" s ++ " (" ++ rest)%string).
  { induction s as [|c s IH]; [now left|].
    cbn [before_sep]. destruct (prefix " (" (String c s)) eqn:E.
    - right. apply prefix_split in E. destruct E as [rest E]. exists rest. exact E.
    - destruct IH as [IH|[rest IH]].
      + left. now rewrite <- IH.
      + right. exists rest.
        change (String c s = String c (before_sep " (" s ++ (" (" ++ rest))%string).
        f_equal. exact IH. }
  assert (Hfree : forall s a b, before_sep " (" s <> (a ++ " (" ++ b)%string).
  { induction s as [|c s IH]; intros a b.
    - cbn [before_sep]. destruct a; discriminate.
    - cbn [before_sep]. destruct (prefix " (" (String c s)) eqn:E.
      + destruct a; discriminate.
      + destruct a as [|a0 a].
        * cbn [append]. intros H. injection H as Hc Hs. subst c.
          destruct s as [|d s]; [discriminate|].
          cbn [before_sep] in Hs. destruct (prefix " (" (String d s)); [discriminate|].
          injection Hs as Hd _. subst d.
          pose proof (prefix_append " (" s) as Hp. cbn [append] in Hp.
          rewrite Hp in E. discriminate E.
        * cbn [append]. intros H. injection H as _ Hs. exact (IH a b Hs). }
  assert (Hid : forall s, (forall a b, s <> (a ++ " (" ++ b)%string) ->
                          before_sep " (" s = s).
  { intros s Hs. destruct (Hcut s) as [H|[rest H]]; [now symmetry|].
    exfalso. exact (Hs _ _ H). }
  split; [apply Hcut|]. split; [apply Hfree|]. split.
  - apply Hid. apply Hfree.
  - apply Hid.
Qed.

Example display_name_examples :
  display_name "John Doe (ENG)" = "John Doe" /\
  display_name "John Doe" = "John Doe" /\
  display_name " (x) y" = "" /\
  display_name "A (b) (c)" = "A".
Proof. repeat split. Qed.

(** ** The order of the rows of the table *)

Lemma sql_max_perm (c1 c2 : list (option Z)) :
  Permutation c1 c2 -> sql_max c1 = sql_max c2.
Proof.
  intros HP.
  destruct (sql_max c1) as [n1|] eqn:E1; destruct (sql_max c2) as [n2|] eqn:E2;
    try reflexivity.
  - apply sql_max_some in E1, E2. destruct E1 as [I1 L1], E2 as [I2 L2].
    f_equal. apply Z.le_antisymm.
    + apply L2. eapply Permutation_in; [exact HP | exact I1].
    + apply L1. eapply Permutation_in; [apply Permutation_sym, HP | exact I2].
  - apply sql_max_some in E1. destruct E1 as [I1 _].
    exfalso. apply (sql_max_none _ E2 n1). eapply Permutation_in; [exact HP | exact I1].
  - apply sql_max_some in E2. destruct E2 as [I2 _].
    exfalso. apply (sql_max_none _ E1 n2).
    eapply Permutation_in; [apply Permutation_sym, HP | exact I2].
Qed.

Lemma player_data_on_perm (m : Z) (p : option string) (comps : list string)
    (t t' : DataFrame) :
  Permutation t t' ->
  Permutation (player_data_on m p comps t) (player_data_on m p comps t').
Proof.
  intros HP. unfold player_data_on.
  destruct (truthy p); [|constructor]. destruct comps; [constructor|].
  apply filter_perm, HP.
Qed.

Lemma season_filter_perm (chosen : list string) (df df' : DataFrame) :
  Permutation df df' -> Permutation (season_filter chosen df) (season_filter chosen df').
Proof.
  intros HP. unfold season_filter. destruct chosen; [exact HP|]. apply filter_perm, HP.
Qed.

Lemma page_perm (sel : Selection) (t t' : DataFrame) :
  Permutation t t' -> page sel t' = page sel t.
Proof.
  intros HP. unfold page, select_latest_game_date.
  rewrite <- (sql_max_perm (Permutation_map game_date HP)).
  destruct (sql_max (map game_date t)); [|reflexivity].
  destruct (competitions sel) as [|c0 comps]; [reflexivity|].
  assert (Hn : number_of_seasons_on (c0 :: comps) t' = number_of_seasons_on (c0 :: comps) t).
  { unfold number_of_seasons_on, select_max_seasons.
    now rewrite <- (sql_max_perm (Permutation_map number_of_seasons
                                    (filter_perm _ HP))). }
  rewrite Hn. destruct (number_of_seasons_on (c0 :: comps) t); [|reflexivity].
  cbn [rbind]. destruct (truthy (player sel)); [|reflexivity].
  pose proof (player_data_on_perm (minimum_seasons sel) (player sel) (c0 :: comps) HP)
    as HD.
  destruct (player_data_on (minimum_seasons sel) (player sel) (c0 :: comps) t)
    as [|r rows];
    destruct (player_data_on (minimum_seasons sel) (player sel) (c0 :: comps) t')
    as [|r' rows'].
  - reflexivity.
  - apply Permutation_nil in HD. discriminate.
  - apply Permutation_sym, Permutation_nil in HD. discriminate.
  - now rewrite (aggregate_perm (season_filter_perm (seasons sel) HD)).
Qed.

(** X17. No statement has an [ORDER BY], and none is needed: the summary is the
    same for every order of the rows of a frame, and a run shows the same
    for every order of the rows of the table. *)
Theorem row_order_irrelevant (sel : Selection) (w w' : World) :
  coherent w -> coherent w' ->
  Permutation (table w) (table w') ->
  fst (create_streamlit_app sel w') = fst (create_streamlit_app sel w) /\
  (forall filtered filtered',
     Permutation filtered filtered' -> aggregate filtered' = aggregate filtered).
Proof.
  intros Hw Hw' HP. split.
  - rewrite (proj1 (create_streamlit_app_sound sel Hw')),
      (proj1 (create_streamlit_app_sound sel Hw)).
    now apply page_perm.
  - intros filtered filtered'. apply aggregate_perm.
Qed.

Lemma row_order_irrelevant_witness :
  coherent (fresh scenario_table) /\ coherent (fresh (rev scenario_table)) /\
  fst (create_streamlit_app scenario_selection (fresh (rev scenario_table)))
  = fst (create_streamlit_app scenario_selection (fresh scenario_table)).
Proof.
  split; [apply coherent_fresh|]. split; [apply coherent_fresh|].
  exact (proj1 (row_order_irrelevant scenario_selection
                  (@coherent_fresh scenario_table) (@coherent_fresh (rev scenario_table))
                  (Permutation_rev scenario_table))).
Defined.

(** ** What a rendered page shows *)




(** ** A second run within the time to live *)

Lemma lookup_has (c : call) (w : World) :
  lasting (now w) w -> has_entry c w -> exists v, lookup c w = Some v.
Proof.
  intros Hl [v [stored Hin]]. unfold lookup.
  destruct (find _ (store w)) as [e|] eqn:E; [now eexists|].
  exfalso. pose proof (find_none _ _ E _ Hin) as Hf. cbn [fst snd] in Hf.
  rewrite call_eqb_refl in Hf. specialize (Hl _ Hin). cbn [snd] in Hl.
  apply Z.ltb_lt in Hl. rewrite Hl in Hf. discriminate.
Qed.

Section CacheWarm.
Variable A : Type.
Variable c : call.
Variable enc : A -> value.
Variable dec : value -> option A.
Variable body : M A.
Variable on_table : DataFrame -> result A.

Hypothesis dec_enc : forall v a, dec v = Some a <-> v = enc a.
Hypothesis answer_c : forall t, answer_of c t = let? a := on_table t in Ok (enc a).
Hypothesis body_keeps : forall w,
  store (snd (body w)) = store w /\ now (snd (body w)) = now w.

(** A cached call keeps the clock and every stored value, and what it
    stores is usable for a full time to live. *)
Lemma cache_data_keeps (w : World) (horizon : Z) :
  horizon < now w + ttl -> lasting horizon w ->
  now (snd (cache_data c enc dec body w)) = now w /\
  lasting horizon (snd (cache_data c enc dec body w)) /\
  (forall e, In e (store w) -> In e (store (snd (cache_data c enc dec body w)))).
Proof.
  intros Hh Hl. unfold cache_data.
  destruct (match lookup c w with Some v => dec v | None => None end).
  - cbn [snd]. repeat split; auto.
  - destruct (body_keeps w) as [Hs Hn]. destruct (body w) as [[a|e] w']; cbn [snd] in *.
    + unfold remember. cbn [now store]. split; [exact Hn|]. split.
      * intros e [<-|He]; [cbn [snd]; lia | apply Hl; now rewrite <- Hs].
      * intros e He. right. now rewrite Hs.
    + split; [exact Hn|]. split.
      * intros e0 He. apply Hl. now rewrite <- Hs.
      * intros e0 He. now rewrite Hs.
Qed.

(** After a call that returned, the store holds a value for it. *)
Lemma cache_data_has (w : World) (a : A) :
  fst (cache_data c enc dec body w) = Ok a ->
  has_entry c (snd (cache_data c enc dec body w)).
Proof.
  unfold cache_data.
  destruct (lookup c w) as [v|] eqn:L.
  - destruct (dec v) as [a'|].
    + intros _. cbn [snd]. apply lookup_stored in L. destruct L as [stored Hin].
      now exists v, stored.
    + destruct (body w) as [[a'|e] w']; cbn [fst snd]; [|discriminate].
      intros _. exists (enc a'), (now w'). now left.
  - destruct (body w) as [[a'|e] w']; cbn [fst snd]; [|discriminate].
    intros _. exists (enc a'), (now w'). now left.
Qed.

(** With a usable value in a coherent store the call returns it and the
    world stays as it is. *)
Lemma cache_data_warm (w : World) :
  coherent w -> lasting (now w) w -> has_entry c w ->
  exists a, on_table (table w) = Ok a /\ cache_data c enc dec body w = (Ok a, w).
Proof.
  intros Hw Hl Hh. destruct (lookup_has Hl Hh) as [v L].
  destruct (lookup_stored _ _ L) as [stored Hin].
  apply Hw in Hin. rewrite answer_c in Hin.
  destruct (on_table (table w)) as [a|e]; [|discriminate].
  cbn [rbind] in Hin. injection Hin as <-. exists a. split; [reflexivity|].
  unfold cache_data. rewrite L. now rewrite (proj2 (dec_enc (enc a) a) eq_refl).
Qed.
End CacheWarm.

Lemma step_refl (h : Z) (w : World) : coherent w -> lasting h w -> step h w w.
Proof. intros Hw Hl. repeat split; auto. Qed.

Lemma step_trans (h : Z) (w1 w2 w3 : World) : step h w1 w2 -> step h w2 w3 -> step h w1 w3.
Proof.
  intros [N1 [T1 [C1 [L1 S1]]]] [N2 [T2 [C2 [L2 S2]]]].
  repeat split; try congruence; auto.
Qed.

Lemma step_has (h : Z) (w w' : World) (c : call) :
  step h w w' -> has_entry c w -> has_entry c w'.
Proof.
  intros [_ [_ [_ [_ S]]]] [v [stored Hin]]. exists v, stored. now apply S.
Qed.

Ltac body_keeps_tac :=
  intros ?w0;
  repeat match goal with
         | |- context [match ?x with _ => _ end] => destruct x
         end;
  split; reflexivity.

Lemma load_latest_game_date_step (w : World) (h : Z) :
  coherent w -> h < now w + ttl -> lasting h w ->
  step h w (snd (load_latest_game_date w)) /\
  fst (load_latest_game_date w) = Ok (select_latest_game_date (table w)) /\
  has_entry CallLatestGameDate (snd (load_latest_game_date w)).
Proof.
  intros Hw Hh Hl. destruct (load_latest_game_date_sound Hw) as [R [T C]].
  destruct (@cache_data_keeps _ CallLatestGameDate VDate dec_date
              (_ <- connect_to_sql_alchemy_server ;;
               read_sql SelectLatestGameDate select_latest_game_date)
              ltac:(body_keeps_tac) w h Hh Hl) as [N [L S]].
  split; [repeat split; assumption|]. split; [exact R|].
  eapply cache_data_has. exact R.
Qed.

Lemma load_competitions_step (w : World) (h : Z) :
  coherent w -> h < now w + ttl -> lasting h w ->
  step h w (snd (load_competitions w)) /\
  fst (load_competitions w) = Ok (select_competitions (table w)) /\
  has_entry CallCompetitions (snd (load_competitions w)).
Proof.
  intros Hw Hh Hl. destruct (load_competitions_sound Hw) as [R [T C]].
  destruct (@cache_data_keeps _ CallCompetitions VNames dec_names
              (_ <- connect_to_sql_alchemy_server ;;
               read_sql SelectCompetitions select_competitions)
              ltac:(body_keeps_tac) w h Hh Hl) as [N [L S]].
  split; [repeat split; assumption|]. split; [exact R|].
  eapply cache_data_has. exact R.
Qed.

Lemma load_number_of_seasons_keeps (comps : list string) (w0 : World) :
  let body :=
    match comps with
    | [] => ret EmptyList
    | _ =>
        _ <- connect_to_sql_alchemy_server ;;
        cell <- read_sql (SelectMaxSeasons comps) (select_max_seasons comps) ;;
        match int_of_cell cell with
        | Ok n => ret (MaxSeasons n)
        | Raise e => raise e
        end
    end in
  store (snd (body w0)) = store w0 /\ now (snd (body w0)) = now w0.
Proof.
  cbv zeta. destruct comps; [split; reflexivity|].
  unfold bind, connect_to_sql_alchemy_server, emit, read_sql. cbn [fst snd table].
  destruct (int_of_cell _); split; reflexivity.
Qed.

Lemma load_number_of_seasons_step (comps : list string) (w : World) (h : Z) :
  coherent w -> h < now w + ttl -> lasting h w ->
  step h w (snd (load_number_of_seasons comps w)) /\
  fst (load_number_of_seasons comps w) = number_of_seasons_on comps (table w) /\
  (forall r, number_of_seasons_on comps (table w) = Ok r ->
             has_entry (CallNumberOfSeasons comps) (snd (load_number_of_seasons comps w))).
Proof.
  intros Hw Hh Hl. destruct (load_number_of_seasons_sound comps Hw) as [R [T C]].
  destruct (@cache_data_keeps _ (CallNumberOfSeasons comps) VSeasons dec_seasons _
              (load_number_of_seasons_keeps comps) w h Hh Hl) as [N [L S]].
  split; [repeat split; assumption|]. split; [exact R|].
  intros r Hr. eapply cache_data_has. rewrite <- Hr. exact R.
Qed.

Lemma load_players_step (m : Z) (comps : list string) (w : World) (h : Z) :
  coherent w -> h < now w + ttl -> lasting h w ->
  step h w (snd (load_players m comps w)) /\
  fst (load_players m comps w) = Ok (players_on m comps (table w)) /\
  has_entry (CallPlayers m comps) (snd (load_players m comps w)).
Proof.
  intros Hw Hh Hl. destruct (load_players_sound m comps Hw) as [R [T C]].
  destruct (@cache_data_keeps _ (CallPlayers m comps) VNames dec_names
              (match comps with
               | [] => ret []
               | _ =>
                   _ <- connect_to_sql_alchemy_server ;;
                   names <- read_sql (SelectPlayers m comps) (select_players m comps) ;;
                   ret (sorted String.leb names)
               end)
              ltac:(body_keeps_tac) w h Hh Hl) as [N [L S]].
  split; [repeat split; assumption|]. split; [exact R|].
  eapply cache_data_has. exact R.
Qed.

Lemma load_player_data_step (m : Z) (p : option string) (comps : list string)
    (w : World) (h : Z) :
  coherent w -> h < now w + ttl -> lasting h w ->
  step h w (snd (load_player_data m p comps w)) /\
  fst (load_player_data m p comps w) = Ok (player_data_on m p comps (table w)) /\
  has_entry (CallPlayerData m p comps) (snd (load_player_data m p comps w)).
Proof.
  intros Hw Hh Hl. destruct (load_player_data_sound m p comps Hw) as [R [T C]].
  destruct (@cache_data_keeps _ (CallPlayerData m p comps) VFrame dec_frame
              (match truthy p, comps with
               | None, _ => ret []
               | _, [] => ret []
               | Some q, _ =>
                   _ <- connect_to_sql_alchemy_server ;;
                   read_sql (SelectPlayerData m q comps) (select_player_data m q comps)
               end)
              ltac:(body_keeps_tac) w h Hh Hl) as [N [L S]].
  split; [repeat split; assumption|]. split; [exact R|].
  eapply cache_data_has. exact R.
Qed.

Lemma load_latest_game_date_warm (w : World) :
  coherent w -> lasting (now w) w -> has_entry CallLatestGameDate w ->
  load_latest_game_date w = (Ok (select_latest_game_date (table w)), w).
Proof.
  intros Hw Hl Hh.
  destruct (@cache_data_warm _ CallLatestGameDate VDate dec_date
              (_ <- connect_to_sql_alchemy_server ;;
               read_sql SelectLatestGameDate select_latest_game_date)
              (fun t => Ok (select_latest_game_date t)) dec_date_enc
              (fun t => eq_refl) w Hw Hl Hh) as [a [Ha Hc]].
  injection Ha as <-. exact Hc.
Qed.

Lemma load_competitions_warm (w : World) :
  coherent w -> lasting (now w) w -> has_entry CallCompetitions w ->
  load_competitions w = (Ok (select_competitions (table w)), w).
Proof.
  intros Hw Hl Hh.
  destruct (@cache_data_warm _ CallCompetitions VNames dec_names
              (_ <- connect_to_sql_alchemy_server ;;
               read_sql SelectCompetitions select_competitions)
              (fun t => Ok (select_competitions t)) dec_names_enc
              (fun t => eq_refl) w Hw Hl Hh) as [a [Ha Hc]].
  injection Ha as <-. exact Hc.
Qed.

Lemma load_number_of_seasons_warm (comps : list string) (w : World) :
  coherent w -> lasting (now w) w -> has_entry (CallNumberOfSeasons comps) w ->
  exists r, number_of_seasons_on comps (table w) = Ok r /\
            load_number_of_seasons comps w = (Ok r, w).
Proof.
  intros Hw Hl Hh.
  exact (@cache_data_warm _ (CallNumberOfSeasons comps) VSeasons dec_seasons _
           (number_of_seasons_on comps) dec_seasons_enc (fun t => eq_refl) w Hw Hl Hh).
Qed.

Lemma load_players_warm (m : Z) (comps : list string) (w : World) :
  coherent w -> lasting (now w) w -> has_entry (CallPlayers m comps) w ->
  load_players m comps w = (Ok (players_on m comps (table w)), w).
Proof.
  intros Hw Hl Hh.
  destruct (@cache_data_warm _ (CallPlayers m comps) VNames dec_names
              (match comps with
               | [] => ret []
               | _ =>
                   _ <- connect_to_sql_alchemy_server ;;
                   names <- read_sql (SelectPlayers m comps) (select_players m comps) ;;
                   ret (sorted String.leb names)
               end)
              (fun t => Ok (players_on m comps t)) dec_names_enc
              (fun t => eq_refl) w Hw Hl Hh) as [a [Ha Hc]].
  injection Ha as <-. exact Hc.
Qed.

Lemma load_player_data_warm (m : Z) (p : option string) (comps : list string) (w : World) :
  coherent w -> lasting (now w) w -> has_entry (CallPlayerData m p comps) w ->
  load_player_data m p comps w = (Ok (player_data_on m p comps (table w)), w).
Proof.
  intros Hw Hl Hh.
  destruct (@cache_data_warm _ (CallPlayerData m p comps) VFrame dec_frame
              (match truthy p, comps with
               | None, _ => ret []
               | _, [] => ret []
               | Some q, _ =>
                   _ <- connect_to_sql_alchemy_server ;;
                   read_sql (SelectPlayerData m q comps) (select_player_data m q comps)
               end)
              (fun t => Ok (player_data_on m p comps t)) dec_frame_enc
              (fun t => eq_refl) w Hw Hl Hh) as [a [Ha Hc]].
  injection Ha as <-. exact Hc.
Qed.

(** With a usable value for each of its calls a run returns what the table
    gives and leaves the world as it is. *)
Lemma create_streamlit_app_warm (sel : Selection) (w : World) :
  coherent w -> lasting (now w) w ->
  (forall c, In c (calls_of sel (table w)) -> has_entry c w) ->
  create_streamlit_app sel w = (page sel (table w), w).
Proof.
  intros Hw Hl Hall. unfold create_streamlit_app, page, bind. unfold calls_of in Hall.
  rewrite (load_latest_game_date_warm Hw Hl (Hall _ (or_introl eq_refl))).
  destruct (select_latest_game_date (table w)) as [d|]; [|reflexivity].
  rewrite (load_competitions_warm Hw Hl (Hall _ (or_intror (or_introl eq_refl)))).
  destruct (competitions sel) as [|c0 comps]; [reflexivity|].
  destruct (@load_number_of_seasons_warm (c0 :: comps) w Hw Hl) as [r [Er Hr]].
  { apply Hall. right. right. now left. }
  rewrite Hr. rewrite Er in Hall |- *. cbn [rbind].
  rewrite (@load_players_warm (minimum_seasons sel) (c0 :: comps) w Hw Hl).
  2:{ apply Hall. right. right. right. now left. }
  destruct (truthy (player sel)) as [p|]; [|reflexivity].
  rewrite (@load_player_data_warm (minimum_seasons sel) (player sel) (c0 :: comps) w Hw Hl).
  2:{ apply Hall. right. right. right. right. now left. }
  destruct (player_data_on (minimum_seasons sel) (player sel) (c0 :: comps) (table w));
    [reflexivity|].
  unfold lift, ret. destruct (aggregate _); reflexivity.
Qed.

(** A run that returns an outcome leaves a usable value for each of its
    calls. *)
Lemma create_streamlit_app_stores (sel : Selection) (w : World) (h : Z) :
  coherent w -> h < now w + ttl -> lasting h w ->
  step h w (snd (create_streamlit_app sel w)) /\
  (forall o, fst (create_streamlit_app sel w) = Ok o ->
             forall c, In c (calls_of sel (table w)) ->
                       has_entry c (snd (create_streamlit_app sel w))).
Proof.
  intros Hw Hh Hl. unfold create_streamlit_app, bind, calls_of.
  destruct (load_latest_game_date_step Hw Hh Hl) as [S1 [R1 E1]].
  destruct (load_latest_game_date w) as [r1 w1]. cbn [fst snd] in S1, R1, E1. subst r1.
  destruct (select_latest_game_date (table w)) as [d|];
    [|split; [exact S1 | discriminate]].
  pose proof S1 as [N1 [T1 [C1 [L1 _]]]].
  destruct (load_competitions_step C1 ltac:(rewrite N1; exact Hh) L1) as [S2 [R2 E2]].
  destruct (load_competitions w1) as [r2 w2]. cbn [fst snd] in S2, R2, E2. subst r2.
  pose proof (step_trans S1 S2) as S12.
  destruct (competitions sel) as [|c0 comps].
  { split; [exact S12|]. intros o _ c [<-|[<-|[]]];
      [exact (step_has S2 E1) | exact E2]. }
  pose proof S12 as [N2 [T2 [C2 [L2 _]]]].
  destruct (load_number_of_seasons_step (c0 :: comps) C2 ltac:(rewrite N2; exact Hh) L2)
    as [S3 [R3 E3]].
  destruct (load_number_of_seasons (c0 :: comps) w2) as [r3 w3].
  cbn [fst snd] in S3, R3, E3. rewrite T2 in R3, E3. subst r3.
  pose proof (step_trans S12 S3) as S13.
  destruct (number_of_seasons_on (c0 :: comps) (table w)) as [n|e];
    [|split; [exact S13 | discriminate]].
  specialize (E3 n eq_refl).
  pose proof S13 as [N3 [T3 [C3 [L3 _]]]].
  destruct (load_players_step (minimum_seasons sel) (c0 :: comps) C3
              ltac:(rewrite N3; exact Hh) L3) as [S4 [R4 E4]].
  destruct (load_players (minimum_seasons sel) (c0 :: comps) w3) as [r4 w4].
  cbn [fst snd] in S4, R4, E4. subst r4.
  pose proof (step_trans S13 S4) as S14.
  destruct (truthy (player sel)) as [p|].
  2:{ split; [exact S14|]. intros o _ c [<-|[<-|[<-|[<-|[]]]]].
      - exact (step_has S4 (step_has S3 (step_has S2 E1))).
      - exact (step_has S4 (step_has S3 E2)).
      - exact (step_has S4 E3).
      - exact E4. }
  pose proof S14 as [N4 [T4 [C4 [L4 _]]]].
  destruct (load_player_data_step (minimum_seasons sel) (player sel) (c0 :: comps) C4
              ltac:(rewrite N4; exact Hh) L4) as [S5 [R5 E5]].
  destruct (load_player_data (minimum_seasons sel) (player sel) (c0 :: comps) w4)
    as [r5 w5]. cbn [fst snd] in S5, R5, E5. subst r5.
  pose proof (step_trans S14 S5) as S15.
  assert (Hall : forall c,
            In c [CallLatestGameDate; CallCompetitions; CallNumberOfSeasons (c0 :: comps);
                  CallPlayers (minimum_seasons sel) (c0 :: comps);
                  CallPlayerData (minimum_seasons sel) (player sel) (c0 :: comps)] ->
            has_entry c w5).
  { intros c [<-|[<-|[<-|[<-|[<-|[]]]]]].
    - exact (step_has S5 (step_has S4 (step_has S3 (step_has S2 E1)))).
    - exact (step_has S5 (step_has S4 (step_has S3 E2))).
    - exact (step_has S5 (step_has S4 E3)).
    - exact (step_has S5 E4).
    - exact E5. }
  destruct (player_data_on (minimum_seasons sel) (player sel) (c0 :: comps) (table w4))
    as [|r0 rows].
  { split; [exact S15 | intros o _; exact Hall]. }
  unfold lift, ret.
  destruct (aggregate (season_filter (seasons sel) (r0 :: rows))); cbn [fst snd];
    (split; [exact S15 | intros o _; exact Hall]).
Qed.

(** X20. A second run within the time to live: when a run returned an outcome
    and every value of the store stays usable for [dt] more time units,
    the same selection [dt] later shows the same outcome and leaves the
    world as it is; nothing is sent to the server. *)
Theorem warm_rerun (sel : Selection) (w : World) (o : Outcome) (dt : Z) :
  coherent w ->
  0 <= dt < ttl ->
  lasting (now w + dt) w ->
  fst (create_streamlit_app sel w) = Ok o ->
  let w1 := snd (create_streamlit_app sel w) in
  create_streamlit_app sel (advance dt w1) = (Ok o, advance dt w1) /\
  issued (snd (create_streamlit_app sel (advance dt w1))) = issued w1.
Proof.
  intros Hw Hdt Hl Ho. cbv zeta.
  destruct (@create_streamlit_app_stores sel w (now w + dt) Hw ltac:(lia) Hl)
    as [[N [T [C [L S]]]] Hall].
  specialize (Hall o Ho).
  assert (Hrun : create_streamlit_app sel (advance dt (snd (create_streamlit_app sel w)))
                 = (Ok o, advance dt (snd (create_streamlit_app sel w)))).
  { rewrite create_streamlit_app_warm.
    - cbn [advance table]. rewrite T.
      now rewrite <- (proj1 (create_streamlit_app_sound sel Hw)), Ho.
    - now apply coherent_advance.
    - intros e He. cbn [advance now store] in *. rewrite N. now apply L.
    - intros c Hc. cbn [advance table] in Hc. rewrite T in Hc.
      destruct (Hall c Hc) as [v [stored Hin]]. now exists v, stored. }
  split; [exact Hrun|]. now rewrite Hrun.
Qed.

Lemma warm_rerun_witness :
  coherent (fresh scenario_table) /\ 0 <= 599 < ttl /\
  issued (snd (create_streamlit_app scenario_selection
                 (advance 599 (snd (create_streamlit_app scenario_selection
                                      (fresh scenario_table))))))
  = issued (snd (create_streamlit_app scenario_selection (fresh scenario_table))).
Proof.
  split; [apply coherent_fresh|]. split; [unfold ttl; lia|].
  refine (proj2 (@warm_rerun scenario_selection (fresh scenario_table) _ 599
                   (@coherent_fresh scenario_table) _ _ scenario_run)).
  - unfold ttl; lia.
  - intros e [].
Defined.

(** ** A run on an empty store *)

Lemma cache_data_cold (A : Type) (c : call) (enc : A -> value) (dec : value -> option A)
    (body : M A) (w : World) :
  cold c w ->
  issued (snd (body w)) = issued w ++ sent_by c -> store (snd (body w)) = store w ->
  issued (snd (cache_data c enc dec body w)) = issued w ++ sent_by c /\
  (forall e, In e (store (snd (cache_data c enc dec body w))) ->
             fst e = c \/ In e (store w)).
Proof.
  intros Hc Hi Hs. rewrite (cache_data_miss _ _ _ Hc).
  destruct (body w) as [[a|e] w']; cbn [fst snd] in *.
  - unfold remember. cbn [issued store]. split; [exact Hi|].
    intros e [<-|He]; [now left | right; now rewrite <- Hs].
  - split; [exact Hi|]. intros e0 He. right. now rewrite <- Hs.
Qed.

Lemma load_latest_game_date_cold (w : World) :
  cold CallLatestGameDate w ->
  issued (snd (load_latest_game_date w)) = issued w ++ sent_by CallLatestGameDate /\
  (forall e, In e (store (snd (load_latest_game_date w))) ->
             fst e = CallLatestGameDate \/ In e (store w)).
Proof.
  intros Hc. apply cache_data_cold; [exact Hc | | reflexivity].
  simpl. now rewrite <- app_assoc.
Qed.

Lemma load_competitions_cold (w : World) :
  cold CallCompetitions w ->
  issued (snd (load_competitions w)) = issued w ++ sent_by CallCompetitions /\
  (forall e, In e (store (snd (load_competitions w))) ->
             fst e = CallCompetitions \/ In e (store w)).
Proof.
  intros Hc. apply cache_data_cold; [exact Hc | | reflexivity].
  simpl. now rewrite <- app_assoc.
Qed.

Lemma load_number_of_seasons_cold (comps : list string) (w : World) :
  cold (CallNumberOfSeasons comps) w ->
  issued (snd (load_number_of_seasons comps w))
  = issued w ++ sent_by (CallNumberOfSeasons comps) /\
  (forall e, In e (store (snd (load_number_of_seasons comps w))) ->
             fst e = CallNumberOfSeasons comps \/ In e (store w)).
Proof.
  intros Hc. apply cache_data_cold; [exact Hc | |].
  - destruct comps as [|c0 comps]; [simpl; now rewrite app_nil_r|].
    unfold bind, connect_to_sql_alchemy_server, emit, read_sql. cbn [fst snd table].
    destruct (int_of_cell _); simpl; now rewrite <- app_assoc.
  - apply load_number_of_seasons_keeps.
Qed.

Lemma load_players_cold (m : Z) (comps : list string) (w : World) :
  cold (CallPlayers m comps) w ->
  issued (snd (load_players m comps w)) = issued w ++ sent_by (CallPlayers m comps) /\
  (forall e, In e (store (snd (load_players m comps w))) ->
             fst e = CallPlayers m comps \/ In e (store w)).
Proof.
  intros Hc. apply cache_data_cold; [exact Hc | |].
  - destruct comps as [|c0 comps]; simpl; [now rewrite app_nil_r | now rewrite <- app_assoc].
  - destruct comps; reflexivity.
Qed.

Lemma load_player_data_cold (m : Z) (p : option string) (comps : list string) (w : World) :
  cold (CallPlayerData m p comps) w ->
  issued (snd (load_player_data m p comps w))
  = issued w ++ sent_by (CallPlayerData m p comps) /\
  (forall e, In e (store (snd (load_player_data m p comps w))) ->
             fst e = CallPlayerData m p comps \/ In e (store w)).
Proof.
  intros Hc. apply cache_data_cold; [exact Hc | |].
  - cbn [sent_by]. destruct (truthy p); [|simpl; now rewrite app_nil_r].
    destruct comps; simpl; [now rewrite app_nil_r | now rewrite <- app_assoc].
  - destruct (truthy p); [|reflexivity]. destruct comps; reflexivity.
Qed.

(** X21. On an empty store a run sends the statement of each of its calls, one
    after the other and nothing else: five statements when it reaches the
    player's rows, fewer when it stops earlier. *)
Theorem cold_run_statements (sel : Selection) (w : World) :
  store w = [] ->
  issued (snd (create_streamlit_app sel w))
  = issued w ++ flat_map sent_by (calls_of sel (table w)) /\
  (List.length (flat_map sent_by (calls_of sel (table w))) <= 10)%nat /\
  (competitions sel = [] ->
   (List.length (flat_map sent_by (calls_of sel (table w))) <= 4)%nat).
Proof.
  intros Hst.
  assert (Hw : coherent w) by (intros c v stored Hin; rewrite Hst in Hin; destruct Hin).
  assert (Hcold0 : forall c, cold c w) by (intros c e He; rewrite Hst in He; destruct He).
  split.
  - unfold create_streamlit_app, bind, calls_of, ret, raise, lift.
    destruct (load_latest_game_date_cold (Hcold0 _)) as [I1 K1].
    destruct (load_latest_game_date_sound Hw) as [R1 [T1 C1]].
    destruct (load_latest_game_date w) as [r1 w1]. cbn [fst snd] in *. subst r1.
    assert (K1' : forall e, In e (store w1) -> fst e = CallLatestGameDate).
    { intros e He. destruct (K1 e He) as [H|H]; [exact H|]. rewrite Hst in H. destruct H. }
    destruct (select_latest_game_date (table w)) as [d|];
      [|cbn [snd flat_map]; now rewrite app_nil_r].
    assert (Hc2 : cold CallCompetitions w1) by (intros e He; now rewrite (K1' e He)).
    destruct (load_competitions_cold Hc2) as [I2 K2].
    destruct (load_competitions_sound C1) as [R2 [T2 C2]].
    destruct (load_competitions w1) as [r2 w2]. cbn [fst snd] in *. subst r2.
    assert (K2' : forall e, In e (store w2) ->
                            fst e = CallCompetitions \/ fst e = CallLatestGameDate).
    { intros e He. destruct (K2 e He) as [H|H]; [now left | right; now apply K1']. }
    destruct (competitions sel) as [|c0 comps].
    { cbn [snd flat_map]. rewrite app_nil_r, I2, I1, <- app_assoc. reflexivity. }
    assert (Hc3 : cold (CallNumberOfSeasons (c0 :: comps)) w2).
    { intros e He. destruct (K2' e He) as [-> | ->]; reflexivity. }
    destruct (load_number_of_seasons_cold Hc3) as [I3 K3].
    destruct (load_number_of_seasons_sound (c0 :: comps) C2) as [R3 [T3 C3]].
    destruct (load_number_of_seasons (c0 :: comps) w2) as [r3 w3]. cbn [fst snd] in *.
    rewrite T2, T1 in R3. subst r3.
    assert (K3' : forall e, In e (store w3) ->
              fst e = CallNumberOfSeasons (c0 :: comps) \/
              fst e = CallCompetitions \/ fst e = CallLatestGameDate).
    { intros e He. destruct (K3 e He) as [H|H]; [now left | right; now apply K2']. }
    destruct (number_of_seasons_on (c0 :: comps) (table w)) as [n|e].
    2:{ cbn [snd flat_map]. rewrite app_nil_r, I3, I2, I1, <- !app_assoc. reflexivity. }
    assert (Hc4 : cold (CallPlayers (minimum_seasons sel) (c0 :: comps)) w3).
    { intros e He. destruct (K3' e He) as [-> | [-> | ->]]; reflexivity. }
    destruct (load_players_cold Hc4) as [I4 K4].
    destruct (load_players_sound (minimum_seasons sel) (c0 :: comps) C3) as [R4 [T4 C4]].
    destruct (load_players (minimum_seasons sel) (c0 :: comps) w3) as [r4 w4].
    cbn [fst snd] in *. subst r4.
    destruct (truthy (player sel)) as [p|] eqn:Ep.
    2:{ cbn [snd flat_map]. rewrite app_nil_r, I4, I3, I2, I1, <- !app_assoc. reflexivity. }
    assert (Hc5 : cold (CallPlayerData (minimum_seasons sel) (player sel) (c0 :: comps)) w4).
    { intros e He. destruct (K4 e He) as [H|H]; [now rewrite H|].
      destruct (K3' e H) as [-> | [-> | ->]]; reflexivity. }
    destruct (load_player_data_cold Hc5) as [I5 K5].
    assert (Hfinal : issued (snd (load_player_data (minimum_seasons sel) (player sel)
                                    (c0 :: comps) w4))
                     = issued w ++
                       flat_map sent_by
                         [CallLatestGameDate; CallCompetitions;
                          CallNumberOfSeasons (c0 :: comps);
                          CallPlayers (minimum_seasons sel) (c0 :: comps);
                          CallPlayerData (minimum_seasons sel) (player sel) (c0 :: comps)]).
    { cbn [flat_map]. rewrite app_nil_r, I5, I4, I3, I2, I1, <- !app_assoc. reflexivity. }
    destruct (load_player_data (minimum_seasons sel) (player sel) (c0 :: comps) w4)
      as [[[|r0 rows]|e] w5]; cbn [fst snd] in *; try exact Hfinal.
    destruct (aggregate _); exact Hfinal.
  - split.
    + unfold calls_of. cbn [flat_map sent_by].
      repeat (match goal with
              | |- context [match ?x with _ => _ end] => destruct x
              end; cbn [flat_map sent_by]);
        rewrite ?length_app; cbn [List.length]; lia.
    + intros Hc. unfold calls_of. rewrite Hc.
      destruct (select_latest_game_date (table w)); cbn [flat_map sent_by app List.length];
        lia.
Qed.

Lemma cold_run_statements_witness :
  store (fresh scenario_table) = [] /\
  issued (snd (create_streamlit_app scenario_selection (fresh scenario_table)))
  = [Connect; ReadSql SelectLatestGameDate; Connect; ReadSql SelectCompetitions;
     Connect; ReadSql (SelectMaxSeasons ["Champions League"]);
     Connect; ReadSql (SelectPlayers 3 ["Champions League"]);
     Connect; ReadSql (SelectPlayerData 3 "John Doe" ["Champions League"])].
Proof.
  split; [reflexivity|].
  exact (proj1 (@cold_run_statements scenario_selection (fresh scenario_table) eq_refl)).
Defined.

(** ** Where a run stops *)

(** X22. The stops of a run, in their order: without a game date in the table
    the heading raises whatever is selected; then without a competition the
    run asks for one; then competitions without a number of seasons make
    [load_number_of_seasons] raise; then without a player the run asks for
    one; and a player without a row in the selection gets the warning, the
    aggregation is not run on the empty frame. *)
Theorem early_exits (sel : Selection) (w : World) :
  coherent w ->
  match select_latest_game_date (table w) with
  | None => exists e, fst (create_streamlit_app sel w) = Raise e
  | Some _ =>
      match competitions sel with
      | [] => fst (create_streamlit_app sel w) = Ok NoCompetition
      | _ :: _ =>
          match select_max_seasons (competitions sel) (table w) with
          | None => fst (create_streamlit_app sel w) = Raise TypeError
          | Some _ =>
              match truthy (player sel) with
              | None => fst (create_streamlit_app sel w) = Ok NoPlayer
              | Some p =>
                  (forall r, In r (table w) ->
                             ~ (player_name r = p /\
                                In (competition_name r) (competitions sel) /\
                                at_least (number_of_seasons r) (minimum_seasons sel) = true)) ->
                  fst (create_streamlit_app sel w) = Ok NoData
              end
          end
      end
  end.
Proof.
  intros Hw. rewrite (proj1 (create_streamlit_app_sound sel Hw)). unfold page.
  destruct (select_latest_game_date (table w)) as [d|]; [|now eexists].
  destruct (competitions sel) as [|c0 comps] eqn:Ec; [reflexivity|].
  unfold number_of_seasons_on.
  destruct (select_max_seasons (c0 :: comps) (table w)) as [n|]; [|reflexivity].
  cbn [int_of_cell rbind].
  destruct (truthy (player sel)) as [p|] eqn:Ep; [|reflexivity].
  intros Hnone. unfold player_data_on. rewrite Ep.
  destruct (select_player_data (minimum_seasons sel) p (c0 :: comps) (table w))
    as [|r rows] eqn:E; [reflexivity|].
  exfalso.
  assert (Hin : In r (select_player_data (minimum_seasons sel) p (c0 :: comps) (table w)))
    by (rewrite E; now left).
  apply select_player_data_In in Hin. rewrite isin_In in Hin.
  apply (Hnone r); tauto.
Qed.

Lemma early_exits_witness :
  coherent (fresh scenario_table) /\
  fst (create_streamlit_app (mkSelection ["Champions League"] 3 (Some "Jane Roe") [])
         (fresh scenario_table)) = Ok NoData.
Proof.
  split; [apply coherent_fresh|].
  apply (@early_exits (mkSelection ["Champions League"] 3 (Some "Jane Roe") [])
           (fresh scenario_table) (@coherent_fresh scenario_table)).
  intros r [<-|[<-|[<-|[]]]] [H1 [H2 H3]]; try discriminate H1.
  destruct H2 as [H2|[]]. discriminate H2.
Defined.

(** ** Sentinel replacement as an operation on frames *)

Lemma replace_cell_idempotent (c : option Z) : replace_cell (replace_cell c) = replace_cell c.
Proof.
  destruct c as [v|]; [|reflexivity]. simpl.
  destruct (v =? -1) eqn:E; [reflexivity|]. simpl. now rewrite E.
Qed.

(** X23. Sentinel replacement keeps every row, with its player, competition,
    season, team, date, nationality and position; only cells equal to -1
    change, to NULL; and replacing twice is replacing once. *)
Theorem replace_sentinel_idempotent (df : DataFrame) :
  replace_sentinel (replace_sentinel df) = replace_sentinel df /\
  List.length (replace_sentinel df) = List.length df /\
  map (fun r => (player_name r, competition_name r, season_name r, team_name r,
                 game_date r, nationality r, player_position r)) (replace_sentinel df)
  = map (fun r => (player_name r, competition_name r, season_name r, team_name r,
                   game_date r, nationality r, player_position r)) df /\
  (forall r, In r (replace_sentinel df) ->
             goals r <> Some (-1) /\ assists r <> Some (-1) /\
             shirt_number r <> Some (-1) /\ minutes_played r <> Some (-1) /\
             yellow_cards r <> Some (-1) /\ red_cards r <> Some (-1) /\
             number_of_seasons r <> Some (-1)).
Proof.
  assert (Hcell : forall c, replace_cell c <> Some (-1)).
  { intros [v|]; simpl; [|discriminate].
    destruct (v =? -1) eqn:E; [discriminate|]. apply Z.eqb_neq in E. congruence. }
  unfold replace_sentinel. split.
  { rewrite map_map. apply map_ext. intros r. unfold replace_row. cbn.
    now rewrite !replace_cell_idempotent. }
  split; [apply length_map|]. split.
  { rewrite map_map. reflexivity. }
  intros r Hr. apply in_map_iff in Hr. destruct Hr as [r0 [<- _]].
  cbn. repeat split; apply Hcell.
Qed.

(** * The scenario and the team order *)

(** ** The end-to-end scenario *)

(** C3. Two rows, one of 2015/2016 with 2 goals and one of 2017/2018 whose
    goals are -1, whatever their other cells: 2 appearances, 2 goals, and a
    season table of exactly the three seasons 2015/2016, 2016/2017 and
    2017/2018 with goals 2, 0, 0, the middle season filled with zeros.  The
    aggregation returns a summary with these values as soon as one of the
    rows has a nationality and one a number of seasons other than NULL and
    -1, and every summary it returns has them. *)
Theorem end_to_end_scenario (r1 r2 : Row) :
  season_name r1 = "2015/2016" -> goals r1 = Some 2 ->
  season_name r2 = "2017/2018" -> goals r2 = Some (-1) ->
  let final_df := replace_sentinel [r1; r2] in
  let table := [mkSeasonStat "2015/2016" 1 2; mkSeasonStat "2016/2017" 0 0;
                mkSeasonStat "2017/2018" 1 0] in
  total_appearances final_df = 2 /\
  total_goals final_df = 2 /\
  season_stats final_df = Ok table /\
  (forall s, aggregate [r1; r2] = Ok s ->
             s_appearances s = 2 /\ s_goals s = 2 /\
             map Season (s_season_stats s) = ["2015/2016"; "2016/2017"; "2017/2018"] /\
             map Goals (s_season_stats s) = [2; 0; 0]) /\
  (dropna (map nationality [r1; r2]) <> [] ->
   live (map number_of_seasons [r1; r2]) <> [] ->
   exists s, aggregate [r1; r2] = Ok s /\
             s_appearances s = 2 /\ s_goals s = 2 /\ s_season_stats s = table).
Proof.
  intros S1 G1 S2 G2. cbv zeta.
  assert (Ht : season_stats (replace_sentinel [r1; r2])
               = Ok [mkSeasonStat "2015/2016" 1 2; mkSeasonStat "2016/2017" 0 0;
                     mkSeasonStat "2017/2018" 1 0]).
  { destruct r1, r2. simpl in S1, G1, S2, G2. subst. vm_compute. reflexivity. }
  assert (Hg : total_goals (replace_sentinel [r1; r2]) = 2).
  { unfold total_goals. simpl. now rewrite G1, G2. }
  assert (Hfields : forall s, aggregate [r1; r2] = Ok s ->
            s_appearances s = 2 /\ s_goals s = 2 /\
            s_season_stats s = [mkSeasonStat "2015/2016" 1 2; mkSeasonStat "2016/2017" 0 0;
                                mkSeasonStat "2017/2018" 1 0]).
  { intros s H. unfold aggregate in H. rewrite Ht in H.
    destruct (nationality_stat _); [|discriminate].
    destruct (number_of_seasons_stat _); [|discriminate].
    destruct (teams _); [|discriminate].
    cbn [rbind] in H. injection H as <-.
    cbn [s_appearances s_goals s_season_stats].
    split; [reflexivity|]. split; [exact Hg | reflexivity]. }
  split; [reflexivity|]. split; [exact Hg|]. split; [exact Ht|]. split.
  - intros s H. destruct (Hfields s H) as [Ha [Hgo Hs]]. rewrite Hs. now repeat split.
  - intros Hn Hk.
    assert (Hwf : Forall (fun r => four_digits (season_name r) = true) [r1; r2]).
    { repeat constructor; [now rewrite S1 | now rewrite S2]. }
    destruct (@aggregate_ok [r1; r2] Hwf Hn Hk) as [s Hs].
    exists s. split; [exact Hs|]. now apply Hfields.
Qed.

Lemma end_to_end_scenario_witness :
  total_appearances (replace_sentinel scenario_rows) = 2 /\
  total_goals (replace_sentinel scenario_rows) = 2 /\
  season_stats (replace_sentinel scenario_rows)
  = Ok [mkSeasonStat "2015/2016" 1 2; mkSeasonStat "2016/2017" 0 0;
        mkSeasonStat "2017/2018" 1 0] /\
  exists s, aggregate scenario_rows = Ok s /\
            s_appearances s = 2 /\ s_goals s = 2 /\
            s_season_stats s
            = [mkSeasonStat "2015/2016" 1 2; mkSeasonStat "2016/2017" 0 0;
               mkSeasonStat "2017/2018" 1 0].
Proof.
  destruct (@end_to_end_scenario
              (appearance "A" "2015/2016" (Some 2))
              (appearance "A" "2017/2018" (Some (-1)))
              eq_refl eq_refl eq_refl eq_refl) as [H1 [H2 [H3 [_ H5]]]].
  split; [exact H1|]. split; [exact H2|]. split; [exact H3|].
  apply H5; discriminate.
Defined.

(** ** Team order by start year *)

Lemma year_text_all : forallb year_text_round_trip (range_incl 1000 9999) = true.
Proof. vm_compute. reflexivity. Qed.

Lemma four_digit_text_prefix (s : string) :
  four_digit_text (substring 0 4 s) = true -> four_digits s = true.
Proof.
  destruct s as [|a [|b [|c [|d s]]]]; try (cbn; discriminate).
  destruct s; cbn; auto.
Qed.

(** A name whose first four characters print a four-digit year starts with
    four digits and has that year as its start year. *)
Lemma year_prefix (s : string) (y : Z) :
  1000 <= y <= 9999 -> substring 0 4 s = str_of_int y ->
  four_digits s = true /\ start_year s = y.
Proof.
  intros Hy Hs.
  pose proof year_text_all as Hall. rewrite forallb_forall in Hall.
  specialize (Hall y (proj2 (range_incl_In 1000 9999 y) Hy)).
  unfold year_text_round_trip in Hall. apply andb_true_iff in Hall.
  destruct Hall as [Hd Hr]. split.
  - apply four_digit_text_prefix. now rewrite Hs.
  - unfold start_year, season_start. rewrite Hs.
    destruct (int_of_str (str_of_int y)) as [y'|e]; [|discriminate].
    now apply Z.eqb_eq.
Qed.

(** The first year of a team is the least start year of its rows. *)
Lemma first_year_least (final_df : DataFrame) (t : string) :
  In t (map team_name final_df) ->
  (exists r, In r final_df /\ team_name r = t /\
             start_year (season_name r) = first_year final_df t) /\
  (forall r, In r final_df -> team_name r = t ->
             first_year final_df t <= start_year (season_name r)).
Proof.
  intros Ht. unfold first_year.
  set (rows := filter (fun r => (team_name r =? t)%string) final_df).
  assert (Hrows : forall r, In r rows <-> In r final_df /\ team_name r = t).
  { intros r. unfold rows. rewrite filter_In, String.eqb_eq. tauto. }
  destruct rows as [|r0 rows'] eqn:E.
  { exfalso. apply in_map_iff in Ht. destruct Ht as [r [Hr Hin]].
    apply (proj2 (Hrows r)). now split. }
  cbn [map].
  destruct (fold_min_spec (map (fun r => start_year (season_name r)) rows')
                          (start_year (season_name r0))) as [Hin Hle].
  change (start_year (season_name r0) :: map (fun r => start_year (season_name r)) rows')
    with (map (fun r => start_year (season_name r)) (r0 :: rows')) in Hin, Hle.
  split.
  - apply in_map_iff in Hin. destruct Hin as [r [Hr Hin]].
    apply Hrows in Hin. exists r. tauto.
  - intros r Hr Hn. apply Hle. apply in_map_iff. exists r. split; [reflexivity|].
    apply Hrows. now split.
Qed.

(** C6. Team order: when the first four characters of every season name
    print its four-digit start year, the team order lists every team of the
    rows exactly once, each with the least start year among its rows, in
    ascending order of that year; the teams string joins the names in this
    order with " – "; and the string does not depend on the order of the
    rows.  Team A in 2010/2011 and 2012/2013 with team B in 2011/2012 gives
    "A – B" in every row order, and team A in 2010/2011 with team B in
    2009/2010 gives "B – A": the year decides, not the name. *)
Theorem team_order_by_first_season (final_df : DataFrame) (year : Row -> Z) :
  (forall r, In r final_df ->
             1000 <= year r <= 9999 /\
             substring 0 4 (season_name r) = str_of_int (year r)) ->
  exists order,
    team_order final_df = Ok order /\
    teams final_df = Ok (String.concat " – " (map fst order)) /\
    NoDup (map fst order) /\
    (forall t, In t (map fst order) <-> In t (map team_name final_df)) /\
    (forall t y, In (t, y) order ->
       (exists r, In r final_df /\ team_name r = t /\ year r = y) /\
       (forall r, In r final_df -> team_name r = t -> y <= year r)) /\
    StronglySorted (fun a b => snd a <= snd b) order /\
    (forall df', Permutation final_df df' -> teams df' = teams final_df) /\
    (forall r1 r2 r3 df',
       team_name r1 = "A" -> season_name r1 = "2010/2011" ->
       team_name r2 = "B" -> season_name r2 = "2011/2012" ->
       team_name r3 = "A" -> season_name r3 = "2012/2013" ->
       Permutation [r1; r2; r3] df' -> teams df' = Ok "A – B") /\
    (forall r1 r2 df',
       team_name r1 = "A" -> season_name r1 = "2010/2011" ->
       team_name r2 = "B" -> season_name r2 = "2009/2010" ->
       Permutation [r1; r2] df' -> teams df' = Ok "B – A").
Proof.
  intros Hyear.
  assert (Hwf : Forall (fun r => four_digits (season_name r) = true) final_df).
  { apply Forall_forall. intros r Hr. destruct (Hyear r Hr) as [Hy Hs].
    exact (proj1 (year_prefix _ Hy Hs)). }
  assert (Hsy : forall r, In r final_df -> start_year (season_name r) = year r).
  { intros r Hr. destruct (Hyear r Hr) as [Hy Hs]. exact (proj2 (year_prefix _ Hy Hs)). }
  set (keyed := map (fun t => (t, first_year final_df t))
                    (groupby_keys (map team_name final_df))).
  exists (sorted (fun a b => snd a <=? snd b) keyed).
  assert (Hclosed := team_order_closed Hwf). fold keyed in Hclosed.
  assert (Hperm : Permutation (map fst (sorted (fun a b => snd a <=? snd b) keyed))
                              (groupby_keys (map team_name final_df))).
  { eapply perm_trans; [apply Permutation_map, sorted_perm|].
    unfold keyed. rewrite map_map. simpl. rewrite map_id. apply Permutation_refl. }
  split; [exact Hclosed|].
  split; [unfold teams; now rewrite Hclosed|].
  split; [eapply Permutation_NoDup; [apply Permutation_sym, Hperm | apply groupby_keys_NoDup]|].
  split.
  { intros t. rewrite <- (groupby_keys_In t (map team_name final_df)).
    split; apply Permutation_in; [exact Hperm | apply Permutation_sym, Hperm]. }
  split.
  { intros t y Hin. apply sorted_In in Hin. unfold keyed in Hin.
    apply in_map_iff in Hin. destruct Hin as [t' [[= <- <-] Ht]].
    apply (proj1 (groupby_keys_In _ _)) in Ht.
    destruct (first_year_least _ _ Ht) as [[r [Hr [Hn Hy]]] Hle]. split.
    - exists r. split; [exact Hr|]. split; [exact Hn|]. now rewrite <- (Hsy r Hr).
    - intros r' Hr' Hn'. rewrite <- (Hsy r' Hr'). now apply Hle. }
  split.
  { eapply StronglySorted_impl;
      [|apply sorted_strongly; [apply by_year_total | apply by_year_trans]].
    intros a b H. now apply Z.leb_le. }
  split.
  { intros df' HP. now apply teams_perm. }
  split.
  { intros r1 r2 r3 df' T1 S1 T2 S2 T3 S3 HP.
    rewrite (teams_perm HP).
    destruct r1, r2, r3. simpl in T1, S1, T2, S2, T3, S3. subst.
    vm_compute. reflexivity. }
  intros r1 r2 df' T1 S1 T2 S2 HP.
  rewrite (teams_perm HP).
  destruct r1, r2. simpl in T1, S1, T2, S2. subst.
  vm_compute. reflexivity.
Qed.

Lemma team_order_by_first_season_witness :
  (forall r, In r year_before_name_rows ->
     1000 <= (if (team_name r =? "A")%string then 2010 else 2009) <= 9999 /\
     substring 0 4 (season_name r)
     = str_of_int (if (team_name r =? "A")%string then 2010 else 2009)) /\
  exists order,
    team_order year_before_name_rows = Ok order /\
    (forall t y, In (t, y) order ->
       exists r, In r year_before_name_rows /\ team_name r = t /\
                 (if (team_name r =? "A")%string then 2010 else 2009) = y) /\
    teams year_before_name_rows = Ok "B – A".
Proof.
  assert (H : forall r, In r year_before_name_rows ->
     1000 <= (if (team_name r =? "A")%string then 2010 else 2009) <= 9999 /\
     substring 0 4 (season_name r)
     = str_of_int (if (team_name r =? "A")%string then 2010 else 2009)).
  { intros r [<-|[<-|[]]]; (split; [cbn; lia | reflexivity]). }
  split; [exact H|].
  destruct (team_order_by_first_season year_before_name_rows
              (fun r => if (team_name r =? "A")%string then 2010 else 2009) H)
    as [order [H1 [_ [_ [_ [H5 [_ [_ [_ H9]]]]]]]]].
  exists order. split; [exact H1|]. split.
  - intros t y Hin. exact (proj1 (H5 t y Hin)).
  - apply (H9 (appearance "A" "2010/2011" None) (appearance "B" "2009/2010" None));
      reflexivity.
Defined.
